(** * Valentine greeting application: slide sequencer and letter typewriter

    A shallow embedding of the two animation components of the application:

    - [LetterDisplay] (src/assets/js/main.js): the word-by-word typewriter
      of [animateParagraph];
    - [IntroSlides] (src/assets/js/components/IntroSlides.js): the slide
      sequencer, a set of coroutines ([async] functions) that suspend on
      browser timers and are driven by the browser's event loop.

    JavaScript numbers that hold milliseconds or indices are integers here
    ([Z]); strings are [string] (a sequence of code units; every separator
    and punctuation mark the code looks for is a single ASCII unit). *)

From Stdlib Require Import Ascii String Sorted.
From stdpp Require Import base numbers list strings.

Open Scope string_scope.
Open Scope Z_scope.

(* ===================================================================== *)
(** * LetterDisplay: the typewriter of one paragraph *)
(* ===================================================================== *)

Module LetterDisplay.

(** ** Strings as the code uses them *)

(** [s.split(' ')] for a one-unit separator: the pieces between the
    separators, in order; a string without separator is a single piece,
    the empty string gives one empty piece. *)
Fixpoint split (sep : ascii) (s : string) : list string :=
  match s with
  | EmptyString => [EmptyString]
  | String c rest =>
      if Ascii.eqb c sep then EmptyString :: split sep rest
      else match split sep rest with
           | w :: ws => String c w :: ws
           | [] => [String c EmptyString]
           end
  end.

(** [ws.join(' ')]. *)
Definition join (sep : ascii) (ws : list string) : string :=
  String.concat (String sep EmptyString) ws.

(** [word.includes(c)] for a one-unit needle. *)
Fixpoint includes (c : ascii) (word : string) : bool :=
  match word with
  | EmptyString => false
  | String d rest => Ascii.eqb d c || includes c rest
  end.

(** The last code unit of a word, if it has one. *)
Fixpoint lastUnit (word : string) : option ascii :=
  match word with
  | EmptyString => None
  | String d EmptyString => Some d
  | String _ rest => lastUnit rest
  end.

Definition dot : ascii := "."%char.
Definition bang : ascii := "!"%char.
Definition question : ascii := "?"%char.
Definition space : ascii := " "%char.

(** The test of [animateParagraph]:
    [word.includes('.') || word.includes('!') || word.includes('?')]. *)
Definition hasPunctuation (word : string) : bool :=
  includes dot word || includes bang word || includes question word.

(** The reading of the specification: the word ENDS with one of the three
    marks. *)
Definition endsWithTerminal (word : string) : bool :=
  match lastUnit word with
  | Some c => Ascii.eqb c dot || Ascii.eqb c bang || Ascii.eqb c question
  | None => false
  end.

(** [const delay = ... ? this.config.typewriterSpeed * 3
                       : this.config.typewriterSpeed]. *)
Definition wordDelay (typewriterSpeed : Z) (word : string) : Z :=
  if hasPunctuation word then typewriterSpeed * 3 else typewriterSpeed.


(** ** The paragraph element *)

(** A child node of the paragraph: a text node, or the cursor [span]. *)
Inductive node :=
| TextNode (data : string)
| Span (className : string) (animation : string) (text : string).

Definition nodeText (n : node) : string :=
  match n with
  | TextNode d => d
  | Span _ _ t => t
  end.

Record paragraph := mkParagraph {
  childNodes : list node;
  visibility : string;
  opacity : string;
  transform : string;
  transition : string;
  animation : string;
  classList : list string
}.

(** The [textContent] getter: the text of all descendants, concatenated. *)
Definition textContent (p : paragraph) : string :=
  String.concat "" (map nodeText (childNodes p)).

(** The [textContent] setter replaces all children by one text node (by
    none for the empty string). *)
Definition setTextContent (t : string) (p : paragraph) : paragraph :=
  mkParagraph (match t with EmptyString => [] | _ => [TextNode t] end)
    (visibility p) (opacity p) (transform p) (transition p) (animation p)
    (classList p).

Definition setChildNodes (ns : list node) (p : paragraph) : paragraph :=
  mkParagraph ns (visibility p) (opacity p) (transform p) (transition p)
    (animation p) (classList p).

(** [paragraph.childNodes[0].textContent = t]: the first child is the
    cursor span all through the loop. *)
Definition setFirstChildText (t : string) (p : paragraph) : paragraph :=
  setChildNodes
    (match childNodes p with
     | Span c a _ :: ns => Span c a t :: ns
     | TextNode _ :: ns => TextNode t :: ns
     | [] => []
     end) p.

Definition cursorClass : string := "typewriter-cursor".

(** [cursor.remove()]. *)
Definition removeCursor (p : paragraph) : paragraph :=
  setChildNodes
    (List.filter (λ n, match n with
                       | Span c _ _ => negb (String.eqb c cursorClass)
                       | TextNode _ => true
                       end) (childNodes p)) p.

Definition classListAdd (c : string) (l : list string) : list string :=
  if bool_decide (c ∈ l) then l else l ++ [c].

(** ** The loop *)

(** One step of the typing loop: what is on screen and for how long the
    coroutine sleeps before the next word. *)
Record frame := mkFrame { shown : string; sleep : Z }.

(** The [for] loop of [animateParagraph], from index [i] with [n] words
    left.  The coroutine sleeps after each word; during a sleep other
    tasks may clear [this.state.typewriterActive], so the flag read at
    the head of iteration [i] is given by [active i]. *)
Fixpoint typeWords (active : nat → bool) (typewriterSpeed : Z)
    (words : list string) (n : nat) (i : nat) (p : paragraph)
    : paragraph * list frame :=
  match n with
  | O => (p, [])
  | S n' =>
      if negb (active i) then (p, [])
      else
        let currentText := join space (take (S i) words) in
        let p1 := setFirstChildText (currentText +:+ " ") p in
        let word := default "" (words !! i) in
        let delay := wordDelay typewriterSpeed word in
        let '(p2, fs) := typeWords active typewriterSpeed words n' (S i) p1 in
        (p2, mkFrame (textContent p1) delay :: fs)
  end.

(** [animateParagraph(paragraph, index)]: the final paragraph and the
    frames it went through. *)
Definition animateParagraph (active : nat → bool) (typewriterSpeed : Z)
    (p : paragraph) : paragraph * list frame :=
  let originalText := textContent p in
  let words := split space originalText in
  (* Show paragraph container *)
  let p1 := mkParagraph (childNodes p) "visible" "1" "translateY(0)"
              "opacity 0.3s ease, transform 0.3s ease" (animation p)
              (classList p) in
  (* Clear content for typewriter, add the cursor *)
  let p2 := setTextContent "" p1 in
  let p3 := setChildNodes
              (childNodes p2 ++ [Span cursorClass "blink 1s infinite" "|"])
              p2 in
  (* Type words progressively *)
  let '(p4, frames) :=
    typeWords active typewriterSpeed words (length words) 0 p3 in
  (* Remove cursor, restore the text *)
  let p5 := setTextContent originalText (removeCursor p4) in
  (mkParagraph (childNodes p5) "visible" "1" "translateY(0)" (transition p5)
     "paragraph-complete 0.3s ease" (classListAdd "typed-complete" (classList p5)),
   frames).

(** During the loop the cursor span is the only child. *)
Definition cursorOnly (p : paragraph) : Prop :=
  ∃ c a t, childNodes p = [Span c a t].

End LetterDisplay.

(* ===================================================================== *)
(** * IntroSlides: the slide sequencer *)
(* ===================================================================== *)

Module IntroSlides.

(** ** Values handed to callbacks and listeners *)

Inductive value :=
| VNumber (n : Z)
| VPercent (num den : Z)      (* the number [num / den * 100] *)
| VString (s : string)
| VUndefined
| VSlide (index : Z)          (* a reference to [elements.slides[index]] *)
| VComponent.                 (* [this] *)

(** An object literal: its keys, in the order written, with their values. *)
Definition object := list (string * value).

Fixpoint field (key : string) (o : object) : option value :=
  match o with
  | [] => None
  | (k, v) :: o' => if String.eqb k key then Some v else field key o'
  end.

(** What the component does that its environment can observe: calls of
    the configured handlers, the broadcast, and console errors. *)
Inductive event :=
| OnSlideStart (data : object)
| OnSlideComplete (data : object)
| OnProgress (data : object)
| OnSequenceComplete (data : object)
| Dispatched (type : string) (detail : object)
| ConsoleError (label : string).

(** ** Suspended coroutines *)

(** Which of the two loops awaits. *)
Inductive loop := PlaySequence | ContinueSequence.

(** Who awaits the promise of a [showSlide] call: one of the loops, at
    iteration [i], or nobody ([nextSlide] drops the promise). *)
Inductive awaiter :=
| AwaitedBy (l : loop) (i : Z)
| Dropped.

(** A timer callback.  The first three are the resolvers of [wait]
    promises: firing one resumes the coroutine that awaits it, with the
    local variables it captured. *)
Inductive callback :=
| ShowSlideRest (index previousIndex : Z) (a : awaiter)
    (* [showSlide] after [await this.wait(transitionDuration)] *)
| LoopAfterDelay (l : loop) (i : Z)
    (* a loop after [await this.wait(slideDelay)] in iteration [i] *)
| LoopBeforeComplete (l : loop)
    (* a loop after its trailing [await this.wait(...)] *)
| HideCallback                 (* [complete]: [() => this.hide()] *)
| HideFinish                   (* [hide]: the inner callback *)
| ErrorReveal (index : nat)    (* [handleError]: reveal one slide *)
| ErrorComplete                (* [handleError]: [() => this.complete()] *)
| HeartSpawn (slide : Z)       (* [addHeartEffect]: [createFloatingHeart] *)
| HeartRemove (slide : Z).     (* [createFloatingHeart]: remove the heart *)

Record timer := mkTimer { tid : nat; due : Z; action : callback }.

(** ** The page *)

Record slideEl := mkSlide {
  active : bool;              (* class [active] *)
  exiting : bool;             (* class [exiting] *)
  visibility : string;        (* [style.visibility] *)
  opacity : string;           (* [style.opacity] *)
  transition : string;        (* [style.transition] *)
  heartsContainer : bool;     (* has a [.slide-hearts] child *)
  hearts : nat                (* heart spans in that child *)
}.

Record sectionEl := mkSection {
  hidden : bool; fadeOut : bool; fadeIn : bool   (* classes *)
}.

(** The width of the progress bar, as the fraction it was computed from. *)
Inductive progress := Percent (num den : Z).

(** ** The component *)

Record config_t := mkConfig {
  messages : list string;
  slideDelay : Z;
  transitionDuration : Z;
  autoStart : bool;
  enableHeartEffects : bool;
  accessibilityMode : bool
}.

Record state_t := mkState {
  currentSlide : Z;
  isPlaying : bool;
  isPaused : bool;
  isCompleted : bool;
  startTime : option Z;        (* [null] before the first [start] *)
  timeouts : list nat
}.

Record elements_t := mkElements {
  slides : list slideEl;
  progressBar : option progress;   (* [None]: no such element *)
  section : option sectionEl
}.

(** A handler is [null] or a function; of the function only whether the
    call for a given slide index throws matters to the component. *)
Record handlers_t := mkHandlers {
  onSlideStart : option (Z → bool);
  onSlideComplete : option (Z → bool);
  onSequenceComplete : option bool;
  onProgress : option (Z → bool)
}.

(** The browser around the component: the clock ([Date.now()]), the
    timers that are set and not yet fired or cleared, the observable
    events so far with their times, the screen-reader live region, and
    the source of [Math.random()]. *)
Record browser := mkBrowser {
  clock : Z;
  timers : list timer;
  nextTimerId : nat;
  log : list (Z * event);
  liveRegion : option string;
  randomSource : nat → nat;
  randomUsed : nat
}.

Record world := mkWorld {
  config : config_t;
  state : state_t;
  elements : elements_t;
  eventHandlers : handlers_t;
  listening : bool;            (* [setupEventListeners] has run *)
  env : browser
}.

(** *** Field updates *)

Definition withConfig (f : config_t → config_t) (w : world) : world :=
  mkWorld (f (config w)) (state w) (elements w) (eventHandlers w)
    (listening w) (env w).
Definition withState (f : state_t → state_t) (w : world) : world :=
  mkWorld (config w) (f (state w)) (elements w) (eventHandlers w)
    (listening w) (env w).
Definition withElements (f : elements_t → elements_t) (w : world) : world :=
  mkWorld (config w) (state w) (f (elements w)) (eventHandlers w)
    (listening w) (env w).
Definition withEnv (f : browser → browser) (w : world) : world :=
  mkWorld (config w) (state w) (elements w) (eventHandlers w)
    (listening w) (f (env w)).

Definition setCurrentSlide (v : Z) (s : state_t) : state_t :=
  mkState v (isPlaying s) (isPaused s) (isCompleted s) (startTime s) (timeouts s).
Definition setIsPlaying (v : bool) (s : state_t) : state_t :=
  mkState (currentSlide s) v (isPaused s) (isCompleted s) (startTime s) (timeouts s).
Definition setIsPaused (v : bool) (s : state_t) : state_t :=
  mkState (currentSlide s) (isPlaying s) v (isCompleted s) (startTime s) (timeouts s).
Definition setIsCompleted (v : bool) (s : state_t) : state_t :=
  mkState (currentSlide s) (isPlaying s) (isPaused s) v (startTime s) (timeouts s).
Definition setStartTime (v : option Z) (s : state_t) : state_t :=
  mkState (currentSlide s) (isPlaying s) (isPaused s) (isCompleted s) v (timeouts s).
Definition setTimeouts (v : list nat) (s : state_t) : state_t :=
  mkState (currentSlide s) (isPlaying s) (isPaused s) (isCompleted s) (startTime s) v.

Definition setSlides (v : list slideEl) (e : elements_t) : elements_t :=
  mkElements v (progressBar e) (section e).
Definition setSection (v : option sectionEl) (e : elements_t) : elements_t :=
  mkElements (slides e) (progressBar e) v.

Definition setTimers (v : list timer) (b : browser) : browser :=
  mkBrowser (clock b) v (nextTimerId b) (log b) (liveRegion b)
    (randomSource b) (randomUsed b).
Definition setClock (v : Z) (b : browser) : browser :=
  mkBrowser v (timers b) (nextTimerId b) (log b) (liveRegion b)
    (randomSource b) (randomUsed b).

Definition messageCount (w : world) : Z :=
  Z.of_nat (length (messages (config w))).
Definition slideCount (w : world) : Z :=
  Z.of_nat (length (slides (elements w))).

(** [this.elements.slides[i]] updated in place; nothing happens where the
    code finds no element ([i] negative or past the end). *)
Definition onSlide (i : Z) (f : slideEl → slideEl) (w : world) : world :=
  if i <? 0 then w
  else withElements (λ e, setSlides (alter f (Z.to_nat i) (slides e)) e) w.

Definition onSection (f : sectionEl → sectionEl) (w : world) : world :=
  withElements (λ e, setSection (f <$> section e) e) w.

(** [this.config.messages[i]]. *)
Definition message (i : Z) (w : world) : value :=
  if i <? 0 then VUndefined
  else match messages (config w) !! Z.to_nat i with
       | Some m => VString m
       | None => VUndefined
       end.

(** ** Results of (a)synchronous calls *)

(** A call has returned ([Finished]; for an [async] function: its promise
    is already fulfilled), is suspended on a timer ([Suspended]), or has
    thrown ([Rejected]; for an [async] function: its promise is
    rejected).  Each carries the world at that point. *)
Inductive result :=
| Finished (w : world)
| Suspended (w : world)
| Rejected (w : world).

Definition worldOf (r : result) : world :=
  match r with Finished w | Suspended w | Rejected w => w end.

(** Sequencing of synchronous statements: a throw skips the rest. *)
Definition andThen (r : result) (k : world → result) : result :=
  match r with
  | Finished w => k w
  | Suspended w => Suspended w
  | Rejected w => Rejected w
  end.

Notation "r >>> k" := (andThen r k) (at level 60, right associativity).

(** ** Browser primitives *)

Definition emit (e : event) (w : world) : world :=
  withEnv (λ b, mkBrowser (clock b) (timers b) (nextTimerId b)
                  (log b ++ [(clock b, e)]) (liveRegion b)
                  (randomSource b) (randomUsed b)) w.

(** [setTimeout(callback, delay)]: a negative delay counts as zero. *)
Definition setTimeout (c : callback) (delay : Z) (w : world) : nat * world :=
  let id := nextTimerId (env w) in
  (id,
   withEnv (λ b, mkBrowser (clock b)
                   (timers b ++ [mkTimer id (clock b + Z.max 0 delay) c])
                   (S id) (log b) (liveRegion b)
                   (randomSource b) (randomUsed b)) w).

(** [Math.random()], to three decimals: the draw [r] stands for
    [r / 1000]. *)
Definition random (w : world) : Z * world :=
  let b := env w in
  (Z.of_nat (randomSource b (randomUsed b) `mod` 1000),
   withEnv (λ b, mkBrowser (clock b) (timers b) (nextTimerId b) (log b)
                   (liveRegion b) (randomSource b) (S (randomUsed b))) w).

(** [Date.now() - this.state.startTime]; [null] counts as 0. *)
Definition elapsed (w : world) : Z :=
  clock (env w) - default 0 (startTime (state w)).

(** ** Methods *)

(** [wait(duration)]: a promise resolved by a timer that is also recorded
    in [state.timeouts]; [c] is the coroutine that awaits it. *)
Definition wait (duration : Z) (c : callback) (w : world) : world :=
  let '(id, w1) := setTimeout c duration w in
  withState (λ s, setTimeouts (timeouts s ++ [id]) s) w1.

(** [clearTimeouts()]: every recorded timer is cleared (the coroutines
    awaiting them never resume) and the record is emptied. *)
Definition clearTimeouts (w : world) : world :=
  let ids := timeouts (state w) in
  withState (setTimeouts [])
    (withEnv (λ b, setTimers
                (List.filter (λ t, negb (bool_decide (tid t ∈ ids))) (timers b))
                b) w).

(** [updateProgressBar(percentage)]. *)
Definition updateProgressBar (p : progress) (w : world) : world :=
  withElements (λ e, mkElements (slides e)
                       (match progressBar e with
                        | Some _ => Some p
                        | None => None
                        end) (section e)) w.

(** Calling a handler if it is set: the call is observed, and may throw. *)
Definition invoke (h : option (Z → bool)) (e : event) (index : Z)
    (w : world) : result :=
  match h with
  | None => Finished w
  | Some throws =>
      if throws index then Rejected (emit e w) else Finished (emit e w)
  end.

(** [resetSlides()]. *)
Definition resetSlides (w : world) : world :=
  let w1 := withElements (λ e, setSlides
              (map (λ sl, mkSlide false false "hidden" "0" (transition sl)
                            (heartsContainer sl) (hearts sl)) (slides e)) e) w in
  let w2 := withState (λ s, setIsCompleted false (setCurrentSlide (-1) s)) w1 in
  updateProgressBar (Percent 0 1) w2.

(** The number of iterations of [for (i = 0; i < heartCount; i++)] with
    [heartCount = Math.random() * 3 + 2], for the draw [r]. *)
Definition heartIterations (r : Z) : nat :=
  Z.to_nat ((3 * r + 2000 + 999) / 1000).

Fixpoint scheduleHearts (n : nat) (slide : Z) (w : world) : world :=
  match n with
  | O => w
  | S n' =>
      let '(r, w1) := random w in
      let '(_, w2) := setTimeout (HeartSpawn slide) r w1 in
      scheduleHearts n' slide w2
  end.

(** [addHeartEffect(slide)], for the slide at [index]. *)
Definition addHeartEffect (index : Z) (w : world) : world :=
  if accessibilityMode (config w) then w
  else
    let w1 := onSlide index (λ sl, mkSlide (active sl) (exiting sl)
                (visibility sl) (opacity sl) (transition sl) true (hearts sl)) w in
    let '(r, w2) := random w1 in
    scheduleHearts (heartIterations r) index w2.

(** [createFloatingHeart(container)]: three draws (glyph, left, top), the
    heart is appended, its removal scheduled. *)
Definition createFloatingHeart (slide : Z) (w : world) : world :=
  let '(_, w1) := random w in
  let '(_, w2) := random w1 in
  let '(_, w3) := random w2 in
  let w4 := onSlide slide (λ sl, mkSlide (active sl) (exiting sl)
              (visibility sl) (opacity sl) (transition sl)
              (heartsContainer sl) (S (hearts sl))) w3 in
  snd (setTimeout (HeartRemove slide) 3000 w4).

Definition removeHeart (slide : Z) (w : world) : world :=
  onSlide slide (λ sl, mkSlide (active sl) (exiting sl) (visibility sl)
                   (opacity sl) (transition sl) (heartsContainer sl)
                   (pred (hearts sl))) w.

(** [announceSlide(message)]. *)
Definition announceSlide (m : value) (w : world) : world :=
  withEnv (λ b, mkBrowser (clock b) (timers b) (nextTimerId b) (log b)
                  (Some (match m with VString s => s | _ => "" end))
                  (randomSource b) (randomUsed b)) w.

Definition slideData (index : Z) (w : world) : object :=
  [("index", VNumber index); ("message", message index w);
   ("slide", VSlide index)].

(** [showSlide(index)] up to its [await]. *)
Definition showSlide (index : Z) (a : awaiter) (w : world) : result :=
  if (index <? 0) || (slideCount w <=? index) then Finished w
  else
    let previousIndex := currentSlide (state w) in
    let w1 := withState (setCurrentSlide index) w in
    (* Update progress *)
    let w2 := updateProgressBar (Percent (index + 1) (messageCount w1)) w1 in
    (* Fire slide start event *)
    invoke (onSlideStart (eventHandlers w2))
      (OnSlideStart (slideData index w2)) index w2 >>> λ w3,
    (* Handle previous slide exit *)
    let w4 := onSlide previousIndex (λ sl, mkSlide false true (visibility sl)
                (opacity sl) (transition sl) (heartsContainer sl) (hearts sl)) w3 in
    (* Show current slide *)
    let w5 := onSlide index (λ sl, mkSlide true (exiting sl) "visible"
                (opacity sl) (transition sl) (heartsContainer sl) (hearts sl)) w4 in
    (* Add heart effects if enabled *)
    let w6 := if enableHeartEffects (config w5)
              then addHeartEffect index w5 else w5 in
    (* Announce to screen readers *)
    let w7 := announceSlide (message index w6) w6 in
    (* Wait for transition to complete *)
    Suspended (wait (transitionDuration (config w7))
                 (ShowSlideRest index previousIndex a) w7).

(** [showSlide(index)] after its [await]. *)
Definition showSlideRest (index previousIndex : Z) (w : world) : result :=
  (* Clean up previous slide *)
  let w1 := onSlide previousIndex (λ sl, mkSlide (active sl) false "hidden"
              (opacity sl) (transition sl) (heartsContainer sl) (hearts sl)) w in
  (* Fire slide complete event *)
  invoke (onSlideComplete (eventHandlers w1))
    (OnSlideComplete (slideData index w1)) index w1 >>> λ w2,
  (* Fire progress event *)
  invoke (onProgress (eventHandlers w2))
    (OnProgress [("current", VNumber (index + 1));
                 ("total", VNumber (messageCount w2));
                 ("percentage", VPercent (index + 1) (messageCount w2))])
    index w2.

(** [hide()]. *)
Definition hide (w : world) : world :=
  match section (elements w) with
  | Some _ =>
      let w1 := onSection (λ s, mkSection (hidden s) true (fadeIn s)) w in
      snd (setTimeout HideFinish (transitionDuration (config w1)) w1)
  | None => w
  end.

Definition hideFinish (w : world) : world :=
  onSection (λ s, mkSection true false (fadeIn s)) w.

(** [show()]. *)
Definition show (w : world) : world :=
  onSection (λ s, mkSection false (fadeOut s) true) w.

(** [complete()]. *)
Definition complete (w : world) : result :=
  let w1 := withState (λ s, setIsCompleted true
                             (setIsPaused false (setIsPlaying false s))) w in
  let w2 := updateProgressBar (Percent 1 1) w1 in
  (* Fire completion event *)
  (match onSequenceComplete (eventHandlers w2) with
   | None => Finished w2
   | Some throws =>
       let w3 := emit (OnSequenceComplete
                         [("duration", VNumber (elapsed w2));
                          ("slideCount", VNumber (messageCount w2))]) w2 in
       if throws then Rejected w3 else Finished w3
   end) >>> λ w4,
  (* Dispatch custom event for other components *)
  let w5 := emit (Dispatched "introSlidesComplete"
                    [("component", VComponent);
                     ("duration", VNumber (elapsed w4))]) w4 in
  (* Auto-hide after completion *)
  Finished (snd (setTimeout HideCallback 1000 w5)).

Fixpoint scheduleReveals (n : nat) (index : nat) (w : world) : world :=
  match n with
  | O => w
  | S n' =>
      let '(_, w1) := setTimeout (ErrorReveal index) (Z.of_nat index * 200) w in
      scheduleReveals n' (S index) w1
  end.

(** [handleError(error)]. *)
Definition handleError (w : world) : world :=
  let w1 := emit (ConsoleError "IntroSlides error:") w in
  let w2 := withState (setIsPlaying false) w1 in
  (* Fallback: show all messages at once *)
  let w3 := scheduleReveals (length (slides (elements w2))) 0 w2 in
  (* Complete after showing all slides *)
  snd (setTimeout ErrorComplete (messageCount w3 * 200 + 1000) w3).

Definition errorReveal (index : nat) (w : world) : world :=
  onSlide (Z.of_nat index) (λ sl, mkSlide true (exiting sl) "visible" "1"
              (transition sl) (heartsContainer sl) (hearts sl)) w.

(** *** The two loops *)

(** [playSequence()] below its loop. *)
Definition playSequence_end (w : world) : result :=
  if isPlaying (state w) && negb (isPaused (state w))
  then Suspended (wait 400 (LoopBeforeComplete PlaySequence) w)
  else Finished w.

(** The loop of [playSequence()] entered at [i] with [n] iterations to go
    ([n] is [messages.length - i]: the loop test is the count). *)
Fixpoint playSequence_loop (n : nat) (i : Z) (w : world) : result :=
  match n with
  | O => playSequence_end w
  | S n' =>
      if negb (isPlaying (state w)) || isPaused (state w)
      then playSequence_end w
      else
        match showSlide i (AwaitedBy PlaySequence i) w with
        | Finished w1 =>
            if i <? messageCount w1 - 1
            then Suspended (wait (slideDelay (config w1))
                              (LoopAfterDelay PlaySequence i) w1)
            else playSequence_loop n' (i + 1) w1
        | Suspended w1 => Suspended w1
        | Rejected w1 => Rejected w1
        end
  end.

Definition playSequence_from (i : Z) (w : world) : result :=
  playSequence_loop (Z.to_nat (messageCount w - i)) i w.

Definition playSequence (w : world) : result := playSequence_from 0 w.

(** [continueSequence()] below its loop. *)
Definition continueSequence_end (w : world) : result :=
  if isPlaying (state w) && negb (isPaused (state w))
  then Suspended (wait (slideDelay (config w))
                    (LoopBeforeComplete ContinueSequence) w)
  else Finished w.

Fixpoint continueSequence_loop (n : nat) (i : Z) (w : world) : result :=
  match n with
  | O => continueSequence_end w
  | S n' =>
      if negb (isPlaying (state w)) || isPaused (state w)
      then continueSequence_end w
      else
        match showSlide i (AwaitedBy ContinueSequence i) w with
        | Finished w1 =>
            if i <? messageCount w1 - 1
            then Suspended (wait (slideDelay (config w1))
                              (LoopAfterDelay ContinueSequence i) w1)
            else continueSequence_loop n' (i + 1) w1
        | Suspended w1 => Suspended w1
        | Rejected w1 => Rejected w1
        end
  end.

Definition continueSequence_from (i : Z) (w : world) : result :=
  continueSequence_loop (Z.to_nat (messageCount w - i)) i w.

Definition continueSequence (w : world) : result :=
  continueSequence_from (currentSlide (state w) + 1) w.

(** A loop resumed after [await this.showSlide(i)]. *)
Definition afterShow (l : loop) (i : Z) (w : world) : result :=
  if i <? messageCount w - 1
  then Suspended (wait (slideDelay (config w)) (LoopAfterDelay l i) w)
  else match l with
       | PlaySequence => playSequence_from (i + 1) w
       | ContinueSequence => continueSequence_from (i + 1) w
       end.

(** A loop resumed after [await this.wait(slideDelay)] in iteration [i]. *)
Definition afterDelay (l : loop) (i : Z) (w : world) : result :=
  match l with
  | PlaySequence => playSequence_from (i + 1) w
  | ContinueSequence => continueSequence_from (i + 1) w
  end.

(** The [try ... catch] of [start()] around [await this.playSequence()]:
    a rejection anywhere in that coroutine ends in [handleError]. *)
Definition caughtByStart (r : result) : world :=
  match r with
  | Finished w | Suspended w => w
  | Rejected w => handleError (emit (ConsoleError "Error during slide sequence:") w)
  end.

(** Where nobody awaits or catches ([resume()] and [nextSlide()] drop the
    promise; a timer callback has no caller), a rejection or a throw is
    reported by the browser and otherwise lost. *)
Definition uncaught (r : result) : world := worldOf r.

(** Resuming the coroutine stack of loop [l]. *)
Definition settle (l : loop) (r : result) : world :=
  match l with
  | PlaySequence => caughtByStart r
  | ContinueSequence => uncaught r
  end.

(** [start()]. *)
Definition start (w : world) : world :=
  if isPlaying (state w) || isCompleted (state w) then w
  else
    let w1 := withState (λ s, setStartTime (Some (clock (env w)))
                               (setIsPaused false (setIsPlaying true s))) w in
    (* Show the container *)
    let w2 := onSection (λ s, mkSection false (fadeOut s) (fadeIn s)) w1 in
    (* Start the sequence *)
    caughtByStart (playSequence w2).

(** [pause()]. *)
Definition pause (w : world) : world :=
  if negb (isPlaying (state w)) || isPaused (state w) then w
  else clearTimeouts (withState (setIsPaused true) w).

(** [resume()]. *)
Definition resume (w : world) : world :=
  if negb (isPlaying (state w)) || negb (isPaused (state w)) then w
  else uncaught (continueSequence (withState (setIsPaused false) w)).

(** [nextSlide()]. *)
Definition nextSlide (w : world) : world :=
  if negb (isPlaying (state w))
     || (messageCount w - 1 <=? currentSlide (state w)) then w
  else
    let w1 := clearTimeouts w in
    uncaught (showSlide (currentSlide (state w1) + 1) Dropped w1).

(** [skip()]. *)
Definition skip (w : world) : result := complete (clearTimeouts w).

(** [stop()]. *)
Definition stop (w : world) : world :=
  clearTimeouts (withState (λ s, setIsPaused false (setIsPlaying false s)) w).

(** [restart()]. *)
Definition restart (w : world) : world := start (resetSlides (stop w)).

(** [adjustForReducedMotion()]. *)
Definition adjustForReducedMotion (w : world) : world :=
  let w1 := withConfig (λ c, mkConfig (messages c) 500 100 (autoStart c)
                               false (accessibilityMode c)) w in
  withElements (λ e, setSlides
     (map (λ sl, mkSlide (active sl) (exiting sl) (visibility sl) (opacity sl)
                   "opacity 0.2s ease" (heartsContainer sl) (hearts sl))
        (slides e)) e) w1.

(** ** The event loop *)

(** What a timer callback does when it fires. *)
Definition runCallback (c : callback) (w : world) : world :=
  match c with
  | ShowSlideRest index previousIndex a =>
      match a with
      | AwaitedBy l i =>
          settle l (showSlideRest index previousIndex w >>> afterShow l i)
      | Dropped => uncaught (showSlideRest index previousIndex w)
      end
  | LoopAfterDelay l i => settle l (afterDelay l i w)
  | LoopBeforeComplete l => settle l (complete w)
  | HideCallback => hide w
  | HideFinish => hideFinish w
  | ErrorReveal index => errorReveal index w
  | ErrorComplete => uncaught (complete w)
  | HeartSpawn slide => createFloatingHeart slide w
  | HeartRemove slide => removeHeart slide w
  end.

Fixpoint findTimer (id : nat) (ts : list timer) : option timer :=
  match ts with
  | [] => None
  | t :: ts' => if Nat.eqb (tid t) id then Some t else findTimer id ts'
  end.

Definition dropTimer (id : nat) (ts : list timer) : list timer :=
  List.filter (λ t, negb (Nat.eqb (tid t) id)) ts.

(** The browser fires timer [id]: not before it is due, possibly later. *)
Definition fire (id : nat) (w : world) : world :=
  match findTimer id (timers (env w)) with
  | None => w
  | Some t =>
      runCallback (action t)
        (withEnv (λ b, setClock (Z.max (clock b) (due t))
                         (setTimers (dropTimer id (timers b)) b)) w)
  end.

(** ** What can happen to a component *)

Inductive input :=
| CallStart | CallPause | CallResume | CallNextSlide | CallSkip
| CallComplete | CallStop | CallRestart | CallResetSlides | CallHide
| CallShow
| KeyDown (key : string)
| Click
| VisibilityChange (documentHidden : bool)
| ReducedMotionChange (matches : bool)
| TimerFires (id : nat)
| TimePasses (d : Z).

(** The [keydown] listener of [setupEventListeners]. *)
Definition onKeyDown (key : string) (w : world) : world :=
  if isPlaying (state w) then
    if String.eqb key "Escape" then uncaught (skip w)
    else if String.eqb key " " || String.eqb key "Enter" then
      if isPaused (state w) then resume w else pause w
    else if String.eqb key "ArrowRight" then nextSlide w
    else w
  else w.

(** The [click] listener on the container. *)
Definition onClick (w : world) : world :=
  if isPlaying (state w) && negb (isPaused (state w)) then nextSlide w else w.

(** The [visibilitychange] listener. *)
Definition onVisibilityChange (documentHidden : bool) (w : world) : world :=
  if documentHidden && isPlaying (state w) then pause w
  else if negb documentHidden && isPaused (state w) then resume w
  else w.

(** The listener on the reduced-motion media query. *)
Definition onReducedMotionChange (matches : bool) (w : world) : world :=
  let w1 := withConfig (λ c, mkConfig (messages c) (slideDelay c)
              (transitionDuration c) (autoStart c) (enableHeartEffects c)
              matches) w in
  if matches && isPlaying (state w1) then adjustForReducedMotion w1 else w1.

(** One task of the event loop, run to completion (with the promise
    reactions it triggers): a method call from outside, a DOM event, a
    timer, or time passing. *)
Definition step (i : input) (w : world) : world :=
  match i with
  | CallStart => start w
  | CallPause => pause w
  | CallResume => resume w
  | CallNextSlide => nextSlide w
  | CallSkip => uncaught (skip w)
  | CallComplete => uncaught (complete w)
  | CallStop => stop w
  | CallRestart => restart w
  | CallResetSlides => resetSlides w
  | CallHide => hide w
  | CallShow => show w
  | KeyDown key => if listening w then onKeyDown key w else w
  | Click => if listening w then onClick w else w
  | VisibilityChange h => if listening w then onVisibilityChange h w else w
  | ReducedMotionChange m =>
      if listening w then onReducedMotionChange m w else w
  | TimerFires id => fire id w
  | TimePasses d => withEnv (λ b, setClock (clock b + Z.max 0 d) b) w
  end.

Definition steps (ins : list input) (w : world) : world :=
  foldl (λ w i, step i w) w ins.

(** *** Timers firing on time *)

(** The pending timer that is due first (the one set first among equals). *)
Fixpoint earliest (ts : list timer) : option timer :=
  match ts with
  | [] => None
  | t :: ts' =>
      match earliest ts' with
      | Some u => if due u <? due t then Some u else Some t
      | None => Some t
      end
  end.

(** The component left alone for at most [fuel] timers, each firing when
    it is due. *)
Fixpoint run (fuel : nat) (w : world) : world :=
  match fuel with
  | O => w
  | S fuel' =>
      match earliest (timers (env w)) with
      | Some t => run fuel' (fire (tid t) w)
      | None => w
      end
  end.

(** ** Construction *)

Record options := mkOptions {
  optMessages : option (list string);
  optSlideDelay : option Z;
  optTransitionDuration : option Z;
  optAutoStart : option bool;
  optEnableHeartEffects : option bool;
  optAccessibilityMode : option bool;
  optHandlers : handlers_t
}.

(** The document the component is constructed in. *)
Record page := mkPage {
  container : option (list slideEl * bool);
     (* the [.slide] elements under the container, and whether it has an
        [.intro-slides-section] ancestor; [None]: no container *)
  hasProgressBar : bool;
  prefersReducedMotion : bool;
  pageClock : Z;
  pageRandom : nat → nat
}.

(** [x || d] for a number. *)
Definition orDefault (x : option Z) (d : Z) : Z :=
  match x with
  | Some v => if v =? 0 then d else v
  | None => d
  end.

Definition defaultMessages : list string :=
  ["Hi"; "Happy"; "Valentine's"; "Day"; "Babe"].

(** The fields set by the constructor before [init()]. *)
Definition fresh (o : options) (p : page) : world :=
  mkWorld
    (mkConfig (default defaultMessages (optMessages o))
       (orDefault (optSlideDelay o) 800)
       (orDefault (optTransitionDuration o) 800)
       (default true (optAutoStart o))
       (default true (optEnableHeartEffects o))
       (default false (optAccessibilityMode o)))
    (mkState (-1) false false false None [])
    (mkElements [] None None)
    (optHandlers o)
    false
    (mkBrowser (pageClock p) [] 0 [] None (pageRandom p) 0).

(** [setupDOM()]; it throws without a container or without slides. *)
Definition setupDOM (p : page) (w : world) : result :=
  match container p with
  | None => Rejected w
  | Some (sls, inSection) =>
      let w1 := withElements (λ _, mkElements sls
                  (if hasProgressBar p then Some (Percent 0 1) else None)
                  (if inSection then Some (mkSection false false false)
                   else None)) w in
      match sls with
      | [] => Rejected w1
      | _ => Finished (updateProgressBar (Percent 0 1) (resetSlides w1))
      end
  end.

(** [setupAccessibility()]. *)
Definition setupAccessibility (p : page) (w : world) : world :=
  if prefersReducedMotion p
  then withConfig (λ c, mkConfig (messages c) 800 200 (autoStart c)
                          (enableHeartEffects c) true) w
  else w.

(** [new IntroSlides(options)]: the constructor with [init()]. *)
Definition construct (o : options) (p : page) : world :=
  match setupDOM p (fresh o p) with
  | Finished w1 =>
      let w2 := setupAccessibility p w1 in
      let w3 := mkWorld (config w2) (state w2) (elements w2)
                  (eventHandlers w2) true (env w2) in
      if autoStart (config w3) then start w3 else w3
  | Suspended w1 => w1
  | Rejected w1 => emit (ConsoleError "IntroSlides initialization failed:") w1
  end.

End IntroSlides.


(* ===================================================================== *)
(** * IntroSlides: vocabulary of the properties *)
(* ===================================================================== *)

Module IntroSlidesSpec.
Import IntroSlides.
Local Open Scope list_scope.

(** ** The states the specification names *)

Inductive phase := Idle | Playing | Paused | Completed.

Definition phaseOf (w : world) : phase :=
  if isCompleted (state w) then Completed
  else if isPlaying (state w)
       then (if isPaused (state w) then Paused else Playing)
       else Idle.

(** ** Reading the log *)

Definition numberField (key : string) (o : object) : option Z :=
  match field key o with
  | Some (VNumber n) => Some n
  | _ => None
  end.

(** The indices [onSlideStart] was called with, in order. *)
Definition startedIndices (lg : list (Z * event)) : list Z :=
  omap (λ te, match te.2 with
              | OnSlideStart d => numberField "index" d
              | _ => None
              end) lg.

(** The indices [onSlideComplete] was called with, in order. *)
Definition completedIndices (lg : list (Z * event)) : list Z :=
  omap (λ te, match te.2 with
              | OnSlideComplete d => numberField "index" d
              | _ => None
              end) lg.

(** The payloads [onSequenceComplete] was called with. *)
Definition sequenceCompletions (lg : list (Z * event)) : list object :=
  omap (λ te, match te.2 with
              | OnSequenceComplete d => Some d
              | _ => None
              end) lg.

(** The events broadcast on the document, with their [detail]. *)
Definition broadcasts (lg : list (Z * event)) : list (string * object) :=
  omap (λ te, match te.2 with
              | Dispatched n d => Some (n, d)
              | _ => None
              end) lg.

(** The calls of the three sequencing handlers, without their payloads. *)
Inductive handlerCall :=
| SlideStart (index : Z)
| SlideComplete (index : Z)
| SequenceComplete.

Definition handlerCalls (lg : list (Z * event)) : list handlerCall :=
  omap (λ te, match te.2 with
              | OnSlideStart d => SlideStart <$> numberField "index" d
              | OnSlideComplete d => SlideComplete <$> numberField "index" d
              | OnSequenceComplete _ => Some SequenceComplete
              | _ => None
              end) lg.

(** The payload the specification gives the completion signal: a record
    with a duration and an item count, both numbers. *)
Definition hasDurationAndCount (o : object) : bool :=
  match numberField "duration" o, numberField "slideCount" o with
  | Some _, Some _ => true
  | _, _ => false
  end.

(** ** Kinds of timers *)

(** The resolver of a [wait] promise. *)
Definition isWaitResolver (c : callback) : bool :=
  match c with
  | ShowSlideRest _ _ _ | LoopAfterDelay _ _ | LoopBeforeComplete _ => true
  | _ => false
  end.

(** A timer whose firing resumes [playSequence] or [continueSequence]
    (directly, or through the [showSlide] call the loop awaits). *)
Definition resumesLoop (c : callback) : bool :=
  match c with
  | ShowSlideRest _ _ (AwaitedBy _ _) | LoopAfterDelay _ _
  | LoopBeforeComplete _ => true
  | _ => false
  end.

(** A timer set with a bare [setTimeout] that touches the page only. *)
Definition inert (c : callback) : bool :=
  match c with
  | HideCallback | HideFinish | ErrorReveal _ | HeartSpawn _
  | HeartRemove _ => true
  | _ => false
  end.

(** ** [start()] as the specification words it *)

(** "Sets state to Playing, records the start timestamp, sets
    currentIndex = -1, then begins the play loop." *)
Definition start_asSpecified (w : world) : world :=
  if isPlaying (state w) || isCompleted (state w) then w
  else
    let w1 := withState (λ s, setCurrentSlide (-1)
                               (setStartTime (Some (clock (env w)))
                                  (setIsPaused false (setIsPlaying true s)))) w in
    let w2 := onSection (λ s, mkSection false (fadeOut s) (fadeIn s)) w1 in
    caughtByStart (playSequence w2).

(** Playing and not paused: where the loops go on. *)
Definition playing (w : world) : bool :=
  isPlaying (state w) && negb (isPaused (state w)).

(** ** The two loops as one *)

(** What a loop waits before it completes the sequence. *)
Definition trailingDelay (l : loop) (w : world) : Z :=
  match l with
  | PlaySequence => 400
  | ContinueSequence => slideDelay (config w)
  end.

Definition loopEnd (l : loop) (w : world) : result :=
  if isPlaying (state w) && negb (isPaused (state w))
  then Suspended (wait (trailingDelay l w) (LoopBeforeComplete l) w)
  else Finished w.

(** The body shared by [playSequence] and [continueSequence], with the
    loop as a parameter. *)
Fixpoint loopIter (l : loop) (n : nat) (i : Z) (w : world) : result :=
  match n with
  | O => loopEnd l w
  | S n' =>
      if negb (isPlaying (state w)) || isPaused (state w)
      then loopEnd l w
      else
        match showSlide i (AwaitedBy l i) w with
        | Finished w1 =>
            if i <? messageCount w1 - 1
            then Suspended (wait (slideDelay (config w1))
                              (LoopAfterDelay l i) w1)
            else loopIter l n' (i + 1) w1
        | Suspended w1 => Suspended w1
        | Rejected w1 => Rejected w1
        end
  end.

Definition loopFrom (l : loop) (i : Z) (w : world) : result :=
  loopIter l (Z.to_nat (messageCount w - i)) i w.

(** ** How a world grows *)

Definition flagsOf (w : world) : bool * bool * bool :=
  (isPlaying (state w), isPaused (state w), isCompleted (state w)).

Definition stamped (t : Z) (evs : list event) : list (Z * event) :=
  map (pair t) evs.

(** What calling a handler adds to the log. *)
Definition observed {A} (h : option A) (e : event) : list event :=
  match h with
  | Some _ => [e]
  | None => []
  end.

(** Whether the handler is set and throws for [index]. *)
Definition throwsAt (h : option (Z → bool)) (index : Z) : bool :=
  match h with
  | Some f => f index
  | None => false
  end.

(** [w'] comes from [w] by setting the timers [new] (of which the ids
    [ids] were recorded in [state.timeouts]) and logging the events
    [evs], with no time passing; the configuration, the handlers and the
    number of slides are as they were. *)
Record grows (w w' : world) (new : list timer) (ids : list nat)
    (evs : list event) : Prop := mkGrows {
  grows_config : config w' = config w;
  grows_handlers : eventHandlers w' = eventHandlers w;
  grows_listening : listening w' = listening w;
  grows_flags : flagsOf w' = flagsOf w;
  grows_startTime : startTime (state w') = startTime (state w);
  grows_timeouts : timeouts (state w') = timeouts (state w) ++ ids;
  grows_slides : length (slides (elements w')) = length (slides (elements w));
  grows_section : is_Some (section (elements w'))
                  ↔ is_Some (section (elements w));
  grows_clock : clock (env w') = clock (env w);
  grows_random : randomSource (env w') = randomSource (env w);
  grows_timers : timers (env w') = timers (env w) ++ new;
  grows_next : nextTimerId (env w') = (nextTimerId (env w) + length new)%nat;
  grows_ids : map tid new = seq (nextTimerId (env w)) (length new);
  grows_due : Forall (λ t, clock (env w) ≤ due t) new;
  grows_log : log (env w') = log (env w) ++ stamped (clock (env w)) evs
}.

(** The flags [complete()] leaves. *)
Definition completedFlags (s : state_t) : state_t :=
  setIsCompleted true (setIsPaused false (setIsPlaying false s)).

(** ** The timer discipline *)

(** Every pending resolver of a [wait] promise is recorded in
    [state.timeouts]. *)
Definition tracked (w : world) : Prop :=
  Forall (λ t, isWaitResolver (action t) = true → tid t ∈ timeouts (state w))
    (timers (env w)).

(** While paused the sequencer is playing, and no pending timer resumes
    a loop. *)
Definition quietWhenPaused (w : world) : Prop :=
  isPaused (state w) = true →
  isPlaying (state w) = true
  ∧ Forall (λ t, resumesLoop (action t) = false) (timers (env w)).

(** A completed sequencer is not playing. *)
Definition coherent (w : world) : Prop :=
  isCompleted (state w) = true → isPlaying (state w) = false.

Definition disciplined (w : world) : Prop :=
  tracked w ∧ quietWhenPaused w ∧ coherent w.

(** The world in which the callback of timer [t] runs, [rest] being the
    other pending timers. *)
Definition taken (t : timer) (rest : list timer) (w : world) : world :=
  withEnv (λ b, setClock (Z.max (clock b) (due t)) (setTimers rest b)) w.

(** ** Left to its timers *)

(** No call and no event of the page: a timer fires, or time passes. *)
Definition timerOnly (i : input) : bool :=
  match i with
  | TimerFires _ | TimePasses _ => true
  | _ => false
  end.

(** The timers that resume a loop. *)
Definition loopOnly (ts : list timer) : list timer :=
  List.filter (λ t, resumesLoop (action t)) ts.

Definition loopTimers (w : world) : list timer := loopOnly (timers (env w)).

(** Timers that resume no loop. *)
Definition loopFree (ts : list timer) : Prop :=
  Forall (λ t, resumesLoop (action t) = false) ts.

(** The index of the last [showSlide] call of the loop that a timer
    resumes, if the loop may call [showSlide] again. *)
Definition reachedBy (c : callback) : option Z :=
  match c with
  | ShowSlideRest _ _ (AwaitedBy _ i) | LoopAfterDelay _ i => Some i
  | _ => None
  end.

(** [w'] has the timers [new] and the log entries [evs] more than [w]. *)
Definition extends (w w' : world) (new : list timer)
    (evs : list (Z * event)) : Prop :=
  timers (env w') = timers (env w) ++ new
  ∧ log (env w') = log (env w) ++ evs.

(** What a callback may add: at most one timer that resumes a loop, and
    that loop has reached index [i] at least. *)
Definition carriesOn (i : Z) (new : list timer) : Prop :=
  (length (loopOnly new) ≤ 1)%nat
  ∧ Forall (λ t, ∀ b, reachedBy (action t) = Some b → i ≤ b) new.


(** ** Worlds a component can be in *)

Inductive reachable : world → Prop :=
| reachable_construct o p : reachable (construct o p)
| reachable_step i w : reachable w → reachable (step i w).

(** ** Examples used below *)

Definition plainSlide : slideEl := mkSlide false false "" "" "" false 0.

Definition quietHandlers : handlers_t :=
  mkHandlers (Some (λ _, false)) (Some (λ _, false)) (Some false)
    (Some (λ _, false)).

(** Three messages, 100 ms between slides, 50 ms transitions, started by
    hand, hearts off. *)
Definition demoOptions : options :=
  mkOptions (Some ["Hi"; "Happy"; "Day"]) (Some 100) (Some 50) (Some false)
    (Some false) None quietHandlers.

(** The same with every default but the messages and [autoStart]. *)
Definition defaultOptions : options :=
  mkOptions (Some ["Hi"; "Happy"; "Day"]) None None (Some false) None None
    quietHandlers.

Definition demoPage : page :=
  mkPage (Some ([plainSlide; plainSlide; plainSlide], true)) true false 0
    (λ n, (n * 377)%nat).

(** The demo paused while its first slide is shown, as [resume()] has
    it when it calls [continueSequence()]. *)
Definition resumingWorld : world :=
  withState (setIsPaused false)
    (pause (run 1 (start (construct demoOptions demoPage)))).

(** Handlers of which [onSlideStart] throws for the second slide. *)
Definition failingHandlers : handlers_t :=
  mkHandlers (Some (λ index, index =? 1)) (Some (λ _, false)) (Some false)
    (Some (λ _, false)).

Definition failingOptions : options :=
  mkOptions (Some ["Hi"; "Happy"; "Day"]) (Some 100) (Some 50) (Some false)
    (Some false) None failingHandlers.

End IntroSlidesSpec.

(* ===================================================================== *)
(** * IntroSlides: the time line of an undisturbed sequence *)
(* ===================================================================== *)

Module PlayThrough.
Import IntroSlides IntroSlidesSpec.
Local Open Scope list_scope.

(** ** The fallback *)

(** [handleError] has logged its error. *)
Definition isFallbackError (e : event) : bool :=
  match e with
  | ConsoleError s => String.eqb s "IntroSlides error:"
  | _ => false
  end.

Definition errored (lg : list (Z * event)) : bool :=
  existsb (λ te, isFallbackError te.2) lg.

(** A slide as [handleError] leaves it. *)
Definition revealedSlide (sl : slideEl) : Prop :=
  active sl = true ∧ visibility sl = "visible" ∧ opacity sl = "1".

(** Every slide is revealed, or the timer that reveals it is pending. *)
Definition revealing (w : world) : Prop :=
  ∀ k sl, slides (elements w) !! k = Some sl →
          revealedSlide sl ∨ ErrorReveal k ∈ map action (timers (env w)).

(** The component after [handleError]: no loop is alive, the slides are
    revealed or about to be. *)
Definition fallenBack (w : world) : Prop :=
  Forall (λ t, inert (action t) = true ∨ action t = ErrorComplete)
    (timers (env w))
  ∧ revealing w.

(** Slides that were revealed in [w] are revealed in [w']. *)
Definition keepsRevealed (w w' : world) : Prop :=
  ∀ k sl', slides (elements w') !! k = Some sl' →
           ∃ sl, slides (elements w) !! k = Some sl
                 ∧ (revealedSlide sl → revealedSlide sl').

Section TimeLine.

(** The configuration, the handlers and the start time of the sequence. *)
Variables (cfg : config_t) (hs : handlers_t) (st : option Z).

Definition count : Z := Z.of_nat (length (messages cfg)).

(** Delays as the browser takes them. *)
Definition fade : Z := Z.max 0 (transitionDuration cfg).
Definition pace : Z := Z.max 0 (slideDelay cfg).
Definition trail (l : loop) : Z :=
  Z.max 0 (match l with
           | PlaySequence => 400
           | ContinueSequence => slideDelay cfg
           end).

Definition dataOf (index : Z) : object :=
  [("index", VNumber index);
   ("message",
    if index <? 0 then VUndefined
    else match messages cfg !! Z.to_nat index with
         | Some m => VString m
         | None => VUndefined
         end);
   ("slide", VSlide index)].

Definition progressOf (index : Z) : object :=
  [("current", VNumber (index + 1)); ("total", VNumber count);
   ("percentage", VPercent (index + 1) count)].

Definition completionThrows : bool :=
  match onSequenceComplete hs with
  | Some true => true
  | _ => false
  end.

(** What a call of [complete()] at time [t] adds to the log. *)
Definition completion (t : Z) : list (Z * event) :=
  stamped t
    (observed (onSequenceComplete hs)
       (OnSequenceComplete [("duration", VNumber (t - default 0 st));
                            ("slideCount", VNumber count)])
     ++ (if completionThrows then []
         else [Dispatched "introSlidesComplete"
                 [("component", VComponent);
                  ("duration", VNumber (t - default 0 st))]])).

(** What follows a throw at time [t] inside loop [l]: [start()] catches
    what [playSequence] throws and falls back; nobody catches what
    [continueSequence] throws. *)
Definition failure (l : loop) (t : Z) : list (Z * event) :=
  match l with
  | PlaySequence =>
      stamped t [ConsoleError "Error during slide sequence:";
                 ConsoleError "IntroSlides error:"]
      ++ completion (t + Z.max 0 (count * 200 + 1000))
  | ContinueSequence => []
  end.

(** The loop calls [complete()] at time [t]. *)
Definition completing (l : loop) (t : Z) : list (Z * event) :=
  completion t ++ (if completionThrows then failure l t else []).

(** [showSlide(j)] resumes at time [t]; [next] is what follows if no
    handler throws. *)
Definition shownThen (l : loop) (j t : Z) (next : list (Z * event))
    : list (Z * event) :=
  stamped t (observed (onSlideComplete hs) (OnSlideComplete (dataOf j)))
  ++ (if throwsAt (onSlideComplete hs) j then failure l t
      else stamped t (observed (onProgress hs) (OnProgress (progressOf j)))
           ++ (if throwsAt (onProgress hs) j then failure l t else next)).

(** The loop calls [showSlide(j)] at time [t], with [r] more slides
    after it. *)
Fixpoint showing (l : loop) (r : nat) (j t : Z) : list (Z * event) :=
  stamped t (observed (onSlideStart hs) (OnSlideStart (dataOf j)))
  ++ (if throwsAt (onSlideStart hs) j then failure l t
      else shownThen l j (t + fade)
             (match r with
              | O => completing l (t + fade + trail l)
              | S r' => showing l r' (j + 1) (t + fade + pace)
              end)).

(** The loop goes on at time [t] after slide [j] is shown, with [r] more
    slides. *)
Definition afterShown (l : loop) (r : nat) (j t : Z) : list (Z * event) :=
  match r with
  | O => completing l (t + trail l)
  | S r' => showing l r' (j + 1) (t + pace)
  end.

(** The transition of slide [j] ends at time [t]. *)
Definition shown (l : loop) (r : nat) (j t : Z) : list (Z * event) :=
  shownThen l j t (afterShown l r j t).

(** Loop [l] entered at index [i] at time [t] and then left alone. *)
Definition timeline (l : loop) (i t : Z) : list (Z * event) :=
  if count <=? i then completing l (t + trail l)
  else showing l (Z.to_nat (count - 1 - i)) i t.

(** ** The time line when no handler throws *)

Definition slideThrows (j : Z) : bool :=
  throwsAt (onSlideStart hs) j || throwsAt (onSlideComplete hs) j
  || throwsAt (onProgress hs) j.

(** No handler throws, whatever slide it is called for. *)
Definition calm : Prop :=
  (∀ j, slideThrows j = false) ∧ completionThrows = false.

(** Revealing slide [j] from time [t] on, and the [r] slides after it. *)
Fixpoint reveals (r : nat) (j t : Z) : list (Z * event) :=
  stamped t (observed (onSlideStart hs) (OnSlideStart (dataOf j)))
  ++ stamped (t + fade)
       (observed (onSlideComplete hs) (OnSlideComplete (dataOf j))
        ++ observed (onProgress hs) (OnProgress (progressOf j)))
  ++ match r with
     | O => []
     | S r' => reveals r' (j + 1) (t + fade + pace)
     end.

(** When the last of them is shown. *)
Definition revealsEnd (r : nat) (t : Z) : Z :=
  t + (Z.of_nat r + 1) * fade + Z.of_nat r * pace.

(** The slides from index [i] on. *)
Definition revealsFrom (i t : Z) : list (Z * event) :=
  if count <=? i then [] else reveals (Z.to_nat (count - 1 - i)) i t.

Definition revealsEndFrom (i t : Z) : Z :=
  if count <=? i then t else revealsEnd (Z.to_nat (count - 1 - i)) t.

(** ** A bound on the timers still to fire *)

Variable M : nat.   (* the number of slide elements *)

Definition failWeight : nat := M + 3.
Definition trailWeight : nat := 3 + failWeight.

Fixpoint shownWeight (r : nat) : nat :=
  match r with
  | O => 1 + failWeight + trailWeight
  | S r' => 1 + failWeight + (1 + failWeight + 10 + shownWeight r')
  end.

Definition showingWeight (r : nat) : nat := failWeight + 10 + shownWeight r.

(** A bound on the timers that fire because this one is pending. *)
Definition weight (c : callback) : nat :=
  match c with
  | ShowSlideRest j _ (AwaitedBy _ _) => shownWeight (Z.to_nat (count - 1 - j))
  | ShowSlideRest _ _ Dropped => 1
  | LoopAfterDelay _ j => 1 + showingWeight (Z.to_nat (count - 2 - j))
  | LoopBeforeComplete _ => trailWeight
  | HideCallback => 2
  | HideFinish => 1
  | ErrorReveal _ => 1
  | ErrorComplete => 3
  | HeartSpawn _ => 2
  | HeartRemove _ => 1
  end.

Definition weigh (ts : list timer) : nat :=
  sum_list (map (λ t, weight (action t)) ts).

Definition potential (w : world) : nat := weigh (timers (env w)).

(** Fuel for loop [l] entered at index [i]. *)
Definition enterWeight (i : Z) : nat :=
  if count <=? i then trailWeight
  else showingWeight (Z.to_nat (count - 1 - i)).

(** ** The invariant of an undisturbed sequence *)

Variable l : loop.

(** What does not change, and the health of the timer queue. *)
Record settled (w : world) : Prop := mkSettled {
  settled_config : config w = cfg;
  settled_handlers : eventHandlers w = hs;
  settled_slides : length (slides (elements w)) = M;
  settled_startTime : startTime (state w) = st;
  settled_nodup : NoDup (map tid (timers (env w)));
  settled_fresh : Forall (λ t, (tid t < nextTimerId (env w))%nat)
                    (timers (env w));
  settled_due : Forall (λ t, clock (env w) ≤ due t) (timers (env w))
}.

(** The timers that matter to the sequence. *)
Definition keysOf (ts : list timer) : list timer :=
  List.filter (λ t, negb (inert (action t))) ts.

Definition keyValid (w : world) (t : timer) : Prop :=
  match action t with
  | ShowSlideRest j _ (AwaitedBy l' i) =>
      l' = l ∧ i = j ∧ 0 ≤ j < count ∧ playing w = true
  | LoopAfterDelay l' j => l' = l ∧ 0 ≤ j < count - 1 ∧ playing w = true
  | LoopBeforeComplete l' => l' = l ∧ playing w = true
  | ErrorComplete => True
  | _ => False
  end.

(** What the log will gain once the timer has fired. *)
Definition futureOf (t : timer) : list (Z * event) :=
  match action t with
  | ShowSlideRest j _ _ => shown l (Z.to_nat (count - 1 - j)) j (due t)
  | LoopAfterDelay _ j => showing l (Z.to_nat (count - 2 - j)) (j + 1) (due t)
  | LoopBeforeComplete _ => completing l (due t)
  | ErrorComplete => completion (due t)
  | _ => []
  end.

(** The log of [w] is on its way to [full]: at most one pending timer
    matters, and the log with what that timer will bring is [full];
    once [handleError] has run, the component has fallen back. *)
Definition foretold (full : list (Z * event)) (w : world) : Prop :=
  settled w
  ∧ ((keysOf (timers (env w)) = [] ∧ log (env w) = full)
     ∨ ∃ k, keysOf (timers (env w)) = [k] ∧ keyValid w k
            ∧ log (env w) ++ futureOf k = full).

Definition foreseen (full : list (Z * event)) (w : world) : Prop :=
  foretold full w ∧ (errored (log (env w)) = true → fallenBack w).

End TimeLine.

(** ** Where a sequence may begin *)

(** The timer queue is in order and holds only timers that touch the
    page; no fallback has been logged. *)
Definition quiet (w : world) : Prop :=
  NoDup (map tid (timers (env w)))
  ∧ Forall (λ t, inert (action t) = true
                 ∧ (tid t < nextTimerId (env w))%nat
                 ∧ clock (env w) ≤ due t)
      (timers (env w))
  ∧ errored (log (env w)) = false.

(** Timers that fire at most once loop [l] is entered at index [i]. *)
Definition budget (w : world) (i : Z) : nat :=
  potential (config w) (length (slides (elements w))) w
  + enterWeight (config w) (length (slides (elements w))) i.

(** The calls of the sequencing handlers in a play-through of [n]
    slides. *)
Definition slideCalls (i : Z) : list handlerCall :=
  [SlideStart i; SlideComplete i].

Definition playThroughCalls (n : Z) : list handlerCall :=
  flat_map slideCalls (seqZ 0 n) ++ [SequenceComplete].

End PlayThrough.
(* ===================================================================== *)
(** * IntroSlides: more vocabulary *)
(* ===================================================================== *)

Module SequencerLaws.
Import IntroSlides IntroSlidesSpec.
Local Open Scope list_scope.

(** ** The ids of the timers *)

(** The ids the browser has handed out are distinct and below the next
    one, in the queue and in [state.timeouts]; a pending timer whose id is
    in [state.timeouts] is the resolver of a [wait] promise. *)
Definition registered (w : world) : Prop :=
  NoDup (map tid (timers (env w)))
  ∧ Forall (λ t, (tid t < nextTimerId (env w))%nat) (timers (env w))
  ∧ Forall (λ i, (i < nextTimerId (env w))%nat) (timeouts (state w))
  ∧ Forall (λ t, tid t ∈ timeouts (state w) →
                 isWaitResolver (action t) = true)
      (timers (env w)).

(** The timers set with a bare [setTimeout]. *)
Definition bareTimers (ts : list timer) : list timer :=
  List.filter (λ t, negb (isWaitResolver (action t))) ts.

(** ** Silence *)

(** No pending timer is the resolver of a [wait] promise: no coroutine
    of the sequencer is waiting to go on. *)
Definition waitFree (ts : list timer) : Prop :=
  Forall (λ t, isWaitResolver (action t) = false) ts.

(** The calls of the handlers of a slide. *)
Definition isSlideCall (e : event) : bool :=
  match e with
  | OnSlideStart _ | OnSlideComplete _ | OnProgress _ => true
  | _ => false
  end.

Definition slideHandlerCalls (lg : list (Z * event)) : list (Z * event) :=
  List.filter (λ te, isSlideCall te.2) lg.

(** Since the log was [lg0] nothing has gone on: no coroutine waits, no
    slide handler has been called, [currentSlide] is [k] still, and the
    phase is [p] or, through a fallback that was pending, Completed. *)
Definition silentSince (lg0 : list (Z * event)) (k : Z) (p : phase)
    (w : world) : Prop :=
  waitFree (timers (env w))
  ∧ currentSlide (state w) = k
  ∧ (phaseOf w = p ∨ phaseOf w = Completed)
  ∧ ∃ new, log (env w) = lg0 ++ new ∧ slideHandlerCalls new = [].

(** ** On the way to completion *)

(** A timer that resumes the loop of [playSequence()]. *)
Definition resumesPlay (c : callback) : bool :=
  match c with
  | ShowSlideRest _ _ (AwaitedBy PlaySequence _)
  | LoopAfterDelay PlaySequence _ | LoopBeforeComplete PlaySequence => true
  | _ => false
  end.

(** The sequence is completed or will be: the fallback is about to
    complete it, or the sequencer is playing and the loop of
    [playSequence()] is waiting to go on. *)
Definition completing (w : world) : Prop :=
  isCompleted (state w) = true
  ∨ (∃ t, t ∈ timers (env w) ∧ action t = ErrorComplete)
  ∨ (playing w = true
     ∧ ∃ t, t ∈ timers (env w) ∧ resumesPlay (action t) = true).

(** ** What a slide looks like *)

(** The classes and styles of a slide that decide whether it is on
    screen: [active], [exiting], [visibility], [opacity]. *)
Definition look (sl : slideEl) : bool * bool * string * string :=
  (active sl, exiting sl, visibility sl, opacity sl).

(** A slide as [resetSlides()] leaves it, and the slide being shown. *)
Definition hiddenLook : bool * bool * string * string :=
  (false, false, "hidden", "0").
Definition shownLook : bool * bool * string * string :=
  (true, false, "visible", "0").


End SequencerLaws.

(* ===================================================================== *)
(** * LetterDisplay: the typing speed on a narrow window *)
(* ===================================================================== *)

Module LetterSpeed.
Import Stdlib.QArith.QArith_base Stdlib.QArith.Qcanon.

(** A speed is a JavaScript number; finite numbers are rationals here
    (halving a double is exact, or falls under the floor of 20). *)
Definition half : Qc := Q2Qc (1#2).

(** [Math.max(a, b)]. *)
Definition max (a b : Qc) : Qc := if decide (a ≤ b)%Qc then b else a.

(** [adjustForScreenSize()], with [window.innerWidth]: the new
    [config.typewriterSpeed]. *)
Definition adjustForScreenSize (innerWidth : Z) (enableTypewriter : bool)
    (typewriterSpeed : Qc) : Qc :=
  let isMobile := bool_decide (innerWidth < 768)%Z in
  if isMobile && enableTypewriter
  then max (Qc_of_Z 20) (typewriterSpeed * half)%Qc
  else typewriterSpeed.

(** The speed after the listener of [resize] has run
    [adjustForScreenSize()] once per event, with the widths the window
    had at the events. *)
Definition resized (widths : list Z) (enableTypewriter : bool)
    (typewriterSpeed : Qc) : Qc :=
  foldl (λ speed innerWidth,
           adjustForScreenSize innerWidth enableTypewriter speed)
    typewriterSpeed widths.

(** The number of calls made on a narrow window. *)
Definition narrowCalls (widths : list Z) : nat :=
  length (List.filter (λ innerWidth, bool_decide (innerWidth < 768)%Z) widths).

End LetterSpeed.

(* ===================================================================== *)
(** * ValentineApp: the customization panel *)
(* ===================================================================== *)

Module Customization.
Local Open Scope list_scope.

(** ** Strings of the panel *)

(** The text a visitor types is any string: a sequence of UTF-16 code
    units. *)
Definition str := list N.

(** A literal of the code, all ASCII. *)
Definition units (s : string) : str :=
  map N_of_ascii (list_ascii_of_string s).

(** White space and line terminators, as [String.prototype.trim] strips
    them: TAB, LF, VT, FF, CR, SP, NBSP, U+1680, U+2000 to U+200A, LS,
    PS, U+202F, U+205F, U+3000 and U+FEFF. *)
Definition isWhiteSpace (c : N) : bool :=
  existsb (N.eqb c)
    [9; 10; 11; 12; 13; 32; 160; 5760; 8232; 8233; 8239; 8287; 12288;
     65279]%N
  || ((8192 <=? c)%N && (c <=? 8202)%N).

Fixpoint trimStart (s : str) : str :=
  match s with
  | [] => []
  | c :: rest => if isWhiteSpace c then trimStart rest else s
  end.

Fixpoint trimEnd (s : str) : str :=
  match s with
  | [] => []
  | c :: rest =>
      match trimEnd rest with
      | [] => if isWhiteSpace c then [] else [c]
      | r => c :: r
      end
  end.

(** [s.trim()]. *)
Definition trim (s : str) : str := trimEnd (trimStart s).

(** A string is truthy when it is not empty. *)
Definition truthy (s : str) : bool :=
  match s with [] => false | _ => true end.

(** [s || d] for strings. *)
Definition orElse (s d : str) : str := if truthy s then s else d.

(** [s.split('\n\n')]: the pieces between the occurrences of the
    separator, found from the left, never overlapping. *)
Fixpoint splitBlank (s : str) : list str :=
  match s with
  | [] => [[]]
  | c :: rest =>
      match rest with
      | d :: rest' =>
          if (c =? 10)%N && (d =? 10)%N then [] :: splitBlank rest'
          else match splitBlank rest with
               | p :: ps => (c :: p) :: ps
               | [] => [[c]]
               end
      | [] => [[c]]
      end
  end.

(** [ps.join('\n\n')]. *)
Fixpoint joinBlank (ps : list str) : str :=
  match ps with
  | [] => []
  | [p] => p
  | p :: rest => p ++ 10%N :: 10%N :: joinBlank rest
  end.

(** ** Panel and settings *)

(** The values of the elements of the panel; the textarea and the
    signature input may be missing from the page. *)
Record panel := mkPanel {
  messageInputs : list str;
  letterContentInput : option str;
  signatureInput : option str
}.

(** [settings.letterText] is an array once the panel has saved it; what
    [JSON.parse] finds in the storage may be a string. *)
Inductive letterValue :=
| Text (s : str)
| Paragraphs (ps : list str).

(** The keys of [state.userSettings] and of the object that
    [gatherCustomizations()] builds, each present or not: the three the
    panel reads back, and the time of the last save. *)
Record settings := mkSettings {
  messages : option (list str);
  letterText : option letterValue;
  signature : option str;
  lastModified : option str
}.

(** [this.defaultContent]. *)
Record content := mkContent {
  defaultMessages : list str;
  defaultLetterText : list str;
  defaultSignature : str
}.

(** The letter of [gatherCustomizations()]:
    [value.split('\n\n').filter(p => p.trim()).map(p => p.trim())]. *)
Definition gatherLetter (value : str) : list str :=
  map trim (List.filter (λ p, truthy (trim p)) (splitBlank value)).

(** [gatherCustomizations()]. *)
Definition gatherCustomizations (pn : panel) : settings :=
  mkSettings
    (Some (map (λ value, orElse (trim value) (units "Hi"))
             (messageInputs pn)))
    (match letterContentInput pn with
     | Some value => Some (Paragraphs (gatherLetter value))
     | None => None
     end)
    (match signatureInput pn with
     | Some value => Some (orElse (trim value) (units "Your Valentine"))
     | None => None
     end)
    None.

(** [{ ...a, ...b }]: the keys of [b], and those of [a] that [b] has
    not. *)
Definition spread (a b : settings) : settings :=
  mkSettings
    (match messages b with Some v => Some v | None => messages a end)
    (match letterText b with Some v => Some v | None => letterText a end)
    (match signature b with Some v => Some v | None => signature a end)
    (match lastModified b with Some v => Some v | None => lastModified a end).

(** [saveCustomizations()]: the new [state.userSettings],
    [{ ...userSettings, ...customizations, lastModified }], where [now]
    is [new Date().toISOString()]; spreading [null] adds no key. *)
Definition saveCustomizations (now : str) (userSettings : option settings)
    (pn : panel) : settings :=
  let customizations := gatherCustomizations pn in
  spread
    (spread (default (mkSettings None None None None) userSettings)
       customizations)
    (mkSettings None None None (Some now)).

(** [settings.messages?.[index] || this.defaultContent.messages[index]],
    then [message || '']. *)
Definition messageFor (st : settings) (defaultContent : content)
    (index : nat) : str :=
  let message :=
    match messages st ≫= (λ ms, ms !! index) with
    | Some (c :: m) => Some (c :: m)
    | _ => defaultMessages defaultContent !! index
    end in
  match message with
  | Some (c :: m) => c :: m
  | _ => []
  end.

(** The value written into the textarea. *)
Definition letterFor (st : settings) (defaultContent : content) : str :=
  let letterText :=
    match letterText st with
    | Some (Paragraphs ps) => Paragraphs ps
    | Some (Text (c :: s)) => Text (c :: s)
    | _ => Text (joinBlank (defaultLetterText defaultContent))
    end in
  match letterText with
  | Paragraphs ps => joinBlank ps
  | Text s => s
  end.

(** [populateCustomizationPanel()], with [userSettings || {}].  An
    element shows the value last written to it (the values come from
    the page or from the literals of the code: none holds a carriage
    return, which a textarea would turn into a line feed). *)
Definition populateCustomizationPanel (userSettings : option settings)
    (defaultContent : content) (pn : panel) : panel :=
  let st := default (mkSettings None None None None) userSettings in
  mkPanel
    (imap (λ index _, messageFor st defaultContent index) (messageInputs pn))
    (match letterContentInput pn with
     | Some _ => Some (letterFor st defaultContent)
     | None => None
     end)
    (match signatureInput pn with
     | Some _ =>
         Some (match signature st with
               | Some (c :: s) => c :: s
               | _ => defaultSignature defaultContent
               end)
     | None => None
     end).

(** ** Vocabulary *)

(** No blank line (two line feeds in a row) inside. *)
Fixpoint blankFree (s : str) : bool :=
  match s with
  | c :: rest =>
      match rest with
      | d :: _ => negb ((c =? 10)%N && (d =? 10)%N) && blankFree rest
      | [] => true
      end
  | [] => true
  end.

(** No white space at either end. *)
Definition trimmed (s : str) : Prop :=
  match head s with Some c => isWhiteSpace c = false | None => True end
  ∧ match last s with Some c => isWhiteSpace c = false | None => True end.

(** A paragraph fit for the letter: not empty, no white space at either
    end, no blank line inside. *)
Definition clean (p : str) : Prop :=
  p ≠ [] ∧ trimmed p ∧ blankFree p = true.

(** A panel as a visitor may leave it. *)
Definition demoPanel : panel :=
  mkPanel [units "  Hello "; units "   "; units "you"]
    (Some (units " Dear,
 

I am here.  


   

Bye"))
    (Some (units "  ")).

End Customization.
(* ===================================================================== *)
(** * Properties of the typewriter *)
(* ===================================================================== *)

Module LetterDisplayProofs.
Import LetterDisplay.

(** ** [split] and [join] *)

Lemma split_nonempty sep s : split sep s ≠ [].
Proof.
  destruct s as [|c rest]; simpl; [done|].
  destruct (Ascii.eqb c sep); [done|].
  by destruct (split sep rest).
Qed.

Lemma join_cons_cons sep w v ws :
  join sep (w :: v :: ws) = w +:+ String sep (join sep (v :: ws)).
Proof. reflexivity. Qed.

Lemma join_push sep c w ws :
  join sep (String c w :: ws) = String c (join sep (w :: ws)).
Proof. destruct ws; reflexivity. Qed.

(** Joining the pieces with the separator gives the string back. *)
Lemma join_split sep s : join sep (split sep s) = s.
Proof.
  induction s as [|c rest IH]; simpl; [reflexivity|].
  destruct (Ascii.eqb_spec c sep) as [->|Hne].
  - pose proof (split_nonempty sep rest) as Hn.
    destruct (split sep rest) as [|v ws]; [done|].
    rewrite join_cons_cons. simpl. by rewrite IH.
  - pose proof (split_nonempty sep rest) as Hn.
    destruct (split sep rest) as [|v ws]; [done|].
    rewrite join_push. by rewrite IH.
Qed.

(** ** The text on screen *)

Lemma textContent_setTextContent t p : textContent (setTextContent t p) = t.
Proof. by destruct t. Qed.

(** While the cursor span is the only child, the paragraph shows what
    was last written into it. *)
Lemma textContent_setFirstChildText t c a old vis op tf tr an cl :
  textContent (setFirstChildText t
                 (mkParagraph [Span c a old] vis op tf tr an cl)) = t.
Proof. reflexivity. Qed.

Lemma cursorOnly_setFirstChildText t p :
  cursorOnly p → cursorOnly (setFirstChildText t p)
               ∧ textContent (setFirstChildText t p) = t.
Proof.
  intros (c & a & old & Hp). destruct p as [ns ? ? ? ? ? ?]; simpl in *.
  subst ns. split; [by exists c, a, t | reflexivity].
Qed.

(** Each frame of the loop shows the words so far followed by a space,
    and sleeps for the delay of its word. *)
Lemma typeWords_frames active speed words n i p :
  cursorOnly p →
  Forall2 (λ f j, shown f = join space (take (S j) words) +:+ " "
                  ∧ sleep f = wordDelay speed (default "" (words !! j)))
    (snd (typeWords active speed words n i p))
    (seq i (length (snd (typeWords active speed words n i p)))).
Proof.
  revert i p. induction n as [|n IH]; intros i p Hp; simpl; [constructor|].
  destruct (active i); simpl; [|constructor].
  destruct (cursorOnly_setFirstChildText
              (join space (take (S i) words) +:+ " ") p Hp) as [Hp1 Ht].
  specialize (IH (S i) _ Hp1).
  destruct (typeWords active speed words n (S i) _) as [p2 fs] eqn:E.
  simpl in *. constructor; [|exact IH].
  split; [exact Ht | reflexivity].
Qed.


Lemma typeWords_all active speed words n i p :
  (∀ j, active j = true) →
  length (snd (typeWords active speed words n i p)) = n.
Proof.
  intros Hall. revert i p. induction n as [|n IH]; intros i p; simpl; [done|].
  rewrite Hall. simpl.
  specialize (IH (S i) (setFirstChildText
     (join space (take (S i) words) +:+ " ") p)).
  destruct (typeWords active speed words n (S i) _) as [p2 fs]. simpl in *.
  by rewrite IH.
Qed.

Lemma animateParagraph_frames active speed p :
  snd (animateParagraph active speed p)
  = snd (typeWords active speed (split space (textContent p))
           (length (split space (textContent p))) 0
           (mkParagraph [Span cursorClass "blink 1s infinite" "|"]
              "visible" "1" "translateY(0)"
              "opacity 0.3s ease, transform 0.3s ease" (animation p)
              (classList p))).
Proof.
  unfold animateParagraph. simpl.
  match goal with |- context [typeWords ?a ?s ?ws ?n ?i ?q] =>
    destruct (typeWords a s ws n i q) as [p4 fs] eqn:E end.
  simpl. unfold setTextContent, setChildNodes in E. simpl in E.
  by rewrite E.
Qed.

(** C7.  Whatever the moments at which the typewriter flag is cleared
    (never, or before any word), when [animateParagraph] returns the
    paragraph shows exactly the text it showed when the call began. *)
Theorem reveal_round_trip (active : nat → bool) (typewriterSpeed : Z)
    (p : paragraph) :
  textContent (fst (animateParagraph active typewriterSpeed p))
  = textContent p.
Proof.
  unfold animateParagraph.
  match goal with |- context [typeWords ?a ?s ?ws ?n ?i ?q] =>
    destruct (typeWords a s ws n i q) as [p4 fs] end.
  cbn [fst]. unfold textContent at 1. cbn [childNodes].
  change (String.concat "" (map nodeText (childNodes
            (setTextContent (textContent p) (removeCursor p4)))))
    with (textContent (setTextContent (textContent p) (removeCursor p4))).
  apply textContent_setTextContent.
Qed.

(** The incremental assembly does not drift either: in a reveal that is
    not aborted the last frame shows the whole text (and the space the
    loop appends). *)
Lemma reveal_last_frame (typewriterSpeed : Z) (p : paragraph) :
  shown <$> last (snd (animateParagraph (λ _, true) typewriterSpeed p))
  = Some (textContent p +:+ " ").
Proof.
  rewrite animateParagraph_frames.
  set (words := split space (textContent p)).
  set (q := mkParagraph _ _ _ _ _ _ _).
  assert (Hq : cursorOnly q) by (by eexists _, _, _).
  pose proof (typeWords_frames (λ _, true) typewriterSpeed words
                (length words) 0 q Hq) as HF.
  pose proof (typeWords_all (λ _, true) typewriterSpeed words
                (length words) 0 q (λ _, eq_refl)) as HL.
  rewrite HL in HF.
  assert (Hn : length words ≠ 0%nat).
  { pose proof (split_nonempty space (textContent p)). subst words.
    destruct (split space (textContent p)); simpl; [done|lia]. }
  destruct (length words) as [|k] eqn:Ek; [done|].
  rewrite last_lookup, HL. cbn [pred].
  destruct (Forall2_lookup_r _ _ _ k k HF) as (f & Hf & Hshown & _).
  { apply lookup_seq. lia. }
  rewrite Hf. cbn [fmap option_fmap option_map]. f_equal. rewrite Hshown.
  rewrite firstn_all2 by lia.
  subst words. by rewrite join_split.
Qed.

(** ** The delay of a word *)

Lemma includes_lastUnit c word :
  lastUnit word = Some c → includes c word = true.
Proof.
  induction word as [|d rest IH]; simpl; [done|].
  destruct rest as [|e rest'].
  - intros [= ->]. by rewrite Ascii.eqb_refl.
  - intros H. rewrite (IH H). apply orb_true_r.
Qed.

(** A word that ends with a mark contains it: such words do get the
    triple delay. *)
Lemma endsWithTerminal_hasPunctuation word :
  endsWithTerminal word = true → hasPunctuation word = true.
Proof.
  unfold endsWithTerminal, hasPunctuation.
  destruct (lastUnit word) as [c|] eqn:E; [|done].
  apply includes_lastUnit in E. intros H.
  destruct (Ascii.eqb_spec c dot) as [->|_]; [by rewrite E|].
  destruct (Ascii.eqb_spec c bang) as [->|_];
    [rewrite E; by rewrite orb_true_r|].
  destruct (Ascii.eqb_spec c question) as [->|_]; [|done].
  rewrite E. by rewrite !orb_true_r.
Qed.



End LetterDisplayProofs.

(* ===================================================================== *)
(** * Properties of the slide sequencer *)
(* ===================================================================== *)

Module IntroSlidesProofs.
Import IntroSlides IntroSlidesSpec.
Local Open Scope list_scope.

(** ** Growth *)

Ltac grows_primitive :=
  split; try reflexivity; simpl; rewrite ?app_nil_r; try done; try lia;
  try (constructor; [simpl; lia | constructor]).

Lemma grows_refl w : grows w w [] [] [].
Proof.
  grows_primitive.
Qed.

Lemma grows_trans w1 w2 w3 n1 n2 i1 i2 e1 e2 :
  grows w1 w2 n1 i1 e1 → grows w2 w3 n2 i2 e2 →
  grows w1 w3 (n1 ++ n2) (i1 ++ i2) (e1 ++ e2).
Proof.
  intros [] []. split; try congruence.
  - rewrite app_assoc. congruence.
  - etrans; eassumption.
  - rewrite app_assoc. congruence.
  - rewrite length_app. lia.
  - rewrite map_app, length_app, seq_app. congruence.
  - apply Forall_app. split; [done|]. by rewrite <- grows_clock0.
  - unfold stamped in *. rewrite map_app, app_assoc. congruence.
Qed.

Lemma grows_emit e w : grows w (emit e w) [] [] [e].
Proof.
  grows_primitive.
Qed.

Lemma grows_setTimeout c d w :
  grows w (setTimeout c d w).2
    [mkTimer (nextTimerId (env w)) (clock (env w) + Z.max 0 d) c] [] [].
Proof.
  grows_primitive.
Qed.

Lemma grows_wait d c w :
  grows w (wait d c w)
    [mkTimer (nextTimerId (env w)) (clock (env w) + Z.max 0 d) c]
    [nextTimerId (env w)] [].
Proof.
  grows_primitive.
Qed.

Lemma grows_random w : grows w (random w).2 [] [] [].
Proof.
  grows_primitive.
Qed.

Lemma grows_updateProgressBar p w : grows w (updateProgressBar p w) [] [] [].
Proof.
  grows_primitive.
Qed.

Lemma grows_onSlide i f w : grows w (onSlide i f w) [] [] [].
Proof.
  unfold onSlide. destruct (i <? 0); [apply grows_refl|].
  grows_primitive. apply length_alter.
Qed.

Lemma grows_onSection f w : grows w (onSection f w) [] [] [].
Proof.
  grows_primitive. apply fmap_is_Some.
Qed.

Lemma grows_announceSlide m w : grows w (announceSlide m w) [] [] [].
Proof.
  grows_primitive.
Qed.

Lemma grows_setCurrentSlide v w :
  grows w (withState (setCurrentSlide v) w) [] [] [].
Proof.
  grows_primitive.
Qed.

Lemma grows_scheduleHearts n j w :
  ∃ hs, grows w (scheduleHearts n j w) hs [] []
        ∧ length hs = n ∧ Forall (λ t, action t = HeartSpawn j) hs.
Proof.
  revert w. induction n as [|n IH]; intros w; simpl.
  - exists []. split; [apply grows_refl | by split].
  - match goal with |- context [scheduleHearts n j ?w1] =>
      destruct (IH w1) as (hs & Hg & Hlen & Hact); set (w2 := w1) in * end.
    eexists (_ :: hs). split; [|split].
    + pose proof (grows_trans _ _ _ _ _ _ _ _ _
                    (grows_trans _ _ _ _ _ _ _ _ _ (grows_random w)
                       (grows_setTimeout (HeartSpawn j)
                          (random w).1 (random w).2)) Hg) as H.
      simpl in H. exact H.
    + simpl. by rewrite Hlen.
    + constructor; [reflexivity | exact Hact].
Qed.

Lemma grows_scheduleHearts_state n j w :
  state (scheduleHearts n j w) = state w.
Proof.
  revert w. induction n as [|n IH]; intros w; simpl; [done|].
  by rewrite IH.
Qed.

Lemma grows_addHeartEffect j w :
  ∃ hs, grows w (addHeartEffect j w) hs [] []
        ∧ (length hs ≤ 5)%nat ∧ Forall (λ t, action t = HeartSpawn j) hs.
Proof.
  unfold addHeartEffect. destruct (accessibilityMode (config w)).
  - exists []. split; [apply grows_refl|]. split; [simpl; lia | constructor].
  - cbv zeta.
    match goal with |- context [onSlide j ?f w] => set (w1 := onSlide j f w) end.
    rewrite (surjective_pairing (random w1)). cbv iota beta.
    set (r := (random w1).1). set (w2 := (random w1).2).
    destruct (grows_scheduleHearts (heartIterations r) j w2)
      as (hs & Hg & Hlen & Hact).
    exists hs. split; [|split; [|exact Hact]].
    + exact (grows_trans _ _ _ _ _ _ _ _ _
               (grows_trans _ _ _ _ _ _ _ _ _ (grows_onSlide j _ w)
                  (grows_random w1)) Hg).
    + rewrite Hlen. unfold heartIterations.
      assert (0 ≤ r < 1000).
      { subst r. simpl.
        pose proof (Nat.mod_upper_bound
          (randomSource (env w1) (randomUsed (env w1))) 1000). lia. }
      assert ((3 * r + 2000 + 999) / 1000 < 6)
        by (apply Z.div_lt_upper_bound; lia).
      lia.
Qed.

Lemma grows_invoke h e j w :
  grows w (worldOf (invoke h e j w)) [] [] (observed h e)
  ∧ invoke h e j w
    = (if throwsAt h j then Rejected else Finished) (worldOf (invoke h e j w)).
Proof.
  unfold invoke, throwsAt. destruct h as [f|]; simpl.
  - destruct (f j); simpl; split; try reflexivity; apply grows_emit.
  - split; [apply grows_refl | reflexivity].
Qed.

(** Chaining growth steps, with the lists normalised. *)
Lemma grows_step w1 w2 w3 n1 n2 n i1 i2 i e1 e2 e :
  grows w1 w2 n1 i1 e1 → grows w2 w3 n2 i2 e2 →
  n = n1 ++ n2 → i = i1 ++ i2 → e = e1 ++ e2 →
  grows w1 w3 n i e.
Proof. intros H1 H2 -> -> ->. by eapply grows_trans. Qed.

Lemma grows_currentSlide_preserved_by_timers d c w :
  currentSlide (state (wait d c w)) = currentSlide (state w).
Proof. reflexivity. Qed.

Ltac grows_chain H1 H2 :=
  eapply grows_step;
  [H1 | H2 | simpl; rewrite ?app_nil_r; try reflexivity ..].
Lemma grows_eq w w' n n' i i' e e' :
  grows w w' n i e → n = n' → i = i' → e = e' → grows w w' n' i' e'.
Proof. by intros H <- <- <-. Qed.

(** [showSlide], case by case. *)
Lemma showSlide_cases j a w :
  match showSlide j a w with
  | Finished w' => w' = w ∧ ((j <? 0) || (slideCount w <=? j)) = true
  | Rejected w' =>
      0 ≤ j < slideCount w
      ∧ throwsAt (onSlideStart (eventHandlers w)) j = true
      ∧ grows w w' [] [] [OnSlideStart (slideData j w)]
      ∧ currentSlide (state w') = j
  | Suspended w' =>
      0 ≤ j < slideCount w
      ∧ throwsAt (onSlideStart (eventHandlers w)) j = false
      ∧ currentSlide (state w') = j
      ∧ ∃ hs,
          grows w w'
            (hs ++ [mkTimer (nextTimerId (env w) + length hs)
                      (clock (env w) + Z.max 0 (transitionDuration (config w)))
                      (ShowSlideRest j (currentSlide (state w)) a)])
            [(nextTimerId (env w) + length hs)%nat]
            (observed (onSlideStart (eventHandlers w))
               (OnSlideStart (slideData j w)))
          ∧ (length hs ≤ 5)%nat
          ∧ Forall (λ t, action t = HeartSpawn j) hs
  end.
Proof.
  unfold showSlide.
  destruct ((j <? 0) || (slideCount w <=? j)) eqn:Hr; [done|].
  assert (Hj : 0 ≤ j < slideCount w).
  { apply orb_false_iff in Hr as [H1 H2].
    apply Z.ltb_ge in H1. apply Z.leb_gt in H2. lia. }
  cbv zeta.
  set (w1 := withState (setCurrentSlide j) w).
  set (w2 := updateProgressBar _ w1).
  assert (G2 : grows w w2 [] [] []).
  { grows_chain ltac:(apply grows_setCurrentSlide)
      ltac:(apply grows_updateProgressBar). }
  change (eventHandlers w2) with (eventHandlers w).
  change (slideData j w2) with (slideData j w).
  destruct (grows_invoke (onSlideStart (eventHandlers w))
              (OnSlideStart (slideData j w)) j w2) as [G3 E3].
  rewrite E3.
  assert (C3 : currentSlide (state (worldOf
            (invoke (onSlideStart (eventHandlers w))
               (OnSlideStart (slideData j w)) j w2))) = j).
  { unfold invoke. destruct (onSlideStart _) as [f|]; [destruct (f j)|];
      reflexivity. }
  set (w3 := worldOf _) in *.
  destruct (throwsAt (onSlideStart (eventHandlers w)) j) eqn:Ht; simpl.
  - split; [lia|]. split; [done|]. split; [|exact C3].
    eapply grows_step; [exact G2 | exact G3 | try done..].
    unfold throwsAt in Ht. by destruct (onSlideStart (eventHandlers w)).
  - set (w4 := onSlide (currentSlide (state w)) _ w3).
    set (w5 := onSlide j _ w4).
    assert (G5 : grows w w5 [] [] (observed (onSlideStart (eventHandlers w))
                                     (OnSlideStart (slideData j w)))).
    { grows_chain ltac:(exact G2) idtac.
      grows_chain ltac:(exact G3) idtac.
      grows_chain ltac:(apply grows_onSlide) ltac:(apply grows_onSlide). }
    assert (C5 : currentSlide (state w5) = j).
    { subst w5 w4. unfold onSlide.
      destruct (j <? 0), (currentSlide (state w) <? 0); exact C3. }
    assert (∃ hs w6,
      (if enableHeartEffects (config w5) then addHeartEffect j w5 else w5) = w6
      ∧ grows w5 w6 hs [] [] ∧ (length hs ≤ 5)%nat
      ∧ Forall (λ t, action t = HeartSpawn j) hs
      ∧ currentSlide (state w6) = j) as (hs & w6 & -> & G6 & Hlen & Hact & C6).
    { destruct (enableHeartEffects (config w5)).
      - destruct (grows_addHeartEffect j w5) as (hs & G & Hl & Ha).
        exists hs, (addHeartEffect j w5).
        split; [reflexivity|]. split; [exact G|]. split; [exact Hl|].
        split; [exact Ha|].
        rewrite <- C5 at 2. unfold addHeartEffect.
        destruct (accessibilityMode (config w5)); [done|].
        cbv zeta. rewrite (surjective_pairing (random _)). cbv iota beta.
        rewrite grows_scheduleHearts_state.
        simpl. unfold onSlide. by destruct (j <? 0).
      - exists [], w5.
        split; [reflexivity|]. split; [apply grows_refl|].
        split; [simpl; lia|]. split; [constructor | exact C5]. }
    set (w7 := announceSlide _ w6).
    split; [lia|]. split; [done|]. split; [exact C6|].
    exists hs. split; [|done].
    pose proof (grows_next _ _ _ _ _ G5) as N5.
    pose proof (grows_next _ _ _ _ _ G6) as N6.
    pose proof (grows_clock _ _ _ _ _ G5) as K5.
    pose proof (grows_clock _ _ _ _ _ G6) as K6.
    pose proof (grows_config _ _ _ _ _ G5) as F5.
    pose proof (grows_config _ _ _ _ _ G6) as F6.
    eapply grows_eq.
    + eapply grows_trans; [exact G5|].
      eapply grows_trans; [exact G6|].
      eapply grows_trans; [apply grows_announceSlide | apply grows_wait].
    + simpl in *. rewrite N6, N5, K6, K5, F6, F5, Nat.add_0_r. reflexivity.
    + simpl in *. rewrite N6, N5, Nat.add_0_r. reflexivity.
    + by rewrite !app_nil_r.
Qed.


(** ** The two loops are one loop *)

Lemma playSequence_loop_loopIter n i w :
  playSequence_loop n i w = loopIter PlaySequence n i w.
Proof.
  revert i w. induction n as [|n IH]; intros i w; [reflexivity|].
  simpl. destruct (negb (isPlaying (state w)) || isPaused (state w));
    [reflexivity|].
  destruct (showSlide i (AwaitedBy PlaySequence i) w); try reflexivity.
  destruct (i <? messageCount w0 - 1); [reflexivity | apply IH].
Qed.

Lemma continueSequence_loop_loopIter n i w :
  continueSequence_loop n i w = loopIter ContinueSequence n i w.
Proof.
  revert i w. induction n as [|n IH]; intros i w; [reflexivity|].
  simpl. destruct (negb (isPlaying (state w)) || isPaused (state w));
    [reflexivity|].
  destruct (showSlide i (AwaitedBy ContinueSequence i) w); try reflexivity.
  destruct (i <? messageCount w0 - 1); [reflexivity | apply IH].
Qed.

Lemma playSequence_from_loopFrom i w :
  playSequence_from i w = loopFrom PlaySequence i w.
Proof. apply playSequence_loop_loopIter. Qed.

Lemma continueSequence_from_loopFrom i w :
  continueSequence_from i w = loopFrom ContinueSequence i w.
Proof. apply continueSequence_loop_loopIter. Qed.

Lemma afterDelay_loopFrom l i w : afterDelay l i w = loopFrom l (i + 1) w.
Proof.
  destruct l; [apply playSequence_from_loopFrom
              | apply continueSequence_from_loopFrom].
Qed.

Lemma afterShow_loopFrom l i w :
  afterShow l i w
  = if i <? messageCount w - 1
    then Suspended (wait (slideDelay (config w)) (LoopAfterDelay l i) w)
    else loopFrom l (i + 1) w.
Proof.
  unfold afterShow. destruct (i <? messageCount w - 1); [reflexivity|].
  destruct l; [apply playSequence_from_loopFrom
              | apply continueSequence_from_loopFrom].
Qed.

(** [showSlide] returns at once only where it finds no slide, and then
    it has done nothing. *)
Lemma showSlide_Finished i a w w1 :
  showSlide i a w = Finished w1 →
  w1 = w ∧ ((i <? 0) || (slideCount w <=? i)) = true.
Proof.
  unfold showSlide. destruct ((i <? 0) || (slideCount w <=? i)).
  - by intros [= ->].
  - cbv zeta. unfold invoke.
    destruct (onSlideStart _) as [f|]; [destruct (f i)|]; simpl; discriminate.
Qed.

(** The loop, without recursion: the test, the [break], one slide, and
    what follows the slide. *)
Lemma loopFrom_unfold l i w :
  loopFrom l i w
  = if (messageCount w <=? i) || negb (isPlaying (state w))
       || isPaused (state w)
    then loopEnd l w
    else match showSlide i (AwaitedBy l i) w with
         | Finished w1 =>
             if i <? messageCount w1 - 1
             then Suspended (wait (slideDelay (config w1))
                               (LoopAfterDelay l i) w1)
             else loopEnd l w1
         | r => r
         end.
Proof.
  unfold loopFrom.
  destruct (Z.leb_spec (messageCount w) i) as [Hle|Hlt]; simpl.
  - replace (Z.to_nat (messageCount w - i)) with 0%nat by lia. reflexivity.
  - destruct (Z.to_nat (messageCount w - i)) as [|n] eqn:En; [lia|].
    simpl. destruct (negb (isPlaying (state w)) || isPaused (state w)) eqn:Eb;
      [reflexivity|].
    destruct (showSlide i (AwaitedBy l i) w) as [w1|w1|w1] eqn:Es;
      try reflexivity.
    apply showSlide_Finished in Es as [-> _].
    destruct (Z.ltb_spec i (messageCount w - 1)); [reflexivity|].
    replace n with 0%nat by lia. reflexivity.
Qed.

(** ** [complete()] *)

Lemma complete_flags w :
  let s := state (worldOf (complete w)) in
  isPlaying s = false ∧ isPaused s = false ∧ isCompleted s = true.
Proof.
  unfold complete. simpl.
  destruct (onSequenceComplete (eventHandlers w)) as [[|]|]; simpl; done.
Qed.

Lemma complete_log w :
  log (env (worldOf (complete w)))
  = log (env w)
    ++ match onSequenceComplete (eventHandlers w) with
       | Some throws =>
           (clock (env w),
            OnSequenceComplete [("duration", VNumber (elapsed w));
                                ("slideCount", VNumber (messageCount w))])
           :: (if throws then []
               else [(clock (env w),
                      Dispatched "introSlidesComplete"
                        [("component", VComponent);
                         ("duration", VNumber (elapsed w))])])
       | None => [(clock (env w),
                   Dispatched "introSlidesComplete"
                     [("component", VComponent);
                      ("duration", VNumber (elapsed w))])]
       end.
Proof.
  unfold complete. simpl.
  destruct (onSequenceComplete (eventHandlers w)) as [[|]|]; simpl;
    try reflexivity.
  by rewrite <- app_assoc.
Qed.

Lemma complete_listening w :
  listening (worldOf (complete w)) = listening w.
Proof.
  unfold complete. simpl.
  by destruct (onSequenceComplete (eventHandlers w)) as [[|]|].
Qed.

Lemma onKeyDown_escape w :
  onKeyDown "Escape" w
  = if isPlaying (state w) then worldOf (complete (clearTimeouts w)) else w.
Proof. reflexivity. Qed.

(** C2, as stated, fails: [complete()] on a completed sequencer is not a
    no-op, and two calls of [complete()], or of [skip()], fire the
    callback and the broadcast twice. *)
Lemma complete_twice_fires_twice :
  let w0 := construct demoOptions demoPage in
  let w1 := step CallComplete w0 in
  isCompleted (state w1) = true
  ∧ step CallComplete w1 ≠ w1
  ∧ length (sequenceCompletions (log (env (steps [CallComplete; CallComplete] w0)))) = 2%nat
  ∧ length (broadcasts (log (env (steps [CallComplete; CallComplete] w0)))) = 2%nat
  ∧ length (sequenceCompletions (log (env (steps [CallSkip; CallSkip] w0)))) = 2%nat
  ∧ length (broadcasts (log (env (steps [CallSkip; CallSkip] w0)))) = 2%nat.
Proof.
  cbv zeta. split; [reflexivity|]. split; [|by vm_compute].
  intros H. apply (f_equal (λ w, length (log (env w)))) in H.
  vm_compute in H. discriminate.
Qed.

(** C2, amended.  [complete()] has no guard: every call leaves the flags
    of the Completed state and fires the callback (if one is set) and,
    unless the callback threw, the broadcast once more.  The guard is in
    the [keydown] listener, which calls [skip()] only while playing:
    there a second Escape is a no-op. *)
Theorem complete_every_call_fires (w : world) :
  let w1 := worldOf (complete w) in
  (isPlaying (state w1) = false ∧ isPaused (state w1) = false
   ∧ isCompleted (state w1) = true)
  ∧ length (sequenceCompletions (log (env w1)))
    = (length (sequenceCompletions (log (env w)))
       + (match onSequenceComplete (eventHandlers w) with
          | Some _ => 1
          | None => 0
          end))%nat
  ∧ length (broadcasts (log (env w1)))
    = (length (broadcasts (log (env w)))
       + (match onSequenceComplete (eventHandlers w) with
          | Some true => 0
          | _ => 1
          end))%nat
  ∧ step (KeyDown "Escape") (step (KeyDown "Escape") w)
    = step (KeyDown "Escape") w.
Proof.
  cbv zeta. split; [apply complete_flags|].
  rewrite complete_log.
  split; [|split].
  - destruct (onSequenceComplete (eventHandlers w)) as [[|]|];
      unfold sequenceCompletions;
      rewrite ?omap_app; simpl; rewrite ?length_app; simpl; lia.
  - destruct (onSequenceComplete (eventHandlers w)) as [[|]|];
      unfold broadcasts;
      rewrite ?omap_app; simpl; rewrite ?length_app; simpl; lia.
  - cbn [step]. destruct (listening w) eqn:Hl; [|by rewrite Hl].
    rewrite (onKeyDown_escape w).
    destruct (isPlaying (state w)) eqn:Hp.
    + rewrite complete_listening. cbn [clearTimeouts withState withEnv listening].
      rewrite Hl, onKeyDown_escape.
      by destruct (complete_flags (clearTimeouts w)) as (-> & _).
    + rewrite Hl, onKeyDown_escape. by rewrite Hp.
Qed.

(** [showSlide] after its transition. *)
Lemma showSlideRest_cases j prev w :
  let r := showSlideRest j prev w in
  let evs :=
    observed (onSlideComplete (eventHandlers w))
      (OnSlideComplete (slideData j w))
    ++ (if throwsAt (onSlideComplete (eventHandlers w)) j then []
        else observed (onProgress (eventHandlers w))
               (OnProgress [("current", VNumber (j + 1));
                            ("total", VNumber (messageCount w));
                            ("percentage", VPercent (j + 1) (messageCount w))]))
  in
  grows w (worldOf r) [] [] evs
  ∧ currentSlide (state (worldOf r)) = currentSlide (state w)
  ∧ r = (if throwsAt (onSlideComplete (eventHandlers w)) j
            || throwsAt (onProgress (eventHandlers w)) j
         then Rejected else Finished) (worldOf r).
Proof.
  cbv zeta. unfold showSlideRest.
  set (w1 := onSlide prev _ w).
  assert (G1 : grows w w1 [] [] []) by apply grows_onSlide.
  assert (C1 : currentSlide (state w1) = currentSlide (state w)).
  { subst w1. unfold onSlide. by destruct (prev <? 0). }
  assert (Hh : eventHandlers w1 = eventHandlers w) by apply G1.
  assert (Hd : slideData j w1 = slideData j w).
  { unfold slideData, message. by rewrite (grows_config _ _ _ _ _ G1). }
  rewrite Hh, Hd.
  destruct (grows_invoke (onSlideComplete (eventHandlers w))
              (OnSlideComplete (slideData j w)) j w1) as [G2 E2].
  rewrite E2.
  assert (C2 : currentSlide (state (worldOf
            (invoke (onSlideComplete (eventHandlers w))
               (OnSlideComplete (slideData j w)) j w1)))
          = currentSlide (state w)).
  { rewrite <- C1. unfold invoke.
    destruct (onSlideComplete _) as [f|]; [destruct (f j)|]; reflexivity. }
  set (w2 := worldOf _) in *.
  destruct (throwsAt (onSlideComplete (eventHandlers w)) j) eqn:Ht; simpl.
  - split; [|done]. eapply grows_eq;
      [eapply grows_trans; [exact G1 | exact G2] | by rewrite ?app_nil_r ..].
  - assert (Hh2 : eventHandlers w2 = eventHandlers w)
      by (rewrite (grows_handlers _ _ _ _ _ G2); exact Hh).
    assert (Hm2 : messageCount w2 = messageCount w).
    { unfold messageCount.
      by rewrite (grows_config _ _ _ _ _ G2), (grows_config _ _ _ _ _ G1). }
    rewrite Hh2, Hm2.
    match goal with |- context [invoke ?h ?e j w2] =>
      destruct (grows_invoke h e j w2) as [G3 E3]; rewrite E3;
      assert (C3 : currentSlide (state (worldOf (invoke h e j w2)))
                   = currentSlide (state w))
        by (rewrite <- C2; unfold invoke;
            destruct h as [f|]; [destruct (f j)|]; reflexivity)
    end.
    assert (G : grows w (worldOf (invoke (onProgress (eventHandlers w))
          (OnProgress [("current", VNumber (j + 1));
                       ("total", VNumber (messageCount w));
                       ("percentage", VPercent (j + 1) (messageCount w))])
          j w2)) [] []
        (observed (onSlideComplete (eventHandlers w))
           (OnSlideComplete (slideData j w))
         ++ observed (onProgress (eventHandlers w))
              (OnProgress [("current", VNumber (j + 1));
                           ("total", VNumber (messageCount w));
                           ("percentage", VPercent (j + 1) (messageCount w))]))).
    { eapply grows_eq;
        [eapply grows_trans; [exact G1 |eapply grows_trans; [exact G2|exact G3]]
        | by rewrite ?app_nil_r ..]. }
    by destruct (throwsAt (onProgress (eventHandlers w)) j).
Qed.

(** [complete()]: the flags, then the callback, the broadcast and the
    timer that hides the section. *)
Lemma complete_cases w :
  let r := complete w in
  let throws := match onSequenceComplete (eventHandlers w) with
                | Some true => true
                | _ => false
                end in
  grows (withState completedFlags w) (worldOf r)
    (if throws then []
     else [mkTimer (nextTimerId (env w)) (clock (env w) + 1000) HideCallback])
    []
    (observed (onSequenceComplete (eventHandlers w))
       (OnSequenceComplete [("duration", VNumber (elapsed w));
                            ("slideCount", VNumber (messageCount w))])
     ++ (if throws then []
         else [Dispatched "introSlidesComplete"
                 [("component", VComponent);
                  ("duration", VNumber (elapsed w))]]))
  ∧ currentSlide (state (worldOf r)) = currentSlide (state w)
  ∧ r = (if throws then Rejected else Finished) (worldOf r).
Proof.
  cbv zeta. unfold complete. simpl.
  destruct (onSequenceComplete (eventHandlers w)) as [[|]|]; simpl;
    (split; [|split; reflexivity]); grows_primitive.
  all: by rewrite <- app_assoc.
Qed.

Lemma grows_scheduleReveals n idx w :
  ∃ rs, grows w (scheduleReveals n idx w) rs [] []
        ∧ map (λ t, (due t, action t)) rs
          = map (λ k, (clock (env w) + Z.of_nat k * 200, ErrorReveal k))
              (seq idx n)
        ∧ state (scheduleReveals n idx w) = state w
        ∧ elements (scheduleReveals n idx w) = elements w.
Proof.
  revert idx w. induction n as [|n IH]; intros idx w; simpl.
  - exists []. split; [apply grows_refl | done].
  - match goal with |- context [scheduleReveals n (S idx) ?w1] =>
      destruct (IH (S idx) w1) as (rs & G & Hrs & Hst & Hel) end.
    eexists (_ :: rs). split; [|split; [|split]].
    + eapply grows_eq;
        [eapply grows_trans;
           [apply (grows_setTimeout (ErrorReveal idx) (Z.of_nat idx * 200))
           | exact G]
        | reflexivity..].
    + simpl. rewrite Hrs. simpl. f_equal. f_equal. lia.
    + by rewrite Hst.
    + by rewrite Hel.
Qed.

(** [handleError()]: the flag, then the reveal timers and the timer that
    completes. *)
Lemma handleError_cases w :
  ∃ rs,
    grows (withState (setIsPlaying false) w) (handleError w)
      (rs ++ [mkTimer (nextTimerId (env w) + length rs)
                (clock (env w) + Z.max 0 (messageCount w * 200 + 1000))
                ErrorComplete])
      [] [ConsoleError "IntroSlides error:"]
    ∧ map (λ t, (due t, action t)) rs
      = map (λ k, (clock (env w) + Z.of_nat k * 200, ErrorReveal k))
          (seq 0 (length (slides (elements w))))
    ∧ currentSlide (state (handleError w)) = currentSlide (state w)
    ∧ elements (handleError w) = elements w.
Proof.
  unfold handleError. cbv zeta.
  set (w2 := withState (setIsPlaying false) (emit _ w)).
  destruct (grows_scheduleReveals (length (slides (elements w2))) 0 w2)
    as (rs & G & Hrs & Hst & Hel).
  exists rs. split; [|split; [exact Hrs|split]].
  - pose proof (grows_next _ _ _ _ _ G) as N.
    pose proof (grows_clock _ _ _ _ _ G) as K.
    assert (Hm : messageCount (scheduleReveals
                   (length (slides (elements w2))) 0 w2) = messageCount w).
    { unfold messageCount. by rewrite (grows_config _ _ _ _ _ G). }
    eapply grows_eq.
    + eapply grows_trans;
        [apply (grows_emit (ConsoleError "IntroSlides error:")
                  (withState (setIsPlaying false) w))|].
      eapply grows_trans; [exact G | apply grows_setTimeout].
    + rewrite N, K, Hm. reflexivity.
    + reflexivity.
    + reflexivity.
  - cbn [setTimeout snd withEnv state]. by rewrite Hst.
  - cbn [setTimeout snd withEnv elements]. by rewrite Hel.
Qed.

Lemma grows_hide w :
  grows w (hide w)
    (match section (elements w) with
     | Some _ => [mkTimer (nextTimerId (env w))
                    (clock (env w) + Z.max 0 (transitionDuration (config w)))
                    HideFinish]
     | None => []
     end) [] [].
Proof.
  unfold hide. destruct (section (elements w)); [|apply grows_refl].
  eapply grows_eq;
    [eapply grows_trans; [apply grows_onSection | apply grows_setTimeout]
    | reflexivity..].
Qed.

Lemma grows_hideFinish w : grows w (hideFinish w) [] [] [].
Proof. apply grows_onSection. Qed.

Lemma grows_errorReveal k w : grows w (errorReveal k w) [] [] [].
Proof. apply grows_onSlide. Qed.

Lemma grows_removeHeart j w : grows w (removeHeart j w) [] [] [].
Proof. apply grows_onSlide. Qed.

Lemma grows_createFloatingHeart j w :
  grows w (createFloatingHeart j w)
    [mkTimer (nextTimerId (env w)) (clock (env w) + 3000) (HeartRemove j)]
    [] [].
Proof.
  unfold createFloatingHeart.
  eapply grows_eq.
  - eapply grows_trans; [apply grows_random|].
    eapply grows_trans; [apply grows_random|].
    eapply grows_trans; [apply grows_random|].
    eapply grows_trans; [apply grows_onSlide | apply grows_setTimeout].
  - simpl. unfold onSlide. destruct (j <? 0); reflexivity.
  - reflexivity.
  - reflexivity.
Qed.

(** The loop below its [for]. *)
Lemma loopEnd_cases l w :
  match loopEnd l w with
  | Finished w' => w' = w ∧ isPlaying (state w) && negb (isPaused (state w)) = false
  | Suspended w' =>
      isPlaying (state w) && negb (isPaused (state w)) = true
      ∧ w' = wait (trailingDelay l w) (LoopBeforeComplete l) w
  | Rejected _ => False
  end.
Proof.
  unfold loopEnd.
  by destruct (isPlaying (state w) && negb (isPaused (state w))).
Qed.

Lemma playSequence_end_loopEnd w : playSequence_end w = loopEnd PlaySequence w.
Proof. reflexivity. Qed.

Lemma continueSequence_end_loopEnd w :
  continueSequence_end w = loopEnd ContinueSequence w.
Proof. reflexivity. Qed.

(** The loop entered at [i], case by case: it is over or broken off; the
    slide's handler threw; or the coroutine now sleeps, in [showSlide],
    between two slides, or before completing. *)
Lemma loopFrom_cases l i w :
  match loopFrom l i w with
  | Finished w' => w' = w ∧ playing w = false
  | Rejected w' =>
      playing w = true ∧ i < messageCount w ∧ 0 ≤ i < slideCount w
      ∧ throwsAt (onSlideStart (eventHandlers w)) i = true
      ∧ grows w w' [] [] [OnSlideStart (slideData i w)]
      ∧ currentSlide (state w') = i
  | Suspended w' =>
      playing w = true
      ∧ ((i < messageCount w ∧ 0 ≤ i < slideCount w
          ∧ throwsAt (onSlideStart (eventHandlers w)) i = false
          ∧ currentSlide (state w') = i
          ∧ ∃ hs,
              grows w w'
                (hs ++ [mkTimer (nextTimerId (env w) + length hs)
                          (clock (env w)
                           + Z.max 0 (transitionDuration (config w)))
                          (ShowSlideRest i (currentSlide (state w))
                             (AwaitedBy l i))])
                [(nextTimerId (env w) + length hs)%nat]
                (observed (onSlideStart (eventHandlers w))
                   (OnSlideStart (slideData i w)))
              ∧ (length hs ≤ 5)%nat
              ∧ Forall (λ t, action t = HeartSpawn i) hs)
         ∨ (i < messageCount w - 1 ∧ ¬ 0 ≤ i < slideCount w
            ∧ w' = wait (slideDelay (config w)) (LoopAfterDelay l i) w)
         ∨ ((messageCount w ≤ i
             ∨ (i = messageCount w - 1 ∧ ¬ 0 ≤ i < slideCount w))
            ∧ w' = wait (trailingDelay l w) (LoopBeforeComplete l) w))
  end.
Proof.
  rewrite loopFrom_unfold. unfold playing.
  destruct (Z.leb_spec (messageCount w) i) as [Hle|Hlt]; simpl.
  { pose proof (loopEnd_cases l w) as H.
    destruct (loopEnd l w) as [w'|w'|w']; [exact H| |done].
    destruct H as [Hp ->]. split; [exact Hp|]. right. right. split; [lia|done]. }
  destruct (isPlaying (state w)) eqn:Hpl; simpl.
  2: { unfold loopEnd. rewrite Hpl. by simpl. }
  destruct (isPaused (state w)) eqn:Hpa; simpl.
  { unfold loopEnd. rewrite Hpl, Hpa. by simpl. }
  pose proof (showSlide_cases i (AwaitedBy l i) w) as H.
  destruct (showSlide i (AwaitedBy l i) w) as [w'|w'|w'].
  - destruct H as [-> Hout].
    assert (Hno : ¬ 0 ≤ i < slideCount w).
    { apply orb_true_iff in Hout as [H|H];
        [apply Z.ltb_lt in H | apply Z.leb_le in H]; lia. }
    destruct (Z.ltb_spec i (messageCount w - 1)).
    + split; [done|]. right. left. done.
    + unfold loopEnd. rewrite Hpl, Hpa. simpl.
      split; [done|]. right. right. split; [|done]. right. lia.
  - destruct H as (Hj & Ht & Hc & hs & G & Hl & Ha).
    split; [done|]. left. split; [lia|]. split; [lia|].
    split; [done|]. split; [done|]. by exists hs.
  - destruct H as (Hj & Ht & G & Hc). done.
Qed.

(** ** The timer discipline is kept *)

Lemma resumesLoop_isWaitResolver c :
  resumesLoop c = true → isWaitResolver c = true.
Proof. destruct c as [? ? []| | | | | | | |]; simpl; congruence. Qed.

Lemma disciplined_grows w w' new ids evs :
  disciplined w → grows w w' new ids evs →
  Forall (λ t, isWaitResolver (action t) = true → tid t ∈ ids) new →
  (isPaused (state w) = true →
   Forall (λ t, resumesLoop (action t) = false) new) →
  disciplined w'.
Proof.
  intros (Htr & Hq & Hcoh) G Hnew Hpaused.
  pose proof (grows_flags _ _ _ _ _ G) as Hf. unfold flagsOf in Hf.
  injection Hf as Hpl Hpa Hco.
  split; [|split; [|unfold coherent; by rewrite Hpl, Hco]].
  - unfold tracked. rewrite (grows_timers _ _ _ _ _ G),
      (grows_timeouts _ _ _ _ _ G).
    apply Forall_app. split.
    + eapply Forall_impl; [exact Htr|]. simpl. intros t Ht Hw.
      apply elem_of_app. left. by apply Ht.
    + eapply Forall_impl; [exact Hnew|]. simpl. intros t Ht Hw.
      apply elem_of_app. right. by apply Ht.
  - intros Hp. rewrite Hpa in Hp. rewrite Hpl.
    destruct (Hq Hp) as [Hplay Hno]. split; [done|].
    rewrite (grows_timers _ _ _ _ _ G). apply Forall_app. split; [done|].
    by apply Hpaused.
Qed.

(** Growth by timers that are no [wait] resolvers. *)
Lemma disciplined_grows_plain w w' new evs :
  disciplined w → grows w w' new [] evs →
  Forall (λ t, isWaitResolver (action t) = false) new →
  disciplined w'.
Proof.
  intros H G Hnew. eapply disciplined_grows; [exact H | exact G | |].
  - eapply Forall_impl; [exact Hnew|]. simpl. congruence.
  - intros _. eapply Forall_impl; [exact Hnew|]. simpl. intros t Ht.
    destruct (resumesLoop (action t)) eqn:E; [|done].
    apply resumesLoop_isWaitResolver in E. congruence.
Qed.

(** A change of [state] that keeps the record of timers and does not
    pause. *)
Lemma disciplined_withState f w :
  disciplined w →
  timeouts (f (state w)) = timeouts (state w) →
  (isPaused (f (state w)) = true →
   isPaused (state w) = true ∧ isPlaying (f (state w)) = true) →
  (isCompleted (f (state w)) = true → isPlaying (f (state w)) = false) →
  disciplined (withState f w).
Proof.
  intros (Htr & Hq & _) Ht Hp Hco. split; [|split; [|exact Hco]].
  - unfold tracked. simpl. by rewrite Ht.
  - intros Hpa. simpl in *. destruct (Hp Hpa) as [Hpa' Hpl].
    split; [done|]. by apply Hq.
Qed.

(** A change outside [state] and the timers. *)
Lemma disciplined_same w w' :
  disciplined w → state w' = state w → timers (env w') = timers (env w) →
  disciplined w'.
Proof.
  intros (Htr & Hq & Hco) Hs Ht. split; [|split].
  - unfold tracked. by rewrite Hs, Ht.
  - unfold quietWhenPaused. by rewrite Hs, Ht.
  - unfold coherent. by rewrite Hs.
Qed.

Lemma Forall_List_filter {A} (P : A → Prop) (f : A → bool) (l : list A) :
  Forall P l → Forall P (List.filter f l).
Proof.
  induction 1 as [|x l Hx Hl IH]; simpl; [constructor|].
  destruct (f x); [by constructor | done].
Qed.

(** [clearTimeouts()] leaves no [wait] resolver pending. *)
Lemma clearTimeouts_clears w :
  tracked w →
  Forall (λ t, isWaitResolver (action t) = false)
    (timers (env (clearTimeouts w))).
Proof.
  unfold tracked, clearTimeouts. simpl. intros H.
  induction H as [|t ts Ht Hts IH]; simpl; [constructor|].
  destruct (bool_decide (tid t ∈ timeouts (state w))) eqn:E; simpl; [done|].
  constructor; [|done].
  apply bool_decide_eq_false in E.
  destruct (isWaitResolver (action t)); [|done]. by destruct E; apply Ht.
Qed.

Lemma disciplined_clearTimeouts w :
  tracked w →
  (isPaused (state w) = true → isPlaying (state w) = true) →
  coherent w →
  disciplined (clearTimeouts w).
Proof.
  intros Htr Hp Hco. pose proof (clearTimeouts_clears w Htr) as Hc.
  split; [|split; [|exact Hco]].
  - eapply Forall_impl; [exact Hc|]. simpl. congruence.
  - intros Hpa. simpl in Hpa. split; [by apply Hp|].
    eapply Forall_impl; [exact Hc|]. simpl. intros t Ht.
    destruct (resumesLoop (action t)) eqn:E; [|done].
    apply resumesLoop_isWaitResolver in E. congruence.
Qed.

Lemma disciplined_handleError w :
  disciplined w → isPaused (state w) = false → disciplined (handleError w).
Proof.
  intros H Hp. destruct (handleError_cases w) as (rs & G & Hrs & _).
  eapply disciplined_grows_plain; [|exact G|].
  - apply disciplined_withState; [exact H | reflexivity| |done].
    simpl. congruence.
  - apply Forall_app. split; [|by repeat constructor].
    apply Forall_forall. intros t Ht.
    apply list_elem_of_In, (in_map (λ t, (due t, action t))) in Ht.
    rewrite Hrs in Ht. apply in_map_iff in Ht as (k & Hk & _).
    injection Hk as _ <-. reflexivity.
Qed.

Lemma disciplined_complete w :
  disciplined w → disciplined (worldOf (complete w)).
Proof.
  intros H. destruct (complete_cases w) as (G & _ & _).
  eapply disciplined_grows_plain; [|exact G|].
  - apply disciplined_withState; [exact H | reflexivity| |done].
    simpl. congruence.
  - destruct (onSequenceComplete (eventHandlers w)) as [[|]|];
      repeat constructor.
Qed.

Lemma isPaused_grows w w' new ids evs :
  grows w w' new ids evs → isPaused (state w') = isPaused (state w).
Proof.
  intros G. pose proof (grows_flags _ _ _ _ _ G) as Hf.
  unfold flagsOf in Hf. congruence.
Qed.

Lemma playing_unpaused w : playing w = true → isPaused (state w) = false.
Proof.
  unfold playing. destruct (isPaused (state w)); [|done].
  by rewrite andb_false_r.
Qed.

Lemma disciplined_caughtByStart r :
  disciplined (worldOf r) → isPaused (state (worldOf r)) = false →
  disciplined (caughtByStart r).
Proof.
  destruct r as [w|w|w]; simpl; try done.
  intros H Hp. apply disciplined_handleError; [|exact Hp].
  eapply disciplined_grows_plain; [exact H | apply grows_emit | constructor].
Qed.

Lemma disciplined_settle l r :
  disciplined (worldOf r) → isPaused (state (worldOf r)) = false →
  disciplined (settle l r).
Proof.
  destruct l; [apply disciplined_caughtByStart | by destruct r].
Qed.

Lemma disciplined_wait d c w :
  disciplined w → (isPaused (state w) = true → resumesLoop c = false) →
  disciplined (wait d c w).
Proof.
  intros H Hc. eapply disciplined_grows; [exact H | apply grows_wait | |].
  - constructor; [|constructor]. simpl. intros _. apply list_elem_of_singleton.
    reflexivity.
  - intros Hp. constructor; [by apply Hc | constructor].
Qed.

Lemma disciplined_showSlide j a w :
  disciplined w → (isPaused (state w) = true → a = Dropped) →
  disciplined (worldOf (showSlide j a w))
  ∧ isPaused (state (worldOf (showSlide j a w))) = isPaused (state w).
Proof.
  intros H Ha. pose proof (showSlide_cases j a w) as Hc.
  destruct (showSlide j a w) as [w'|w'|w']; simpl.
  - by destruct Hc as [-> _].
  - destruct Hc as (_ & _ & _ & hs & G & _ & Hhs).
    split; [|eapply isPaused_grows; exact G].
    eapply disciplined_grows; [exact H | exact G | |].
    + apply Forall_app. split.
      * eapply Forall_impl; [exact Hhs|]. simpl. by intros t ->.
      * constructor; [|constructor]. simpl. intros _.
        apply list_elem_of_singleton. reflexivity.
    + intros Hp. apply Forall_app. split.
      * eapply Forall_impl; [exact Hhs|]. simpl. by intros t ->.
      * constructor; [|constructor]. simpl. by rewrite (Ha Hp).
  - destruct Hc as (_ & _ & G & _).
    split; [|eapply isPaused_grows; exact G].
    eapply disciplined_grows_plain; [exact H | exact G | constructor].
Qed.

(** A loop keeps the discipline, and does not pause. *)
Lemma disciplined_loopFrom l i w :
  disciplined w →
  disciplined (worldOf (loopFrom l i w))
  ∧ isPaused (state (worldOf (loopFrom l i w))) = isPaused (state w).
Proof.
  intros H. pose proof (loopFrom_cases l i w) as Hc.
  destruct (loopFrom l i w) as [w'|w'|w']; simpl.
  - by destruct Hc as [-> _].
  - destruct Hc as (Hpl & [(_ & _ & _ & _ & hs & G & _ & Hhs)
                          |[(_ & _ & ->)|(_ & ->)]]).
    + split; [|eapply isPaused_grows; exact G].
      eapply disciplined_grows; [exact H | exact G | |].
      * apply Forall_app. split.
        -- eapply Forall_impl; [exact Hhs|]. simpl. by intros t ->.
        -- constructor; [|constructor]. simpl. intros _.
           apply list_elem_of_singleton. reflexivity.
      * intros Hp. apply playing_unpaused in Hpl. congruence.
    + split; [|reflexivity]. apply disciplined_wait; [exact H|].
      intros Hp. apply playing_unpaused in Hpl. congruence.
    + split; [|reflexivity]. apply disciplined_wait; [exact H|].
      intros Hp. apply playing_unpaused in Hpl. congruence.
  - destruct Hc as (_ & _ & _ & _ & G & _).
    split; [|eapply isPaused_grows; exact G].
    eapply disciplined_grows_plain; [exact H | exact G | constructor].
Qed.

Lemma disciplined_start w : disciplined w → disciplined (start w).
Proof.
  intros H. unfold start.
  destruct (isPlaying (state w) || isCompleted (state w)) eqn:Eg; [done|].
  apply orb_false_iff in Eg as [_ Eg].
  cbv zeta. unfold playSequence. rewrite playSequence_from_loopFrom.
  match goal with |- context [loopFrom _ 0 ?w2] =>
    assert (H2 : disciplined w2 ∧ isPaused (state w2) = false) end.
  { split; [|reflexivity].
    eapply disciplined_grows_plain; [|apply grows_onSection|constructor].
    apply disciplined_withState; [exact H | reflexivity|..]; simpl; congruence. }
  destruct H2 as [H2 Hp2].
  match goal with |- context [loopFrom _ 0 ?w2] =>
    destruct (disciplined_loopFrom PlaySequence 0 w2 H2) as [H3 Hp3] end.
  apply disciplined_caughtByStart; [exact H3|]. by rewrite Hp3.
Qed.

Lemma disciplined_pause w : disciplined w → disciplined (pause w).
Proof.
  intros H. unfold pause.
  destruct (negb (isPlaying (state w)) || isPaused (state w)) eqn:E; [done|].
  apply orb_false_iff in E as [E1 E2]. apply negb_false_iff in E1.
  apply disciplined_clearTimeouts; [apply H | done | apply H].
Qed.

Lemma disciplined_resume w : disciplined w → disciplined (resume w).
Proof.
  intros H. unfold resume.
  destruct (negb (isPlaying (state w)) || negb (isPaused (state w)));
    [done|].
  unfold continueSequence. rewrite continueSequence_from_loopFrom.
  apply disciplined_loopFrom.
  apply disciplined_withState; [exact H | reflexivity|..]; simpl;
    [congruence | apply H].
Qed.

Lemma disciplined_nextSlide w : disciplined w → disciplined (nextSlide w).
Proof.
  intros H. unfold nextSlide.
  destruct (negb (isPlaying (state w))
            || (messageCount w - 1 <=? currentSlide (state w))); [done|].
  cbv zeta. apply disciplined_showSlide; [|done].
  apply disciplined_clearTimeouts; [apply H| |apply H]. intros Hp.
  by destruct H as (_ & Hq & _); destruct (Hq Hp).
Qed.

Lemma disciplined_skip w : disciplined w → disciplined (worldOf (skip w)).
Proof.
  intros H. apply disciplined_complete.
  apply disciplined_clearTimeouts; [apply H| |apply H]. intros Hp.
  by destruct H as (_ & Hq & _); destruct (Hq Hp).
Qed.

Lemma disciplined_stop w : disciplined w → disciplined (stop w).
Proof.
  intros H. unfold stop.
  apply disciplined_clearTimeouts; [apply H|simpl; congruence|done].
Qed.

Lemma disciplined_resetSlides w : disciplined w → disciplined (resetSlides w).
Proof.
  intros H. unfold resetSlides. cbv zeta.
  eapply disciplined_same; [|reflexivity..].
  apply disciplined_withState; [|reflexivity| |done].
  - eapply disciplined_same; [exact H | reflexivity..].
  - simpl. intros Hp. split; [done|].
    by destruct H as (_ & Hq & _); destruct (Hq Hp).
Qed.

Lemma disciplined_hide w : disciplined w → disciplined (hide w).
Proof.
  intros H. eapply disciplined_grows_plain; [exact H | apply grows_hide|].
  destruct (section (elements w)); repeat constructor.
Qed.

Lemma disciplined_onKeyDown key w :
  disciplined w → disciplined (onKeyDown key w).
Proof.
  intros H. unfold onKeyDown. destruct (isPlaying (state w)); [|done].
  destruct (String.eqb key "Escape"); [by apply disciplined_skip|].
  destruct (String.eqb key " " || String.eqb key "Enter").
  - destruct (isPaused (state w));
      [by apply disciplined_resume | by apply disciplined_pause].
  - destruct (String.eqb key "ArrowRight"); [by apply disciplined_nextSlide|done].
Qed.

Lemma disciplined_afterShow l i w :
  disciplined w → isPaused (state w) = false →
  disciplined (worldOf (afterShow l i w))
  ∧ isPaused (state (worldOf (afterShow l i w))) = false.
Proof.
  intros H Hp. rewrite afterShow_loopFrom.
  destruct (i <? messageCount w - 1).
  - split; [|exact Hp]. apply disciplined_wait; [exact H | congruence].
  - destruct (disciplined_loopFrom l (i + 1) w H) as [H1 H2].
    split; [exact H1 | congruence].
Qed.

(** A timer callback keeps the discipline; one that resumes a loop runs
    only while the sequencer is not paused. *)
Lemma disciplined_runCallback c w :
  disciplined w → (resumesLoop c = true → isPaused (state w) = false) →
  disciplined (runCallback c w).
Proof.
  intros H Hc. destruct c as [j prev [l i|]|l i|l| | |k| |j|j]; simpl.
  - specialize (Hc eq_refl).
    destruct (showSlideRest_cases j prev w) as (G & _ & E).
    assert (H1 : disciplined (worldOf (showSlideRest j prev w))).
    { eapply disciplined_grows_plain; [exact H | exact G | constructor]. }
    assert (P1 : isPaused (state (worldOf (showSlideRest j prev w))) = false).
    { rewrite (isPaused_grows _ _ _ _ _ G). exact Hc. }
    rewrite E.
    destruct (throwsAt (onSlideComplete (eventHandlers w)) j
              || throwsAt (onProgress (eventHandlers w)) j); simpl.
    + apply disciplined_settle; [exact H1 | exact P1].
    + destruct (disciplined_afterShow l i _ H1 P1) as [H2 P2].
      apply disciplined_settle; [exact H2 | exact P2].
  - destruct (showSlideRest_cases j prev w) as (G & _ & _).
    eapply disciplined_grows_plain; [exact H | exact G | constructor].
  - specialize (Hc eq_refl). rewrite afterDelay_loopFrom.
    destruct (disciplined_loopFrom l (i + 1) w H) as [H1 P1].
    apply disciplined_settle; [exact H1 | congruence].
  - apply disciplined_settle; [by apply disciplined_complete|].
    by destruct (complete_flags w) as (_ & -> & _).
  - by apply disciplined_hide.
  - eapply disciplined_grows_plain;
      [exact H | apply grows_hideFinish | constructor].
  - eapply disciplined_grows_plain;
      [exact H | apply grows_errorReveal | constructor].
  - by apply disciplined_complete.
  - eapply disciplined_grows_plain;
      [exact H | apply grows_createFloatingHeart | repeat constructor].
  - eapply disciplined_grows_plain;
      [exact H | apply grows_removeHeart | constructor].
Qed.

Lemma findTimer_Some id ts t :
  findTimer id ts = Some t → t ∈ ts ∧ tid t = id.
Proof.
  induction ts as [|u ts IH]; simpl; [done|].
  destruct (Nat.eqb_spec (tid u) id).
  - intros [= ->]. split; [apply list_elem_of_here | done].
  - intros H. destruct (IH H). split; [by apply list_elem_of_further | done].
Qed.

Lemma disciplined_fire id w : disciplined w → disciplined (fire id w).
Proof.
  intros H. unfold fire.
  destruct (findTimer id (timers (env w))) as [t|] eqn:E; [|done].
  apply findTimer_Some in E as [Hin _].
  apply disciplined_runCallback.
  - destruct H as (Htr & Hq & Hco). split; [|split; [|exact Hco]].
    + unfold tracked. simpl. by apply Forall_List_filter.
    + intros Hp. simpl in *. destruct (Hq Hp) as [Hpl Hno].
      split; [done|]. by apply Forall_List_filter.
  - intros Hr. simpl. destruct (isPaused (state w)) eqn:Hp; [|done].
    destruct H as (_ & Hq & _). destruct (Hq Hp) as [_ Hno].
    rewrite Forall_forall in Hno. specialize (Hno t Hin). congruence.
Qed.

Lemma disciplined_step i w : disciplined w → disciplined (step i w).
Proof.
  intros H. destruct i; simpl.
  - by apply disciplined_start.
  - by apply disciplined_pause.
  - by apply disciplined_resume.
  - by apply disciplined_nextSlide.
  - by apply disciplined_skip.
  - by apply disciplined_complete.
  - by apply disciplined_stop.
  - by apply disciplined_start, disciplined_resetSlides, disciplined_stop.
  - by apply disciplined_resetSlides.
  - by apply disciplined_hide.
  - eapply disciplined_same; [exact H | reflexivity..].
  - destruct (listening w); [by apply disciplined_onKeyDown | done].
  - destruct (listening w); [|done]. unfold onClick.
    destruct (isPlaying (state w) && negb (isPaused (state w)));
      [by apply disciplined_nextSlide | done].
  - destruct (listening w); [|done]. unfold onVisibilityChange.
    destruct (documentHidden && isPlaying (state w));
      [by apply disciplined_pause|].
    destruct (negb documentHidden && isPaused (state w));
      [by apply disciplined_resume | done].
  - destruct (listening w); [|done]. unfold onReducedMotionChange.
    cbv zeta. match goal with |- context [if ?b then _ else _] => destruct b end;
      (eapply disciplined_same; [exact H | reflexivity..]).
  - by apply disciplined_fire.
  - eapply disciplined_same; [exact H | reflexivity..].
Qed.

Lemma disciplined_construct o p : disciplined (construct o p).
Proof.
  assert (H0 : disciplined (fresh o p)).
  { split; [constructor|]. split; simpl; discriminate. }
  unfold construct.
  destruct (setupDOM p (fresh o p)) as [w1|w1|w1] eqn:E.
  - assert (H1 : disciplined w1).
    { unfold setupDOM in E. destruct (container p) as [[sls inS]|]; [|done].
      destruct sls; [done|]. injection E as <-.
      eapply disciplined_same; [|reflexivity..].
      apply disciplined_resetSlides.
      eapply disciplined_same; [exact H0 | reflexivity..]. }
    cbv zeta.
    match goal with |- disciplined (if _ then start ?w3 else _) =>
      assert (H3 : disciplined w3) end.
    { eapply disciplined_same; [exact H1| |].
      - unfold setupAccessibility. by destruct (prefersReducedMotion p).
      - unfold setupAccessibility. by destruct (prefersReducedMotion p). }
    match goal with |- context [if ?b then _ else _] => destruct b end;
      [by apply disciplined_start | done].
  - unfold setupDOM in E. destruct (container p) as [[sls inS]|]; [|done].
    by destruct sls.
  - assert (H1 : disciplined w1).
    { unfold setupDOM in E. destruct (container p) as [[sls inS]|].
      - destruct sls; [|done]. injection E as <-.
        eapply disciplined_same; [exact H0 | reflexivity..].
      - by injection E as <-. }
    eapply disciplined_grows_plain; [exact H1 | apply grows_emit | constructor].
Qed.

(** Every world a component can be in keeps the timer discipline. *)
Lemma reachable_disciplined w : reachable w → disciplined w.
Proof.
  induction 1; [apply disciplined_construct | by apply disciplined_step].
Qed.

(** ** Pausing *)


Lemma pause_currentSlide w :
  currentSlide (state (pause w)) = currentSlide (state w).
Proof.
  unfold pause.
  by destruct (negb (isPlaying (state w)) || isPaused (state w)).
Qed.

(** ** Starting *)

(** C6, as stated, fails: [start()] does not touch [currentSlide].  After
    [stop()] at the first slide a new [start()] enters the loop with
    [currentSlide = 0]: [showSlide(0)] takes slide 0 for the previous
    slide too, marks it [exiting], and hides it when its transition
    ends.  Had [start()] set [currentSlide] to -1, the slide would stay
    on screen. *)
Lemma start_does_not_reset :
  let w := stop (start (construct demoOptions demoPage)) in
  phaseOf w = Idle
  ∧ currentSlide (state w) = 0
  ∧ start w ≠ start_asSpecified w
  ∧ visibility <$> slides (elements (run 1 (start w))) !! 0%nat
    = Some "hidden"
  ∧ visibility <$> slides (elements (run 1 (start_asSpecified w))) !! 0%nat
    = Some "visible".
Proof.
  cbv zeta. split; [by vm_compute|]. split; [by vm_compute|].
  split; [|by vm_compute].
  intros H. apply (f_equal (λ w, exiting <$> slides (elements w) !! 0%nat)) in H.
  vm_compute in H. discriminate.
Qed.

Lemma start_unfold w :
  start w
  = if isPlaying (state w) || isCompleted (state w) then w
    else caughtByStart
           (loopFrom PlaySequence 0
              (onSection (λ s, mkSection false (fadeOut s) (fadeIn s))
                 (withState (λ s, setStartTime (Some (clock (env w)))
                                    (setIsPaused false (setIsPlaying true s)))
                    w))).
Proof.
  unfold start. destruct (isPlaying (state w) || isCompleted (state w));
    [reflexivity|].
  cbv zeta. unfold playSequence. by rewrite playSequence_from_loopFrom.
Qed.

Lemma handleError_state w :
  state (handleError w) = setIsPlaying false (state w).
Proof.
  unfold handleError. cbv zeta. cbn [setTimeout snd withEnv state].
  destruct (grows_scheduleReveals
              (length (slides (elements (withState (setIsPlaying false)
                 (emit (ConsoleError "IntroSlides error:") w))))) 0
              (withState (setIsPlaying false)
                 (emit (ConsoleError "IntroSlides error:") w)))
    as (rs & _ & _ & Hst & _).
  exact Hst.
Qed.

(** C6, amended.  [start()] changes nothing while the sequencer is
    playing (paused or not) or completed.  Otherwise it records the start
    time, clears [isPaused] and enters the play loop at slide 0 with
    [isPlaying] set; it leaves [currentSlide] as it finds it, so after
    the call [currentSlide] is 0 if there is a first slide to show and
    unchanged if not, and [isPlaying] is set unless the handler of that
    first slide threw.  Where it acts, the [start()] of the specification
    is the code's [start()] run after [currentSlide] is set to -1, which
    is what [restart()] does through [resetSlides()]. *)
Theorem start_keeps_currentSlide (w : world) :
  (if isPlaying (state w) || isCompleted (state w) then start w = w
   else
     let first := (0 <? messageCount w) && (0 <? slideCount w) in
     startTime (state (start w)) = Some (clock (env w))
     ∧ isPaused (state (start w)) = false
     ∧ isPlaying (state (start w))
       = negb (first && throwsAt (onSlideStart (eventHandlers w)) 0)
     ∧ currentSlide (state (start w))
       = (if first then 0 else currentSlide (state w)))
  ∧ start_asSpecified w
    = (if isPlaying (state w) || isCompleted (state w) then w
       else start (withState (setCurrentSlide (-1)) w))
  ∧ restart w = start_asSpecified (resetSlides (stop w)).
Proof.
  split; [|split].
  2: { unfold start, start_asSpecified.
       destruct (isPlaying (state w) || isCompleted (state w)) eqn:E;
         [reflexivity|].
       change (state (withState (setCurrentSlide (-1)) w))
         with (setCurrentSlide (-1) (state w)).
       cbn [isPlaying isCompleted setCurrentSlide]. rewrite E. reflexivity. }
  - rewrite start_unfold.
    destruct (isPlaying (state w) || isCompleted (state w)); [reflexivity|].
    cbv zeta.
    set (w2 := onSection _ _).
    assert (Hst : startTime (state w2) = Some (clock (env w))) by reflexivity.
    assert (Hpa : isPaused (state w2) = false) by reflexivity.
    assert (Hpl : isPlaying (state w2) = true) by reflexivity.
    assert (Hcu : currentSlide (state w2) = currentSlide (state w))
      by reflexivity.
    assert (Hm : messageCount w2 = messageCount w) by reflexivity.
    assert (Hs : slideCount w2 = slideCount w) by reflexivity.
    assert (Hh : eventHandlers w2 = eventHandlers w) by reflexivity.
    pose proof (loopFrom_cases PlaySequence 0 w2) as Hc.
    rewrite Hm, Hs, Hh in Hc.
    destruct (loopFrom PlaySequence 0 w2) as [w'|w'|w'].
    + destruct Hc as [_ Hc]. unfold playing in Hc.
      by rewrite Hpl, Hpa in Hc.
    + simpl.
      destruct Hc as (_ & [(HN & HM & Ht & Hcur & hs & G & _)
                          |[(HN & HM & ->)|(HN & ->)]]).
      * pose proof (grows_flags _ _ _ _ _ G) as Hf. unfold flagsOf in Hf.
        injection Hf as Hf1 Hf2 _.
        rewrite (grows_startTime _ _ _ _ _ G), Hf1, Hf2, Ht, Hcur.
        replace (0 <? messageCount w) with true by (symmetry; apply Z.ltb_lt; lia).
        replace (0 <? slideCount w) with true by (symmetry; apply Z.ltb_lt; lia).
        done.
      * simpl.
        replace (0 <? slideCount w) with false
          by (symmetry; apply Z.ltb_ge; lia).
        by rewrite andb_false_r.
      * simpl.
        destruct (Z.ltb_spec 0 (messageCount w)); simpl; [|done].
        replace (0 <? slideCount w) with false
          by (symmetry; apply Z.ltb_ge; lia).
        done.
    + cbn [caughtByStart]. destruct Hc as (_ & HN & HM & Ht & G & Hcur).
      rewrite !handleError_state. cbn [emit withEnv state setIsPlaying
        startTime isPaused isPlaying currentSlide].
      pose proof (grows_flags _ _ _ _ _ G) as Hf. unfold flagsOf in Hf.
      injection Hf as Hf1 Hf2 _.
      rewrite (grows_startTime _ _ _ _ _ G), Hf2, Ht, Hcur.
      replace (0 <? messageCount w) with true by (symmetry; apply Z.ltb_lt; lia).
      replace (0 <? slideCount w) with true by (symmetry; apply Z.ltb_lt; lia).
      done.
  - unfold restart, start, start_asSpecified.
    destruct (isPlaying (state (resetSlides (stop w)))
              || isCompleted (state (resetSlides (stop w)))); reflexivity.
Qed.

Import PlayThrough.

(** ** The timer queue *)

Lemma earliest_None ts : earliest ts = None → ts = [].
Proof.
  destruct ts as [|t ts]; [done|]. simpl.
  destruct (earliest ts) as [u|]; [destruct (due u <? due t)|]; discriminate.
Qed.

Lemma earliest_Some ts t :
  earliest ts = Some t → t ∈ ts ∧ Forall (λ u, due t ≤ due u) ts.
Proof.
  revert t. induction ts as [|u ts IH]; intros t; simpl; [done|].
  destruct (earliest ts) as [v|] eqn:E.
  - destruct (IH v eq_refl) as [Hin Hall].
    destruct (Z.ltb_spec (due v) (due u)); intros [= <-].
    + split; [by apply list_elem_of_further|].
      constructor; [lia | exact Hall].
    + split; [apply list_elem_of_here|].
      constructor; [lia|].
      eapply Forall_impl; [exact Hall|]. simpl. intros; lia.
  - intros [= <-]. apply earliest_None in E as ->.
    split; [apply list_elem_of_here | by repeat constructor].
Qed.

Lemma findTimer_unique a t b :
  NoDup (map tid (a ++ t :: b)) →
  findTimer (tid t) (a ++ t :: b) = Some t
  ∧ dropTimer (tid t) (a ++ t :: b) = a ++ b.
Proof.
  rewrite map_app. simpl. intros Hnd.
  apply NoDup_app in Hnd as (Ha & Hdis & Hb).
  apply NoDup_cons in Hb as [Hnb Hb].
  assert (Hna : tid t ∉ map tid a).
  { intros Hin. apply (Hdis _ Hin). apply list_elem_of_here. }
  clear Hdis Ha Hb. split.
  - induction a as [|u a IH]; simpl.
    + by rewrite Nat.eqb_refl.
    + destruct (Nat.eqb_spec (tid u) (tid t)) as [E|_].
      * destruct Hna. simpl. rewrite E. apply list_elem_of_here.
      * apply IH. intros Hin. apply Hna. simpl. by apply list_elem_of_further.
  - unfold dropTimer. rewrite List.filter_app. simpl.
    rewrite Nat.eqb_refl. simpl. f_equal.
    + clear Hnb. induction a as [|u a IH]; simpl; [done|].
      destruct (Nat.eqb_spec (tid u) (tid t)) as [E|_]; simpl.
      * destruct Hna. simpl. rewrite E. apply list_elem_of_here.
      * f_equal. apply IH. intros Hin. apply Hna. simpl.
        by apply list_elem_of_further.
    + clear Hna. induction b as [|u b IH]; simpl; [done|].
      destruct (Nat.eqb_spec (tid u) (tid t)) as [E|_]; simpl.
      * destruct Hnb. simpl. rewrite E. apply list_elem_of_here.
      * f_equal. apply IH. intros Hin. apply Hnb. simpl.
        by apply list_elem_of_further.
Qed.

Lemma fire_taken w a t b :
  timers (env w) = a ++ t :: b → NoDup (map tid (timers (env w))) →
  fire (tid t) w = runCallback (action t) (taken t (a ++ b) w).
Proof.
  intros E Hnd. rewrite E in Hnd.
  destruct (findTimer_unique a t b Hnd) as [Hf Hd].
  unfold fire, taken, withEnv. cbv beta. rewrite E, Hf, Hd. reflexivity.
Qed.

Lemma keysOf_app ts1 ts2 : keysOf (ts1 ++ ts2) = keysOf ts1 ++ keysOf ts2.
Proof. apply List.filter_app. Qed.

Lemma keysOf_inert ts :
  Forall (λ t, inert (action t) = true) ts → keysOf ts = [].
Proof.
  induction 1 as [|t ts Ht _ IH]; simpl; [done|]. by rewrite Ht.
Qed.

Lemma weigh_app cfg M ts1 ts2 :
  weigh cfg M (ts1 ++ ts2) = (weigh cfg M ts1 + weigh cfg M ts2)%nat.
Proof.
  unfold weigh. induction ts1 as [|t ts1 IH]; simpl; [done|].
  rewrite IH. lia.
Qed.
Section Undisturbed.

Variables (cfg : config_t) (hs : handlers_t) (st : option Z) (M : nat).
Implicit Type l : loop.

Lemma settled_grows w w' new ids evs :
  settled cfg hs st M w → grows w w' new ids evs → settled cfg hs st M w'.
Proof.
  intros [Hc Hh Hsl Hst Hnd Hfr Hdue] G.
  pose proof (grows_timers _ _ _ _ _ G) as Gt.
  pose proof (grows_ids _ _ _ _ _ G) as Gi.
  pose proof (grows_next _ _ _ _ _ G) as Gn.
  split.
  - by rewrite (grows_config _ _ _ _ _ G).
  - by rewrite (grows_handlers _ _ _ _ _ G).
  - by rewrite (grows_slides _ _ _ _ _ G).
  - by rewrite (grows_startTime _ _ _ _ _ G).
  - rewrite Gt, map_app, Gi. apply NoDup_app.
    split; [done|]. split; [|apply NoDup_seq].
    intros x Hx Hx'. apply list_elem_of_In, in_map_iff in Hx as (t & <- & Ht).
    apply list_elem_of_In in Ht.
    rewrite Forall_forall in Hfr. specialize (Hfr t Ht).
    apply elem_of_seq in Hx'. lia.
  - rewrite Gt, Gn. apply Forall_app. split.
    + eapply Forall_impl; [exact Hfr|]. simpl. intros; lia.
    + apply Forall_forall. intros t Ht.
      assert (H : tid t ∈ map tid new)
        by (apply list_elem_of_In, in_map, list_elem_of_In, Ht).
      rewrite Gi in H. apply elem_of_seq in H. lia.
  - rewrite Gt, (grows_clock _ _ _ _ _ G). apply Forall_app.
    split; [done | apply (grows_due _ _ _ _ _ G)].
Qed.

Lemma settled_withState f w :
  settled cfg hs st M w → startTime (f (state w)) = startTime (state w) →
  settled cfg hs st M (withState f w).
Proof.
  intros [Hc Hh Hsl Hst Hnd Hfr Hdue] H. split; try done. simpl. congruence.
Qed.

Lemma Forall_app_cons {A} (P : A → Prop) a (t : A) b :
  Forall P (a ++ t :: b) → P t ∧ Forall P (a ++ b).
Proof.
  rewrite !Forall_app, Forall_cons. tauto.
Qed.

(** The browser takes the timer that is due first. *)
Lemma settled_taken w a t b :
  settled cfg hs st M w → timers (env w) = a ++ t :: b →
  Forall (λ u, due t ≤ due u) (timers (env w)) →
  settled cfg hs st M (taken t (a ++ b) w)
  ∧ clock (env (taken t (a ++ b) w)) = due t.
Proof.
  intros [Hcf Hh Hsl Hst Hnd Hfr Hdue] E Hmin. rewrite E in *.
  apply Forall_app_cons in Hdue as [Hdt _].
  apply Forall_app_cons in Hfr as [_ Hfr].
  apply Forall_app_cons in Hmin as [_ Hmin].
  assert (Hc : Z.max (clock (env w)) (due t) = due t) by lia.
  split; [|exact Hc]. split; try done; simpl.
  - rewrite map_app in *. simpl in Hnd.
    apply NoDup_app in Hnd as (Ha & Hdis & Hb).
    apply NoDup_cons in Hb as [_ Hb]. apply NoDup_app.
    split; [done|]. split; [|done].
    intros x Hx Hx'. apply (Hdis x Hx). by apply list_elem_of_further.
  - by rewrite Hc.
Qed.

Lemma playing_grows w w' new ids evs :
  grows w w' new ids evs → playing w' = playing w.
Proof.
  intros G. pose proof (grows_flags _ _ _ _ _ G) as Hf.
  unfold flagsOf in Hf. unfold playing. congruence.
Qed.

Lemma keyValid_playing l w w' k :
  playing w' = playing w → keyValid cfg l w k → keyValid cfg l w' k.
Proof.
  unfold keyValid. intros ->. done.
Qed.

(** Growth by timers that touch the page only changes no prospect. *)
Lemma foretold_inert l full w w' new ids :
  foretold cfg hs st M l full w → grows w w' new ids [] →
  Forall (λ t, inert (action t) = true) new →
  foretold cfg hs st M l full w'
  ∧ potential cfg M w' = (potential cfg M w + weigh cfg M new)%nat.
Proof.
  intros [Hs Hk] G Hnew. split; [split|].
  - eapply settled_grows; eassumption.
  - rewrite (grows_timers _ _ _ _ _ G), keysOf_app, (keysOf_inert new Hnew),
      app_nil_r, (grows_log _ _ _ _ _ G). simpl. rewrite app_nil_r.
    destruct Hk as [Hk|(k & Hk & Hv & Hf)]; [by left|].
    right. exists k. split; [done|]. split; [|done].
    eapply keyValid_playing; [|exact Hv]. eapply playing_grows; exact G.
  - unfold potential. by rewrite (grows_timers _ _ _ _ _ G), weigh_app.
Qed.

(** Growth by such timers and one timer that matters. *)
Lemma foretold_key l w w' new k ids evs :
  settled cfg hs st M w → keysOf (timers (env w)) = [] →
  grows w w' (new ++ [k]) ids evs →
  Forall (λ t, inert (action t) = true) new →
  inert (action k) = false → keyValid cfg l w' k →
  foretold cfg hs st M l
    (log (env w) ++ stamped (clock (env w)) evs ++ futureOf cfg hs st l k) w'
  ∧ potential cfg M w'
    = (potential cfg M w + weigh cfg M new + weight cfg M (action k))%nat.
Proof.
  intros Hs Hk G Hnew Hkey Hv. split; [split|].
  - eapply settled_grows; eassumption.
  - right. exists k. split; [|split; [done|]].
    + rewrite (grows_timers _ _ _ _ _ G), !keysOf_app, Hk,
        (keysOf_inert new Hnew). simpl. by rewrite Hkey.
    + rewrite (grows_log _ _ _ _ _ G). by rewrite <- app_assoc.
  - unfold potential.
    rewrite (grows_timers _ _ _ _ _ G), !weigh_app. unfold weigh. simpl. lia.
Qed.

Lemma foretold_quiet l w :
  settled cfg hs st M w → keysOf (timers (env w)) = [] →
  foretold cfg hs st M l (log (env w)) w.
Proof. intros Hs Hk. split; [done|]. by left. Qed.


Lemma foretold_eq l full full' w :
  foretold cfg hs st M l full w → full = full' →
  foretold cfg hs st M l full' w.
Proof. by intros H <-. Qed.


(** *** The fallback, once begun, goes on *)

Lemma errored_app a b : errored (a ++ b) = errored a || errored b.
Proof. apply existsb_app. Qed.

Lemma errored_stamped t evs :
  errored (stamped t evs) = existsb isFallbackError evs.
Proof.
  unfold errored, stamped. induction evs as [|e evs IH]; simpl; [done|].
  by rewrite IH.
Qed.

Lemma errored_grows w w' new ids evs :
  grows w w' new ids evs →
  errored (log (env w'))
  = errored (log (env w)) || existsb isFallbackError evs.
Proof.
  intros G.
  by rewrite (grows_log _ _ _ _ _ G), errored_app, errored_stamped.
Qed.

Lemma keysOf_nil ts :
  keysOf ts = [] → Forall (λ t, inert (action t) = true) ts.
Proof.
  induction ts as [|t ts IH]; simpl; [constructor|].
  destruct (inert (action t)) eqn:E; simpl; [|done].
  intros H. constructor; [done | by apply IH].
Qed.

Lemma keepsRevealed_same w w' :
  slides (elements w') = slides (elements w) → keepsRevealed w w'.
Proof. intros E k sl' H. rewrite E in H. by exists sl'. Qed.

Lemma keepsRevealed_onSlide i f w :
  (∀ sl, revealedSlide sl → revealedSlide (f sl)) →
  keepsRevealed w (onSlide i f w).
Proof.
  intros Hf. unfold onSlide. destruct (i <? 0); [by apply keepsRevealed_same|].
  intros k sl' H. simpl in H.
  destruct (decide (k = Z.to_nat i)) as [->|Hne].
  - rewrite list_lookup_alter_eq in H.
    destruct (slides (elements w) !! Z.to_nat i) as [sl|]; [|done].
    injection H as <-. exists sl. split; [done | apply Hf].
  - rewrite list_lookup_alter_ne in H by done. by exists sl'.
Qed.

Lemma fallenBack_grows w w' new ids evs :
  fallenBack w → grows w w' new ids evs →
  Forall (λ t, inert (action t) = true ∨ action t = ErrorComplete) new →
  keepsRevealed w w' →
  fallenBack w'.
Proof.
  intros [Hall Hrev] G Hnew Hkeep. split.
  - rewrite (grows_timers _ _ _ _ _ G). apply Forall_app. by split.
  - intros k sl' Hk. destruct (Hkeep k sl' Hk) as (sl & Hsl & Hr).
    destruct (Hrev k sl Hsl) as [H|H]; [left; by apply Hr|].
    right. rewrite (grows_timers _ _ _ _ _ G), map_app.
    apply elem_of_app. by left.
Qed.

Lemma fallenBack_withState f w : fallenBack w → fallenBack (withState f w).
Proof. done. Qed.

Lemma inert_or_complete ts :
  Forall (λ t, inert (action t) = true) ts →
  Forall (λ t, inert (action t) = true ∨ action t = ErrorComplete) ts.
Proof. intros H. eapply Forall_impl; [exact H|]. by left. Qed.

(** [handleError] on a quiet queue leaves the component fallen back. *)
Lemma fallenBack_handleError w :
  Forall (λ t, inert (action t) = true) (timers (env w)) →
  fallenBack (handleError w).
Proof.
  intros Hq. destruct (handleError_cases w) as (rs & G & Hrs & _ & Hel).
  assert (Hact : map action rs
                 = map ErrorReveal (seq 0 (length (slides (elements w))))).
  { apply (f_equal (map snd)) in Hrs. rewrite !map_map in Hrs. exact Hrs. }
  split.
  - rewrite (grows_timers _ _ _ _ _ G). simpl.
    apply Forall_app. split; [by apply inert_or_complete|].
    apply Forall_app. split; [|by repeat constructor].
    apply Forall_forall. intros t Ht. left.
    assert (H : action t ∈ map action rs)
      by (apply list_elem_of_In, in_map, list_elem_of_In, Ht).
    rewrite Hact in H. apply list_elem_of_In, in_map_iff in H as (k & <- & _).
    reflexivity.
  - intros k sl Hk. right. rewrite Hel in Hk.
    apply lookup_lt_Some in Hk.
    rewrite (grows_timers _ _ _ _ _ G), !map_app, Hact.
    apply elem_of_app. right. apply elem_of_app. left.
    apply list_elem_of_In, in_map, list_elem_of_In, elem_of_seq. lia.
Qed.

Lemma complete_slides w :
  slides (elements (worldOf (complete w))) = slides (elements w).
Proof.
  unfold complete. simpl.
  by destruct (onSequenceComplete (eventHandlers w)) as [[|]|].
Qed.

Lemma fallenBack_complete w :
  fallenBack w → fallenBack (worldOf (complete w)).
Proof.
  intros H. destruct (complete_cases w) as (G & _ & _).
  eapply fallenBack_grows; [|exact G| |].
  - by apply fallenBack_withState.
  - destruct (onSequenceComplete (eventHandlers w)) as [[|]|];
      try constructor; try (by left); constructor.
  - apply keepsRevealed_same. exact (complete_slides w).
Qed.

Lemma createFloatingHeart_slides j w :
  slides (elements (createFloatingHeart j w))
  = slides (elements (onSlide j (λ sl, mkSlide (active sl) (exiting sl)
              (visibility sl) (opacity sl) (transition sl)
              (heartsContainer sl) (S (hearts sl))) w)).
Proof.
  unfold createFloatingHeart, onSlide. simpl. by destruct (j <? 0).
Qed.

(** Taking a timer that reveals no slide. *)
Lemma fallenBack_taken w a t b :
  fallenBack w → timers (env w) = a ++ t :: b →
  (∀ k, action t ≠ ErrorReveal k) →
  fallenBack (taken t (a ++ b) w).
Proof.
  intros [Hall Hrev] E Hne. rewrite E in Hall.
  apply Forall_app_cons in Hall as [_ Hall]. split; [exact Hall|].
  intros k sl Hk. destruct (Hrev k sl Hk) as [H|H]; [by left|]. right.
  rewrite E, map_app in H. simpl in H |- *. rewrite map_app.
  apply elem_of_app in H as [H|H]; [apply elem_of_app; by left|].
  apply elem_of_cons in H as [H|H]; [by destruct (Hne k)|].
  apply elem_of_app. by right.
Qed.

(** Whatever timer fires once the component has fallen back, it stays
    fallen back. *)
Lemma fallenBack_fired w a t b :
  fallenBack w → timers (env w) = a ++ t :: b →
  fallenBack (runCallback (action t) (taken t (a ++ b) w)).
Proof.
  intros [Hall Hrev] E. rewrite E in Hall.
  apply Forall_app_cons in Hall as [Ht Hall].
  set (w1 := taken t (a ++ b) w).
  assert (Hrev1 : ∀ k sl, slides (elements w1) !! k = Some sl →
            revealedSlide sl ∨ ErrorReveal k ∈ map action (timers (env w1))
            ∨ action t = ErrorReveal k).
  { intros k sl Hk. destruct (Hrev k sl Hk) as [H|H]; [by left|]. right.
    rewrite E, map_app in H. simpl in H.
    apply elem_of_app in H as [H|H].
    - left. simpl. rewrite map_app. apply elem_of_app. by left.
    - apply elem_of_cons in H as [H|H]; [by right|].
      left. simpl. rewrite map_app. apply elem_of_app. by right. }
  assert (Hfb : (∀ k, action t ≠ ErrorReveal k) → fallenBack w1).
  { intros Hne. split; [exact Hall|]. intros k sl Hk.
    destruct (Hrev1 k sl Hk) as [H|[H|H]]; [by left | by right|].
    by destruct (Hne k). }
  destruct (action t) as [j prev [l' i|]|l' j|l'| | |k| |j|j] eqn:Ea;
    try (by destruct Ht); cbn [runCallback uncaught].
  - eapply fallenBack_grows; [by apply Hfb | apply grows_hide| |].
    + destruct (section (elements w1)); [|constructor].
      constructor; [by left | constructor].
    + apply keepsRevealed_same. unfold hide.
      by destruct (section (elements w1)).
  - eapply fallenBack_grows; [by apply Hfb | apply grows_hideFinish| |];
      [constructor | by apply keepsRevealed_same].
  - assert (Hk0 : (Z.of_nat k <? 0) = false) by (apply Z.ltb_ge; lia).
    unfold errorReveal, onSlide. rewrite Hk0. split; [exact Hall|].
    intros k' sl' Hk'. simpl in Hk'. rewrite Nat2Z.id in Hk'.
    destruct (decide (k' = k)) as [->|Hne].
    + rewrite list_lookup_alter_eq in Hk'.
      destruct (slides (elements w) !! k) as [sl|]; [|done].
      injection Hk' as <-. by left.
    + rewrite list_lookup_alter_ne in Hk' by done.
      destruct (Hrev1 k' sl' Hk') as [H|[H|H]]; [by left | by right|].
      injection H as H. by destruct Hne.
  - apply fallenBack_complete. by apply Hfb.
  - eapply fallenBack_grows;
      [by apply Hfb | apply grows_createFloatingHeart| |].
    + constructor; [by left | constructor].
    + intros k sl' Hk. rewrite createFloatingHeart_slides in Hk.
      revert k sl' Hk. apply keepsRevealed_onSlide.
      by intros sl (? & ? & ?).
  - eapply fallenBack_grows; [by apply Hfb | apply grows_removeHeart| |];
      [constructor|].
    apply keepsRevealed_onSlide. by intros sl (? & ? & ?).
Qed.

(** *** The stages of the sequence *)

(** Growth from a quiet queue by timers that touch the page only. *)
Lemma foretold_quiet_grows l w w' new ids evs :
  settled cfg hs st M w → keysOf (timers (env w)) = [] →
  grows w w' new ids evs →
  Forall (λ t, inert (action t) = true) new →
  foretold cfg hs st M l (log (env w) ++ stamped (clock (env w)) evs) w'
  ∧ potential cfg M w' = (potential cfg M w + weigh cfg M new)%nat.
Proof.
  intros Hs Hk G Hnew. split; [split|].
  - eapply settled_grows; eassumption.
  - left. rewrite (grows_timers _ _ _ _ _ G), keysOf_app, Hk,
      (keysOf_inert new Hnew). split; [done|]. apply (grows_log _ _ _ _ _ G).
  - unfold potential. by rewrite (grows_timers _ _ _ _ _ G), weigh_app.
Qed.

Lemma foreseen_eq l full full' w :
  foreseen cfg hs st M l full w → full = full' →
  foreseen cfg hs st M l full' w.
Proof. by intros H <-. Qed.

(** Where the fallback has not begun, there is nothing to show for it. *)
Lemma foreseen_unerrored l full w :
  foretold cfg hs st M l full w → errored (log (env w)) = false →
  foreseen cfg hs st M l full w.
Proof. intros H He. split; [exact H|]. congruence. Qed.

Lemma settle_Finished l w : settle l (Finished w) = w.
Proof. by destruct l. Qed.

Lemma settle_Suspended l w : settle l (Suspended w) = w.
Proof. by destruct l. Qed.

Lemma messageCount_settled w :
  settled cfg hs st M w → messageCount w = count cfg.
Proof. intros Hs. unfold messageCount, count. by rewrite (settled_config _ _ _ _ _ Hs). Qed.

Lemma slideCount_settled w :
  settled cfg hs st M w → slideCount w = Z.of_nat M.
Proof. intros Hs. unfold slideCount. by rewrite (settled_slides _ _ _ _ _ Hs). Qed.

Lemma slideData_settled j w :
  settled cfg hs st M w → slideData j w = dataOf cfg j.
Proof.
  intros Hs. unfold slideData, dataOf, message.
  by rewrite (settled_config _ _ _ _ _ Hs).
Qed.

Lemma elapsed_settled w :
  settled cfg hs st M w → elapsed w = clock (env w) - default 0 st.
Proof. intros Hs. unfold elapsed. by rewrite (settled_startTime _ _ _ _ _ Hs). Qed.

Lemma weigh_reveals rs (f : nat → Z) n :
  map (λ t, (due t, action t)) rs = map (λ k, (f k, ErrorReveal k)) (seq 0 n) →
  weigh cfg M rs = n ∧ Forall (λ t, inert (action t) = true) rs.
Proof.
  generalize 0%nat as i. revert rs.
  induction n as [|n IH]; intros rs i H; simpl in H.
  - destruct rs; [|done]. split; [done | constructor].
  - destruct rs as [|t rs]; [done|]. simpl in H.
    injection H as Hd Ha Hrs. destruct (IH rs (S i) Hrs) as [Hw Hi].
    split.
    + unfold weigh in *. simpl. rewrite Ha, Hw. reflexivity.
    + constructor; [by rewrite Ha | done].
Qed.


(** A throw inside the loop. *)
Lemma foreseen_failure l w :
  settled cfg hs st M w → keysOf (timers (env w)) = [] →
  errored (log (env w)) = false →
  foreseen cfg hs st M l
    (log (env w) ++ failure cfg hs st l (clock (env w)))
    (settle l (Rejected w))
  ∧ (potential cfg M (settle l (Rejected w))
     ≤ potential cfg M w + failWeight M)%nat.
Proof.
  intros Hs Hk He. destruct l; simpl.
  - set (w1 := emit (ConsoleError "Error during slide sequence:") w).
    assert (G1 : grows w w1 [] [] [ConsoleError "Error during slide sequence:"])
      by apply grows_emit.
    assert (Hs1 : settled cfg hs st M w1) by (eapply settled_grows; eassumption).
    destruct (handleError_cases w1) as (rs & G & Hrs & _).
    apply weigh_reveals in Hrs as [Hw Hin].
    assert (Hs2 : settled cfg hs st M (withState (setIsPlaying false) w1))
      by (by apply settled_withState).
    destruct (foretold_key PlaySequence _ _ _ _ _ _ Hs2 Hk G Hin eq_refl I)
      as [Hf Hp].
    split; [split|].
    + eapply foretold_eq; [exact Hf|].
      simpl. rewrite <- app_assoc. simpl.
      by rewrite (messageCount_settled w1 Hs1).
    + intros _. apply fallenBack_handleError. by apply keysOf_nil.
    + rewrite Hp, Hw. unfold failWeight, potential. simpl.
      rewrite (settled_slides _ _ _ _ _ Hs). lia.
  - split; [|lia]. rewrite app_nil_r.
    apply foreseen_unerrored; [by apply foretold_quiet | exact He].
Qed.

Lemma complete_errored w :
  errored (log (env (worldOf (complete w)))) = errored (log (env w)).
Proof.
  destruct (complete_cases w) as (G & _ & _).
  rewrite (errored_grows _ _ _ _ _ G). simpl.
  destruct (onSequenceComplete (eventHandlers w)) as [[|]|]; simpl;
    by rewrite orb_false_r.
Qed.

(** [complete()] called from a bare timer callback. *)
Lemma foreseen_complete_uncaught l w :
  settled cfg hs st M w → keysOf (timers (env w)) = [] →
  (errored (log (env w)) = true → fallenBack w) →
  foreseen cfg hs st M l
    (log (env w) ++ completion cfg hs st (clock (env w)))
    (worldOf (complete w))
  ∧ (potential cfg M (worldOf (complete w)) ≤ potential cfg M w + 2)%nat.
Proof.
  intros Hs Hk Hfb. destruct (complete_cases w) as (G & _ & _).
  assert (Hs1 : settled cfg hs st M (withState completedFlags w))
    by (by apply settled_withState).
  assert (Hin : Forall (λ t, inert (action t) = true)
            (if match onSequenceComplete (eventHandlers w) with
                | Some true => true
                | _ => false
                end
             then []
             else [mkTimer (nextTimerId (env w)) (clock (env w) + 1000)
                     HideCallback])).
  { destruct (onSequenceComplete (eventHandlers w)) as [[|]|];
      repeat constructor. }
  destruct (foretold_quiet_grows l _ _ _ _ _ Hs1 Hk G Hin) as [Hf Hp].
  split; [split|].
  - eapply foretold_eq; [exact Hf|].
    unfold completion, completionThrows.
    rewrite <- (settled_handlers _ _ _ _ _ Hs),
      <- (elapsed_settled w Hs), <- (messageCount_settled w Hs).
    reflexivity.
  - rewrite complete_errored. intros He.
    apply fallenBack_complete. by apply Hfb.
  - rewrite Hp. unfold potential. simpl.
    destruct (onSequenceComplete (eventHandlers w)) as [[|]|];
      unfold weigh; simpl; lia.
Qed.

Lemma complete_keys w :
  keysOf (timers (env w)) = [] →
  keysOf (timers (env (worldOf (complete w)))) = [].
Proof.
  intros Hk. destruct (complete_cases w) as (G & _ & _).
  rewrite (grows_timers _ _ _ _ _ G), keysOf_app. simpl. rewrite Hk.
  by destruct (onSequenceComplete (eventHandlers w)) as [[|]|].
Qed.

(** [complete()] called by the loop. *)
Lemma foreseen_complete l w :
  settled cfg hs st M w → keysOf (timers (env w)) = [] →
  errored (log (env w)) = false →
  foreseen cfg hs st M l
    (log (env w) ++ completing cfg hs st l (clock (env w)))
    (settle l (complete w))
  ∧ (potential cfg M (settle l (complete w))
     ≤ potential cfg M w + 2 + failWeight M)%nat.
Proof.
  intros Hs Hk He.
  destruct (foreseen_complete_uncaught l w Hs Hk) as [Hf Hp]; [congruence|].
  destruct (complete_cases w) as (G & _ & E).
  assert (Hth : match onSequenceComplete (eventHandlers w) with
                | Some true => true
                | _ => false
                end = completionThrows hs).
  { unfold completionThrows. by rewrite (settled_handlers _ _ _ _ _ Hs). }
  rewrite Hth in E. unfold completing. rewrite E.
  destruct (completionThrows hs).
  - destruct Hf as [[Hs' Hf'] _].
    destruct (foreseen_failure l (worldOf (complete w)) Hs' (complete_keys w Hk))
      as [Hf2 Hp2]; [by rewrite complete_errored|].
    destruct Hf' as [[_ Hlog]|(k & Hkk & _)];
      [|by rewrite (complete_keys w Hk) in Hkk].
    rewrite Hlog, (grows_clock _ _ _ _ _ G) in Hf2. simpl in Hf2.
    rewrite <- app_assoc in Hf2. split; [exact Hf2 | lia].
  - rewrite settle_Finished, app_nil_r. split; [exact Hf | lia].
Qed.

(** The loop below its [for]. *)
Lemma foreseen_loopEnd l w :
  settled cfg hs st M w → keysOf (timers (env w)) = [] → playing w = true →
  errored (log (env w)) = false →
  foreseen cfg hs st M l
    (log (env w) ++ completing cfg hs st l (clock (env w) + trail cfg l))
    (settle l (loopEnd l w))
  ∧ (potential cfg M (settle l (loopEnd l w))
     ≤ potential cfg M w + trailWeight M)%nat.
Proof.
  intros Hs Hk Hp He. unfold loopEnd. fold (playing w). rewrite Hp.
  rewrite settle_Suspended.
  destruct (foretold_key l w _ [] _ _ [] Hs Hk
              (grows_wait (trailingDelay l w) (LoopBeforeComplete l) w)
              (List.Forall_nil _) eq_refl) as [Hf Hpo].
  { unfold keyValid. simpl. split; [done|]. exact Hp. }
  split; [apply foreseen_unerrored|].
  - simpl in Hf. unfold futureOf in Hf. simpl in Hf.
    replace (Z.max 0 (trailingDelay l w)) with (trail cfg l) in Hf; [exact Hf|].
    unfold trail, trailingDelay. by rewrite (settled_config _ _ _ _ _ Hs).
  - exact He.
  - rewrite Hpo. unfold weigh. simpl. lia.
Qed.

Lemma showing_unfold l r j t :
  showing cfg hs st l r j t
  = stamped t (observed (onSlideStart hs) (OnSlideStart (dataOf cfg j)))
    ++ (if throwsAt (onSlideStart hs) j then failure cfg hs st l t
        else shown cfg hs st l r j (t + fade cfg)).
Proof. destruct r; reflexivity. Qed.

Lemma stamped_app t e1 e2 : stamped t (e1 ++ e2) = stamped t e1 ++ stamped t e2.
Proof. apply map_app. Qed.

Lemma weigh_hearts j (hearts : list timer) :
  Forall (λ t, action t = HeartSpawn j) hearts →
  weigh cfg M hearts = (2 * length hearts)%nat
  ∧ Forall (λ t, inert (action t) = true) hearts.
Proof.
  induction 1 as [|t ts Ht _ [IH1 IH2]]; [split; [done|constructor]|].
  split.
  - unfold weigh in *. simpl. rewrite Ht, IH1. simpl. lia.
  - constructor; [by rewrite Ht | done].
Qed.


(** There is a slide element for every message. *)
Hypothesis enough : count cfg ≤ Z.of_nat M.

Lemma observed_unerrored {A} (h : option A) e :
  isFallbackError e = false → existsb isFallbackError (observed h e) = false.
Proof. intros H. destruct h; simpl; [by rewrite H | done]. Qed.

(** The loop entered at index [i]. *)
Lemma foreseen_enter l i w :
  settled cfg hs st M w → keysOf (timers (env w)) = [] → playing w = true →
  errored (log (env w)) = false →
  0 ≤ i →
  foreseen cfg hs st M l
    (log (env w) ++ timeline cfg hs st l i (clock (env w)))
    (settle l (loopFrom l i w))
  ∧ (potential cfg M (settle l (loopFrom l i w))
     ≤ potential cfg M w + enterWeight cfg M i)%nat.
Proof.
  intros Hs Hk Hp He Hi.
  pose proof (loopFrom_cases l i w) as Hc.
  rewrite (messageCount_settled w Hs), (slideCount_settled w Hs),
    (settled_handlers _ _ _ _ _ Hs), (slideData_settled i w Hs) in Hc.
  unfold timeline, enterWeight.
  destruct (loopFrom l i w) as [w'|w'|w'].
  - destruct Hc as [_ Hc]. congruence.
  - rewrite settle_Suspended.
    destruct Hc as (_ & [(HN & HM & Ht & Hcur & hearts & G & Hlen & Hact)
                        |[(HN & HM & _)|(HN & ->)]]).
    + destruct (weigh_hearts i hearts Hact) as [Hwh Hin].
      destruct (foretold_key l w w' hearts _ _ _ Hs Hk G Hin eq_refl)
        as [Hf Hpo].
      { unfold keyValid. simpl. split; [done|]. split; [done|].
        split; [lia|]. by rewrite (playing_grows _ _ _ _ _ G). }
      destruct (Z.leb_spec (count cfg) i); [lia|].
      split; [apply foreseen_unerrored|].
      * eapply foretold_eq; [exact Hf|]. f_equal.
        rewrite showing_unfold, Ht. unfold futureOf. simpl.
        by rewrite (settled_config _ _ _ _ _ Hs).
      * rewrite (errored_grows _ _ _ _ _ G), He. simpl.
        by apply observed_unerrored.
      * rewrite Hpo, Hwh. simpl. unfold showingWeight. lia.
    + lia.
    + destruct (Z.leb_spec (count cfg) i); [|lia].
      pose proof (foreseen_loopEnd l w Hs Hk Hp He) as Hend.
      unfold loopEnd in Hend. fold (playing w) in Hend. rewrite Hp in Hend.
      by rewrite settle_Suspended in Hend.
  - destruct Hc as (_ & HN & HM & Ht & G & _).
    destruct (Z.leb_spec (count cfg) i); [lia|].
    assert (Hs' : settled cfg hs st M w') by (eapply settled_grows; eassumption).
    assert (Hk' : keysOf (timers (env w')) = []).
    { by rewrite (grows_timers _ _ _ _ _ G), app_nil_r. }
    destruct (foreseen_failure l w' Hs' Hk') as [Hf Hpo].
    { rewrite (errored_grows _ _ _ _ _ G), He. reflexivity. }
    split.
    + eapply foreseen_eq; [exact Hf|].
      rewrite (grows_log _ _ _ _ _ G), (grows_clock _ _ _ _ _ G),
        <- app_assoc. f_equal.
      rewrite showing_unfold, Ht. f_equal.
      unfold throwsAt in Ht. by destruct (onSlideStart hs).
    + assert (potential cfg M w' = potential cfg M w).
      { unfold potential. by rewrite (grows_timers _ _ _ _ _ G), app_nil_r. }
      unfold showingWeight. lia.
Qed.

(** The loop after [await this.showSlide(j)]. *)
Lemma foreseen_afterShow l j w :
  settled cfg hs st M w → keysOf (timers (env w)) = [] → playing w = true →
  errored (log (env w)) = false →
  0 ≤ j < count cfg →
  foreseen cfg hs st M l
    (log (env w)
     ++ afterShown cfg hs st l (Z.to_nat (count cfg - 1 - j)) j (clock (env w)))
    (settle l (afterShow l j w))
  ∧ (potential cfg M (settle l (afterShow l j w))
     ≤ potential cfg M w
       + match Z.to_nat (count cfg - 1 - j) with
         | O => trailWeight M
         | S r => 1 + showingWeight M r
         end)%nat.
Proof.
  intros Hs Hk Hp He Hj. rewrite afterShow_loopFrom.
  rewrite (messageCount_settled w Hs).
  destruct (Z.ltb_spec j (count cfg - 1)) as [Hlt|Hge].
  - rewrite settle_Suspended.
    destruct (Z.to_nat (count cfg - 1 - j)) as [|r] eqn:Er; [lia|].
    assert (Hr : r = Z.to_nat (count cfg - 2 - j)) by lia.
    destruct (foretold_key l w _ [] _ _ [] Hs Hk
                (grows_wait (slideDelay (config w)) (LoopAfterDelay l j) w)
                (List.Forall_nil _) eq_refl) as [Hf Hpo].
    { unfold keyValid. simpl. split; [done|]. split; [lia|exact Hp]. }
    split; [apply foreseen_unerrored|].
    + eapply foretold_eq; [exact Hf|]. simpl. unfold futureOf. simpl.
      rewrite <- Hr. unfold pace. by rewrite (settled_config _ _ _ _ _ Hs).
    + exact He.
    + rewrite Hpo. unfold weigh. simpl. rewrite <- Hr. lia.
  - replace (Z.to_nat (count cfg - 1 - j)) with 0%nat by lia.
    destruct (foreseen_enter l (j + 1) w Hs Hk Hp He ltac:(lia)) as [Hf Hpo].
    unfold timeline, enterWeight in *.
    destruct (Z.leb_spec (count cfg) (j + 1)); [|lia].
    split; [exact Hf | exact Hpo].
Qed.

(** *** One timer fires *)

Lemma shownWeight_lower r : (1 + failWeight M ≤ shownWeight M r)%nat.
Proof. destruct r; simpl; lia. Qed.

(** The world in which the next timer's callback runs. *)
Lemma foretold_taken l full w a t b :
  foretold cfg hs st M l full w → timers (env w) = a ++ t :: b →
  Forall (λ u, due t ≤ due u) (timers (env w)) →
  let w1 := taken t (a ++ b) w in
  settled cfg hs st M w1 ∧ clock (env w1) = due t
  ∧ potential cfg M w = (potential cfg M w1 + weight cfg M (action t))%nat
  ∧ if inert (action t) then foretold cfg hs st M l full w1
    else keysOf (timers (env w1)) = [] ∧ keyValid cfg l w1 t
         ∧ log (env w1) ++ futureOf cfg hs st l t = full.
Proof.
  intros [Hs Hk] E Hmin. cbv zeta.
  destruct (settled_taken w a t b Hs E Hmin) as [Hs1 Hc1].
  split; [exact Hs1|]. split; [exact Hc1|]. split.
  { unfold potential. rewrite E. simpl. rewrite !weigh_app. unfold weigh.
    simpl. lia. }
  rewrite E, keysOf_app in Hk. simpl in Hk.
  destruct (inert (action t)) eqn:Hin; simpl in Hk.
  - split; [exact Hs1|]. simpl. rewrite keysOf_app.
    destruct Hk as [Hk|(k & Hk & Hv & Hf)]; [by left|].
    right. exists k. done.
  - destruct Hk as [[Hk _]|(k & Hk & Hv & Hf)].
    { by destruct (keysOf a). }
    simpl. rewrite keysOf_app.
    destruct (keysOf a) as [|x [|y xs]]; simpl in Hk.
    + injection Hk as <- Hb. rewrite Hb. done.
    + by destruct (keysOf b).
    + done.
Qed.

(** A timer that touches the page only fires. *)
Lemma foreseen_fired_inert l full w a t b :
  foreseen cfg hs st M l full w → timers (env w) = a ++ t :: b →
  foretold cfg hs st M l full (taken t (a ++ b) w) → ∀ w' new ids,
  runCallback (action t) (taken t (a ++ b) w) = w' →
  grows (taken t (a ++ b) w) w' new ids [] →
  Forall (λ t, inert (action t) = true) new →
  foreseen cfg hs st M l full w'
  ∧ potential cfg M w'
    = (potential cfg M (taken t (a ++ b) w) + weigh cfg M new)%nat.
Proof.
  intros [_ Hfb] E H1 w' new ids Hrun G Hnew.
  destruct (foretold_inert l full _ _ _ _ H1 G Hnew) as [Hf ->].
  split; [|done]. split; [exact Hf|].
  rewrite (errored_grows _ _ _ _ _ G). simpl. rewrite orb_false_r.
  intros He. rewrite <- Hrun. apply fallenBack_fired; [|exact E].
  by apply Hfb.
Qed.

(** The timer that is due first fires: the prospect stays, fewer
    timers are to come. *)
Lemma foreseen_fire l full w t :
  foreseen cfg hs st M l full w → earliest (timers (env w)) = Some t →
  foreseen cfg hs st M l full (fire (tid t) w)
  ∧ (potential cfg M (fire (tid t) w) < potential cfg M w)%nat.
Proof.
  intros Hf He. apply earliest_Some in He as [Hin Hmin].
  apply list_elem_of_split in Hin as (a & b & E).
  rewrite (fire_taken w a t b E (settled_nodup _ _ _ _ _ (proj1 (proj1 Hf)))).
  destruct (foretold_taken l full w a t b (proj1 Hf) E Hmin)
    as (Hs1 & Hc1 & Hpo & H).
  pose proof (foreseen_fired_inert l full w a t b) as Hinert.
  specialize (Hinert Hf E).
  (* while a loop is alive the fallback has not begun *)
  assert (Hloop : resumesLoop (action t) = true →
                  errored (log (env (taken t (a ++ b) w))) = false).
  { intros Hr. simpl. destruct (errored (log (env w))) eqn:Herr; [|done].
    destruct (proj2 Hf Herr) as [Hall _]. rewrite E in Hall.
    apply Forall_app_cons in Hall as [[Ht|Ht] _].
    - destruct (action t) as [? ? []| | | | | | | |]; simpl in *; congruence.
    - rewrite Ht in Hr. done. }
  set (w1 := taken t (a ++ b) w) in *. rewrite Hpo.
  destruct (action t) as [j prev [l' i|]|l' j|l'| | |k| |j|j] eqn:Ea;
    simpl in H; cbn [runCallback uncaught weight].
  - (* the transition of slide [j] ends *)
    destruct H as (Hk & Hv & Hfull). unfold keyValid in Hv. rewrite Ea in Hv.
    destruct Hv as (-> & -> & Hj & Hp).
    unfold futureOf in Hfull. rewrite Ea in Hfull.
    specialize (Hloop eq_refl).
    destruct (showSlideRest_cases j prev w1) as (G & _ & Er).
    rewrite (settled_handlers _ _ _ _ _ Hs1), (slideData_settled j w1 Hs1),
      (messageCount_settled w1 Hs1) in G.
    rewrite (settled_handlers _ _ _ _ _ Hs1) in Er.
    fold (progressOf cfg j) in G.
    set (w2 := worldOf (showSlideRest j prev w1)) in *.
    assert (Hs2 : settled cfg hs st M w2) by (eapply settled_grows; eassumption).
    assert (Hk2 : keysOf (timers (env w2)) = []).
    { by rewrite (grows_timers _ _ _ _ _ G), app_nil_r. }
    assert (Hp2 : playing w2 = true) by (by rewrite (playing_grows _ _ _ _ _ G)).
    assert (Hpo2 : potential cfg M w2 = potential cfg M w1).
    { unfold potential. by rewrite (grows_timers _ _ _ _ _ G), app_nil_r. }
    assert (He2 : errored (log (env w2)) = false).
    { rewrite (errored_grows _ _ _ _ _ G), Hloop. simpl.
      rewrite existsb_app, observed_unerrored by done. simpl.
      destruct (throwsAt (onSlideComplete hs) j); [done|].
      by apply observed_unerrored. }
    pose proof (shownWeight_lower (Z.to_nat (count cfg - 1 - j))) as Hlow.
    rewrite Er. subst full. unfold shown, shownThen.
    rewrite <- Hc1.
    destruct (throwsAt (onSlideComplete hs) j) eqn:HtC; simpl.
    + destruct (foreseen_failure l w2 Hs2 Hk2 He2) as [Hf2 Hpo2'].
      split; [|lia]. eapply foreseen_eq; [exact Hf2|].
      rewrite (grows_log _ _ _ _ _ G), (grows_clock _ _ _ _ _ G),
        app_nil_r, <- app_assoc. reflexivity.
    + destruct (throwsAt (onProgress hs) j) eqn:HtP; simpl.
      * destruct (foreseen_failure l w2 Hs2 Hk2 He2) as [Hf2 Hpo2'].
        split; [|lia]. eapply foreseen_eq; [exact Hf2|].
        rewrite (grows_log _ _ _ _ _ G), (grows_clock _ _ _ _ _ G),
          stamped_app, <- !app_assoc. reflexivity.
      * destruct (foreseen_afterShow l j w2 Hs2 Hk2 Hp2 He2 Hj)
          as [Hf2 Hpo2'].
        split.
        -- eapply foreseen_eq; [exact Hf2|].
           rewrite (grows_log _ _ _ _ _ G), (grows_clock _ _ _ _ _ G),
             stamped_app, <- !app_assoc. reflexivity.
        -- destruct (Z.to_nat (count cfg - 1 - j)) as [|r]; simpl in *;
             unfold showingWeight in *; lia.
  - by destruct H as (_ & Hv & _); unfold keyValid in Hv; rewrite Ea in Hv.
  - (* the pause between two slides ends *)
    destruct H as (Hk & Hv & Hfull). unfold keyValid in Hv. rewrite Ea in Hv.
    destruct Hv as (-> & Hj & Hp).
    unfold futureOf in Hfull. rewrite Ea in Hfull.
    rewrite afterDelay_loopFrom.
    destruct (foreseen_enter l (j + 1) w1 Hs1 Hk Hp (Hloop eq_refl)
                ltac:(lia)) as [Hf2 Hpo2].
    unfold timeline, enterWeight in *.
    destruct (Z.leb_spec (count cfg) (j + 1)); [lia|].
    replace (count cfg - 1 - (j + 1)) with (count cfg - 2 - j) in * by lia.
    split; [|lia]. subst full. by rewrite <- Hc1.
  - (* the trailing pause ends *)
    destruct H as (Hk & Hv & Hfull). unfold keyValid in Hv. rewrite Ea in Hv.
    destruct Hv as (-> & Hp).
    unfold futureOf in Hfull. rewrite Ea in Hfull.
    destruct (foreseen_complete l w1 Hs1 Hk (Hloop eq_refl)) as [Hf2 Hpo2].
    split; [|unfold trailWeight; lia]. subst full. by rewrite <- Hc1.
  - destruct (Hinert H (hide w1) _ _ eq_refl (grows_hide w1)) as [Hf2 ->].
    { destruct (section (elements w1)); repeat constructor. }
    split; [exact Hf2|].
    destruct (section (elements w1)); unfold weigh; simpl; lia.
  - destruct (Hinert H (hideFinish w1) _ _ eq_refl (grows_hideFinish w1)
                (List.Forall_nil _)) as [Hf2 ->].
    split; [exact Hf2 | unfold weigh; simpl; lia].
  - destruct (Hinert H (errorReveal k w1) _ _ eq_refl (grows_errorReveal k w1)
                (List.Forall_nil _)) as [Hf2 ->].
    split; [exact Hf2 | unfold weigh; simpl; lia].
  - (* the fallback completes *)
    destruct H as (Hk & _ & Hfull).
    unfold futureOf in Hfull. rewrite Ea in Hfull.
    destruct (foreseen_complete_uncaught l w1 Hs1 Hk) as [Hf2 Hpo2].
    { intros Herr. apply fallenBack_taken; [by apply (proj2 Hf) | exact E|].
      intros k. by rewrite Ea. }
    unfold uncaught. split; [|lia]. subst full. by rewrite <- Hc1.
  - destruct (Hinert H (createFloatingHeart j w1) _ _ eq_refl (grows_createFloatingHeart j w1))
      as [Hf2 ->]; [by repeat constructor|].
    split; [exact Hf2 | unfold weigh; simpl; lia].
  - destruct (Hinert H (removeHeart j w1) _ _ eq_refl (grows_removeHeart j w1)
                (List.Forall_nil _)) as [Hf2 ->].
    split; [exact Hf2 | unfold weigh; simpl; lia].
Qed.

(** Left alone for long enough, the sequence comes to rest with exactly
    the foreseen log, and fallen back if [handleError] has run. *)
Lemma foreseen_run l full fuel w :
  foreseen cfg hs st M l full w → (potential cfg M w ≤ fuel)%nat →
  log (env (run fuel w)) = full
  ∧ timers (env (run fuel w)) = []
  ∧ foreseen cfg hs st M l full (run fuel w).
Proof.
  revert w. induction fuel as [|fuel IH]; intros w Hf Hpo.
  - simpl. destruct Hf as [[Hs Hk] Hfb].
    assert (Ht : timers (env w) = []).
    { destruct (timers (env w)) as [|t ts] eqn:E; [done|].
      unfold potential, weigh in Hpo. rewrite E in Hpo. simpl in Hpo.
      destruct (action t) as [? ? []| | | | | | | |]; simpl in Hpo; try lia.
      pose proof (shownWeight_lower (Z.to_nat (count cfg - 1 - index))).
      lia. }
    split; [|split; [exact Ht | done]].
    rewrite Ht in Hk. simpl in Hk.
    destruct Hk as [[_ Hl]|(k & Hk & _)]; [done|done].
  - simpl. destruct (earliest (timers (env w))) as [t|] eqn:E.
    + destruct (foreseen_fire l full w t Hf E) as [Hf' Hpo'].
      apply IH; [exact Hf' | lia].
    + apply earliest_None in E. split; [|split; [exact E | exact Hf]].
      destruct Hf as [[Hs Hk] _].
      rewrite E in Hk. simpl in Hk.
      destruct Hk as [[_ Hl]|(k & Hk & _)]; [done|done].
Qed.

(** Once all is at rest after a fallback, every slide is revealed. *)
Lemma fallenBack_at_rest w :
  fallenBack w → timers (env w) = [] →
  Forall revealedSlide (slides (elements w)).
Proof.
  intros [_ Hrev] Ht. apply Forall_lookup. intros k sl Hk.
  destruct (Hrev k sl Hk) as [H|H]; [done|].
  rewrite Ht in H. simpl in H. by apply elem_of_nil in H.
Qed.
End Undisturbed.
(** ** Entering a loop *)

Lemma quiet_settled w :
  quiet w →
  settled (config w) (eventHandlers w) (startTime (state w))
    (length (slides (elements w))) w
  ∧ keysOf (timers (env w)) = [].
Proof.
  intros (Hn & Hall & _). split.
  - split; try done.
    + eapply Forall_impl; [exact Hall|]. by intros t (_ & ? & _).
    + eapply Forall_impl; [exact Hall|]. by intros t (_ & _ & ?).
  - unfold keysOf. induction Hall as [|t ts (Ht & _) _ IH]; [done|].
    simpl. rewrite Ht. simpl. apply IH. by inversion Hn.
Qed.

Lemma quiet_grows w w' :
  quiet w → grows w w' [] [] [] → quiet w'.
Proof.
  intros (Hn & Hall & He) G. unfold quiet.
  rewrite (grows_timers _ _ _ _ _ G), (grows_next _ _ _ _ _ G),
    (grows_clock _ _ _ _ _ G), (grows_log _ _ _ _ _ G), !app_nil_r.
  simpl. rewrite Nat.add_0_r. done.
Qed.

(** Loop [l], entered at index [i] and left alone, comes to rest with
    the log of its time line. *)
Lemma run_loopFrom l i w fuel :
  quiet w → playing w = true → 0 ≤ i →
  count (config w) ≤ Z.of_nat (length (slides (elements w))) →
  (budget w i ≤ fuel)%nat →
  let w' := run fuel (settle l (loopFrom l i w)) in
  log (env w')
  = log (env w)
    ++ timeline (config w) (eventHandlers w) (startTime (state w)) l i
         (clock (env w))
  ∧ timers (env w') = []
  ∧ length (slides (elements w')) = length (slides (elements w))
  ∧ (errored (log (env w')) = true →
     Forall revealedSlide (slides (elements w'))).
Proof.
  intros Hq Hp Hi Hm Hfuel. cbv zeta.
  destruct (quiet_settled w Hq) as [Hs Hk].
  destruct (foreseen_enter _ _ _ _ Hm l i w Hs Hk Hp (proj2 (proj2 Hq)) Hi)
    as [Hf Hpo].
  destruct (foreseen_run _ _ _ _ Hm l _ fuel _ Hf) as (Hlog & Ht & Hf').
  { unfold budget in Hfuel. lia. }
  split; [exact Hlog|]. split; [exact Ht|]. split.
  - apply (settled_slides _ _ _ _ _ (proj1 (proj1 Hf'))).
  - intros He. apply fallenBack_at_rest; [|exact Ht]. by apply (proj2 Hf').
Qed.

(** [start()] on an idle component, left alone. *)
Lemma run_start w fuel :
  quiet w → isPlaying (state w) = false → isCompleted (state w) = false →
  count (config w) ≤ Z.of_nat (length (slides (elements w))) →
  (budget w 0 ≤ fuel)%nat →
  let w' := run fuel (start w) in
  log (env w')
  = log (env w)
    ++ timeline (config w) (eventHandlers w) (Some (clock (env w)))
         PlaySequence 0 (clock (env w))
  ∧ timers (env w') = []
  ∧ length (slides (elements w')) = length (slides (elements w))
  ∧ (errored (log (env w')) = true →
     Forall revealedSlide (slides (elements w'))).
Proof.
  intros Hq Hpl Hco Hm Hfuel. rewrite start_unfold, Hpl, Hco. simpl orb.
  cbv iota.
  set (w1 := withState _ w).
  assert (Hq1 : quiet w1) by exact Hq.
  pose proof (grows_onSection
                (λ s, mkSection false (fadeOut s) (fadeIn s)) w1) as G.
  set (w2 := onSection _ w1) in *.
  pose proof (quiet_grows _ _ Hq1 G) as Hq2.
  assert (Hp2 : playing w2 = true) by (by rewrite (playing_grows _ _ _ _ _ G)).
  assert (Hc2 : config w2 = config w) by apply (grows_config _ _ _ _ _ G).
  assert (Hsl : length (slides (elements w2)) = length (slides (elements w)))
    by apply (grows_slides _ _ _ _ _ G).
  assert (Ht2 : timers (env w2) = timers (env w)).
  { rewrite (grows_timers _ _ _ _ _ G). apply app_nil_r. }
  assert (Hb : budget w2 0 = budget w 0).
  { unfold budget, potential. by rewrite Hc2, Hsl, Ht2. }
  destruct (run_loopFrom PlaySequence 0 w2 fuel Hq2 Hp2 ltac:(lia))
    as (Hlog & Ht & Hlen & Hrev).
  { by rewrite Hc2, Hsl. }
  { by rewrite Hb. }
  cbv zeta in *. change (settle PlaySequence ?r) with (caughtByStart r) in *.
  split; [|split; [exact Ht|split; [by rewrite Hlen, Hsl | exact Hrev]]].
  rewrite Hlog, Hc2, (grows_handlers _ _ _ _ _ G),
    (grows_startTime _ _ _ _ _ G), (grows_clock _ _ _ _ _ G),
    (grows_log _ _ _ _ _ G), app_nil_r.
  reflexivity.
Qed.
(** ** Reading the time line *)

Section ReadingTheTimeLine.
Variables (cfg : config_t) (hs : handlers_t) (st : option Z).

Lemma showing_calm l r j t :
  calm hs →
  showing cfg hs st l r j t
  = reveals cfg hs r j t ++ completion cfg hs st (revealsEnd cfg r t + trail cfg l).
Proof.
  intros [Hsl Hco]. revert j t. induction r as [|r IH]; intros j t.
  - specialize (Hsl j). unfold slideThrows in Hsl.
    apply orb_false_elim in Hsl as [Hsl Hp].
    apply orb_false_elim in Hsl as [Hs Hc].
    simpl. unfold shownThen, completing, revealsEnd. rewrite Hs, Hc, Hp, Hco.
    rewrite stamped_app, !app_nil_r, <- !app_assoc. simpl.
    do 3 f_equal. f_equal. lia.
  - specialize (Hsl j). unfold slideThrows in Hsl.
    apply orb_false_elim in Hsl as [Hsl Hp].
    apply orb_false_elim in Hsl as [Hs Hc].
    cbn [showing reveals]. unfold shownThen. rewrite Hs, Hc, Hp, IH.
    rewrite stamped_app, <- !app_assoc. do 4 f_equal.
    unfold revealsEnd. f_equal. lia.
Qed.

Lemma timeline_calm l i t :
  calm hs →
  timeline cfg hs st l i t
  = revealsFrom cfg hs i t
    ++ completion cfg hs st (revealsEndFrom cfg i t + trail cfg l).
Proof.
  intros Hc. unfold timeline, revealsFrom, revealsEndFrom.
  destruct (count cfg <=? i).
  - unfold completing. by rewrite (proj2 Hc), app_nil_r.
  - by apply showing_calm.
Qed.

Lemma revealsEndFrom_0 t :
  1 ≤ count cfg →
  revealsEndFrom cfg 0 t
  = t + count cfg * fade cfg + (count cfg - 1) * pace cfg.
Proof.
  intros H. unfold revealsEndFrom, revealsEnd.
  destruct (Z.leb_spec (count cfg) 0); [lia|].
  rewrite Z2Nat.id by lia. lia.
Qed.

(** *** The calls of the handlers *)

Lemma handlerCalls_app a b :
  handlerCalls (a ++ b) = handlerCalls a ++ handlerCalls b.
Proof. apply omap_app. Qed.

Lemma broadcasts_app a b : broadcasts (a ++ b) = broadcasts a ++ broadcasts b.
Proof. apply omap_app. Qed.

Lemma sequenceCompletions_app a b :
  sequenceCompletions (a ++ b)
  = sequenceCompletions a ++ sequenceCompletions b.
Proof. apply omap_app. Qed.

Lemma handlerCalls_reveals r j t :
  is_Some (onSlideStart hs) → is_Some (onSlideComplete hs) →
  handlerCalls (reveals cfg hs r j t)
  = flat_map slideCalls (seqZ j (Z.of_nat r + 1)).
Proof.
  intros [f Hf] [g Hg]. revert j t. induction r as [|r IH]; intros j t.
  - rewrite seqZ_cons by lia. simpl. rewrite Hf, Hg.
    destruct (onProgress hs); reflexivity.
  - rewrite seqZ_cons by lia. cbn [reveals flat_map].
    rewrite !handlerCalls_app, IH, Hf, Hg.
    replace (Z.pred (Z.of_nat (S r) + 1)) with (Z.of_nat r + 1) by lia.
    replace (Z.succ j) with (j + 1) by lia.
    destruct (onProgress hs); reflexivity.
Qed.

Lemma handlerCalls_completion t :
  is_Some (onSequenceComplete hs) →
  handlerCalls (completion cfg hs st t) = [SequenceComplete].
Proof.
  intros [b Hb]. unfold completion, completionThrows. rewrite Hb.
  by destruct b.
Qed.

Lemma broadcasts_reveals r j t : broadcasts (reveals cfg hs r j t) = [].
Proof.
  revert j t. induction r as [|r IH]; intros j t; cbn [reveals];
    rewrite ?broadcasts_app, ?IH;
    destruct (onSlideStart hs), (onSlideComplete hs), (onProgress hs);
    reflexivity.
Qed.

Lemma sequenceCompletions_reveals r j t :
  sequenceCompletions (reveals cfg hs r j t) = [].
Proof.
  revert j t. induction r as [|r IH]; intros j t; cbn [reveals];
    rewrite ?sequenceCompletions_app, ?IH;
    destruct (onSlideStart hs), (onSlideComplete hs), (onProgress hs);
    reflexivity.
Qed.

Lemma broadcasts_completion t :
  broadcasts (completion cfg hs st t)
  = if completionThrows hs then []
    else [("introSlidesComplete",
           [("component", VComponent);
            ("duration", VNumber (t - default 0 st))])].
Proof.
  unfold completion, completionThrows.
  destruct (onSequenceComplete hs) as [[]|]; reflexivity.
Qed.

Lemma sequenceCompletions_completion t :
  sequenceCompletions (completion cfg hs st t)
  = match onSequenceComplete hs with
    | Some _ => [[("duration", VNumber (t - default 0 st));
                  ("slideCount", VNumber (count cfg))]]
    | None => []
    end.
Proof.
  unfold completion, completionThrows.
  destruct (onSequenceComplete hs) as [[]|]; reflexivity.
Qed.

(** *** With handlers that throw *)

Lemma errored_completion t : errored (completion cfg hs st t) = false.
Proof.
  unfold completion, completionThrows.
  destruct (onSequenceComplete hs) as [[]|]; reflexivity.
Qed.

Lemma errored_observed {A} (h : option A) t e :
  isFallbackError e = false → errored (stamped t (observed h e)) = false.
Proof. intros H. destruct h; simpl; by rewrite ?H. Qed.

Lemma errored_failure t : errored (failure cfg hs st PlaySequence t) = true.
Proof. reflexivity. Qed.

(** The fallback is logged exactly if a handler throws. *)
Lemma errored_showing r j t :
  completionThrows hs = false →
  errored (showing cfg hs st PlaySequence r j t)
  = existsb (slideThrows hs) (seqZ j (Z.of_nat r + 1)).
Proof.
  intros Hco. revert j t. induction r as [|r IH]; intros j t;
    rewrite seqZ_cons by lia; cbn [showing existsb]; unfold shownThen;
    rewrite !errored_app, !errored_observed by done; unfold slideThrows;
    destruct (throwsAt (onSlideStart hs) j); simpl; try done;
    rewrite !errored_app, !errored_observed by done;
    destruct (throwsAt (onSlideComplete hs) j); simpl; try done;
    rewrite !errored_app, !errored_observed by done;
    destruct (throwsAt (onProgress hs) j); simpl; try done.
  - unfold completing. by rewrite Hco, app_nil_r, errored_completion.
  - rewrite IH. do 2 f_equal; lia.
Qed.

(** Whatever the slide handlers do, the completion is broadcast once. *)
Lemma broadcasts_observed {A} (h : option A) t e :
  (∀ n d, e ≠ Dispatched n d) → broadcasts (stamped t (observed h e)) = [].
Proof.
  intros H. destruct h; [|done].
  destruct e; try done; exfalso; eapply H; reflexivity.
Qed.

Lemma sequenceCompletions_observed {A} (h : option A) t e :
  (∀ d, e ≠ OnSequenceComplete d) →
  sequenceCompletions (stamped t (observed h e)) = [].
Proof.
  intros H. destruct h; [|done].
  destruct e; try done; exfalso; eapply H; reflexivity.
Qed.

Lemma completions_showing r j t :
  completionThrows hs = false →
  ∃ t', broadcasts (showing cfg hs st PlaySequence r j t)
        = broadcasts (completion cfg hs st t')
      ∧ sequenceCompletions (showing cfg hs st PlaySequence r j t)
        = sequenceCompletions (completion cfg hs st t').
Proof.
  intros Hco.
  assert (Hfail : ∀ t0, ∃ t',
    broadcasts (failure cfg hs st PlaySequence t0)
    = broadcasts (completion cfg hs st t')
    ∧ sequenceCompletions (failure cfg hs st PlaySequence t0)
      = sequenceCompletions (completion cfg hs st t')).
  { intros t0. eexists. split; reflexivity. }
  revert j t. induction r as [|r IH]; intros j t; cbn [showing];
    unfold shownThen;
    rewrite !broadcasts_app, !sequenceCompletions_app,
      !broadcasts_observed, !sequenceCompletions_observed by done;
    (destruct (throwsAt (onSlideStart hs) j); [apply Hfail|]);
    rewrite !broadcasts_app, !sequenceCompletions_app,
      !broadcasts_observed, !sequenceCompletions_observed by done;
    (destruct (throwsAt (onSlideComplete hs) j); [apply Hfail|]);
    rewrite !broadcasts_app, !sequenceCompletions_app,
      !broadcasts_observed, !sequenceCompletions_observed by done;
    (destruct (throwsAt (onProgress hs) j); [apply Hfail|]); simpl.
  - unfold completing. rewrite Hco, app_nil_r. eauto.
  - apply IH.
Qed.

End ReadingTheTimeLine.
(* ===================================================================== *)
(** * IntroSlides: the play-through left alone *)
(* ===================================================================== *)

Lemma startedIndices_app a b :
  startedIndices (a ++ b) = startedIndices a ++ startedIndices b.
Proof. apply omap_app. Qed.

Lemma completedIndices_app a b :
  completedIndices (a ++ b) = completedIndices a ++ completedIndices b.
Proof. apply omap_app. Qed.

Lemma indices_reveals cfg hs r j t :
  is_Some (onSlideStart hs) → is_Some (onSlideComplete hs) →
  startedIndices (reveals cfg hs r j t) = seqZ j (Z.of_nat r + 1)
  ∧ completedIndices (reveals cfg hs r j t) = seqZ j (Z.of_nat r + 1).
Proof.
  intros [f Hf] [g Hg]. revert j t. induction r as [|r IH]; intros j t.
  - rewrite seqZ_cons by lia. simpl. rewrite Hf, Hg.
    destruct (onProgress hs); split; reflexivity.
  - rewrite seqZ_cons by lia. cbn [reveals].
    rewrite !startedIndices_app, !completedIndices_app.
    destruct (IH (j + 1) (t + fade cfg + pace cfg)) as [-> ->].
    rewrite Hf, Hg.
    replace (Z.pred (Z.of_nat (S r) + 1)) with (Z.of_nat r + 1) by lia.
    replace (Z.succ j) with (j + 1) by lia.
    destruct (onProgress hs); split; reflexivity.
Qed.

Lemma indices_completion cfg hs st t :
  startedIndices (completion cfg hs st t) = []
  ∧ completedIndices (completion cfg hs st t) = [].
Proof.
  unfold completion, completionThrows.
  destruct (onSequenceComplete hs) as [[]|]; split; reflexivity.
Qed.

(** C1. On an idle component with N ≥ 1 messages and at least N slide
    elements, [start()] followed by nothing but the timers firing calls
    [onSlideStart] and [onSlideComplete] once for each index 0, ..., N-1
    in increasing order (start before complete for each slide), then
    [onSequenceComplete] once, and then nothing is pending any more; the
    handlers are set and do not throw. *)
Theorem play_through_calls w fuel :
  quiet w → isPlaying (state w) = false → isCompleted (state w) = false →
  1 ≤ count (config w) ≤ Z.of_nat (length (slides (elements w))) →
  calm (eventHandlers w) →
  is_Some (onSlideStart (eventHandlers w)) →
  is_Some (onSlideComplete (eventHandlers w)) →
  is_Some (onSequenceComplete (eventHandlers w)) →
  (budget w 0 ≤ fuel)%nat →
  ∃ new,
    log (env (run fuel (start w))) = log (env w) ++ new
    ∧ handlerCalls new = playThroughCalls (count (config w))
    ∧ startedIndices new = seqZ 0 (count (config w))
    ∧ completedIndices new = seqZ 0 (count (config w))
    ∧ length (sequenceCompletions new) = 1%nat
    ∧ timers (env (run fuel (start w))) = [].
Proof.
  intros Hq Hpl Hco [Hn Hm] Hcalm Hs Hc Hq' Hfuel.
  destruct (run_start w fuel Hq Hpl Hco Hm Hfuel) as (Hlog & Ht & _ & _).
  eexists. split; [exact Hlog|].
  rewrite timeline_calm by done. unfold revealsFrom.
  destruct (Z.leb_spec (count (config w)) 0) as [|_]; [lia|].
  replace (count (config w) - 1 - 0) with (count (config w) - 1) by lia.
  assert (Hr : Z.of_nat (Z.to_nat (count (config w) - 1)) + 1
               = count (config w)) by lia.
  rewrite handlerCalls_app, startedIndices_app, completedIndices_app,
    sequenceCompletions_app, handlerCalls_reveals, handlerCalls_completion,
    sequenceCompletions_reveals, sequenceCompletions_completion by done.
  destruct (indices_reveals (config w) (eventHandlers w)
              (Z.to_nat (count (config w) - 1)) 0 (clock (env w)) Hs Hc)
    as [-> ->].
  destruct (indices_completion (config w) (eventHandlers w)
              (Some (clock (env w)))
              (revealsEndFrom (config w) 0 (clock (env w))
               + trail (config w) PlaySequence)) as [-> ->].
  rewrite Hr, !app_nil_r. destruct Hq' as [b ->].
  unfold playThroughCalls. done.
Qed.

Lemma play_through_calls_witness :
  ∃ new,
    log (env (run 80 (start (construct demoOptions demoPage))))
    = log (env (construct demoOptions demoPage)) ++ new
    ∧ handlerCalls new
      = playThroughCalls (count (config (construct demoOptions demoPage)))
    ∧ startedIndices new
      = seqZ 0 (count (config (construct demoOptions demoPage)))
    ∧ completedIndices new
      = seqZ 0 (count (config (construct demoOptions demoPage)))
    ∧ length (sequenceCompletions new) = 1%nat
    ∧ timers (env (run 80 (start (construct demoOptions demoPage)))) = [].
Proof.
  apply (play_through_calls (construct demoOptions demoPage) 80).
  - split; [vm_compute; constructor|].
    split; [vm_compute; constructor | vm_compute; reflexivity].
  - vm_compute. reflexivity.
  - vm_compute. reflexivity.
  - vm_compute. split; discriminate.
  - split; [intros j|]; vm_compute; reflexivity.
  - vm_compute. eexists. reflexivity.
  - vm_compute. eexists. reflexivity.
  - vm_compute. eexists. reflexivity.
  - vm_compute. lia.
Defined.

(** C3, as the specification has it, fails: the detail of the broadcast
    event of the demo play-through holds the component and the duration,
    and no item count. *)
Lemma broadcast_has_no_count :
  broadcasts (log (env (run 80 (start (construct demoOptions demoPage)))))
  = [("introSlidesComplete",
      [("component", VComponent); ("duration", VNumber 750)])]
  ∧ forallb (λ b, hasDurationAndCount b.2)
      (broadcasts (log (env (run 80 (start (construct demoOptions demoPage))))))
    = false
  ∧ forallb hasDurationAndCount
      (sequenceCompletions
         (log (env (run 80 (start (construct demoOptions demoPage))))))
    = true.
Proof. vm_compute. done. Qed.

(** The two payloads when every timer fires at the moment it is due. *)
Lemma payloads_on_time w fuel :
  quiet w → isPlaying (state w) = false → isCompleted (state w) = false →
  1 ≤ count (config w) ≤ Z.of_nat (length (slides (elements w))) →
  calm (eventHandlers w) →
  (budget w 0 ≤ fuel)%nat →
  ∃ new,
    log (env (run fuel (start w))) = log (env w) ++ new
    ∧ broadcasts new
      = [("introSlidesComplete",
          [("component", VComponent);
           ("duration",
            VNumber (count (config w) * fade (config w)
                     + (count (config w) - 1) * pace (config w) + 400))])]
    ∧ sequenceCompletions new
      = match onSequenceComplete (eventHandlers w) with
        | Some _ =>
            [[("duration",
               VNumber (count (config w) * fade (config w)
                        + (count (config w) - 1) * pace (config w) + 400));
              ("slideCount", VNumber (count (config w)))]]
        | None => []
        end.
Proof.
  intros Hq Hpl Hco [Hn Hm] Hcalm Hfuel.
  destruct (run_start w fuel Hq Hpl Hco Hm Hfuel) as (Hlog & _).
  eexists. split; [exact Hlog|].
  rewrite timeline_calm by done.
  rewrite broadcasts_app, sequenceCompletions_app.
  unfold revealsFrom.
  destruct (Z.leb_spec (count (config w)) 0) as [|_]; [lia|].
  rewrite broadcasts_reveals, sequenceCompletions_reveals,
    broadcasts_completion, sequenceCompletions_completion,
    (proj2 Hcalm), revealsEndFrom_0 by done. simpl.
  change (trail (config w) PlaySequence) with 400.
  replace (clock (env w) + count (config w) * fade (config w)
           + (count (config w) - 1) * pace (config w) + 400
           - clock (env w))
    with (count (config w) * fade (config w)
          + (count (config w) - 1) * pace (config w) + 400) by lia.
  done.
Qed.

(** C3, amended. A play-through of N ≥ 1 slides that is left alone, with
    handlers that do not throw, broadcasts [introSlidesComplete] exactly
    once, with the detail [{component, duration}], the duration a
    number: the detail has no item count.  The record
    [{duration, slideCount}], two numbers, is what the
    [onSequenceComplete] callback gets, once, if it is set. *)
Theorem completion_payloads w fuel :
  quiet w → isPlaying (state w) = false → isCompleted (state w) = false →
  1 ≤ count (config w) ≤ Z.of_nat (length (slides (elements w))) →
  calm (eventHandlers w) →
  (budget w 0 ≤ fuel)%nat →
  ∃ new duration duration',
    log (env (run fuel (start w))) = log (env w) ++ new
    ∧ broadcasts new
      = [("introSlidesComplete",
          [("component", VComponent); ("duration", VNumber duration)])]
    ∧ forallb (λ b, hasDurationAndCount b.2) (broadcasts new) = false
    ∧ sequenceCompletions new
      = match onSequenceComplete (eventHandlers w) with
        | Some _ =>
            [[("duration", VNumber duration');
              ("slideCount", VNumber (count (config w)))]]
        | None => []
        end
    ∧ forallb hasDurationAndCount (sequenceCompletions new) = true.
Proof.
  intros Hq Hpl Hco Hn Hcalm Hfuel.
  destruct (payloads_on_time w fuel Hq Hpl Hco Hn Hcalm Hfuel)
    as (new & Hlog & Hb & Hs).
  exists new. eexists. eexists.
  split; [exact Hlog|]. split; [exact Hb|]. split; [by rewrite Hb|].
  split; [exact Hs|]. rewrite Hs.
  by destruct (onSequenceComplete (eventHandlers w)).
Qed.

Lemma completion_payloads_witness :
  ∃ new duration duration',
    log (env (run 80 (start (construct demoOptions demoPage))))
    = log (env (construct demoOptions demoPage)) ++ new
    ∧ broadcasts new
      = [("introSlidesComplete",
          [("component", VComponent); ("duration", VNumber duration)])]
    ∧ forallb (λ b, hasDurationAndCount b.2) (broadcasts new) = false
    ∧ sequenceCompletions new
      = match onSequenceComplete
                (eventHandlers (construct demoOptions demoPage)) with
        | Some _ =>
            [[("duration", VNumber duration');
              ("slideCount",
               VNumber (count (config (construct demoOptions demoPage))))]]
        | None => []
        end
    ∧ forallb hasDurationAndCount (sequenceCompletions new) = true.
Proof.
  apply (completion_payloads (construct demoOptions demoPage) 80).
  - split; [vm_compute; constructor|].
    split; [vm_compute; constructor | vm_compute; reflexivity].
  - vm_compute. reflexivity.
  - vm_compute. reflexivity.
  - vm_compute. split; discriminate.
  - split; [intros j|]; vm_compute; reflexivity.
  - vm_compute. lia.
Defined.
(** C9, as the specification has it, fails.  In the demo with an
    [onSlideStart] that throws for the second slide, right after
    [start()] has caught the exception no slide has been revealed by the
    fallback: the second and third slide are hidden still, and a timer is
    pending for every slide, the first one included, 200 ms apart. *)
Lemma fallback_is_not_immediate :
  let w := run 2 (start (construct failingOptions demoPage)) in
  errored (log (env w)) = true
  ∧ map visibility (slides (elements w)) = ["visible"; "hidden"; "hidden"]
  ∧ map opacity (slides (elements w)) = ["0"; "0"; "0"]
  ∧ map (λ t, (due t - clock (env w), action t)) (timers (env w))
    = [(0, ErrorReveal 0); (200, ErrorReveal 1); (400, ErrorReveal 2);
       (1600, ErrorComplete)]
  ∧ broadcasts (log (env w)) = [].
Proof. vm_compute. done. Qed.

(** C9, amended.  An exception thrown in the loop that [start()] runs is
    caught by [start()] and logged; [handleError] then stops the
    sequencer and sets a timer for every slide element, number k at
    k * 200 ms, that reveals it, and one at N * 200 + 1000 ms that calls
    [complete()].  So if a slide handler throws for one of the N slides
    and the component is left alone, it comes to rest with every slide
    revealed and, unless [onSequenceComplete] throws too, with the
    completion callback called once and the completion broadcast once. *)
Theorem fallback_reveals_then_completes w j fuel :
  quiet w → isPlaying (state w) = false → isCompleted (state w) = false →
  count (config w) ≤ Z.of_nat (length (slides (elements w))) →
  0 ≤ j < count (config w) → slideThrows (eventHandlers w) j = true →
  completionThrows (eventHandlers w) = false →
  (budget w 0 ≤ fuel)%nat →
  (∀ w0,
     caughtByStart (Rejected w0)
     = handleError (emit (ConsoleError "Error during slide sequence:") w0)
     ∧ isPlaying (state (handleError w0)) = false
     ∧ ∃ rs,
         timers (env (handleError w0))
         = timers (env w0) ++ rs
           ++ [mkTimer (nextTimerId (env w0) + length rs)
                 (clock (env w0) + Z.max 0 (messageCount w0 * 200 + 1000))
                 ErrorComplete]
         ∧ map (λ t, (due t, action t)) rs
           = map (λ k, (clock (env w0) + Z.of_nat k * 200, ErrorReveal k))
               (seq 0 (length (slides (elements w0)))))
  ∧ ∃ new d,
      log (env (run fuel (start w))) = log (env w) ++ new
      ∧ errored new = true
      ∧ broadcasts new
        = [("introSlidesComplete",
            [("component", VComponent); ("duration", VNumber d)])]
      ∧ length (sequenceCompletions new)
        = match onSequenceComplete (eventHandlers w) with
          | Some _ => 1%nat
          | None => 0%nat
          end
      ∧ timers (env (run fuel (start w))) = []
      ∧ Forall revealedSlide (slides (elements (run fuel (start w)))).
Proof.
  intros Hq Hpl Hco Hm Hj Hthrow Hcalm Hfuel. split.
  { intros w0. split; [reflexivity|].
    destruct (handleError_cases w0) as (rs & G & Hrs & _).
    split.
    - pose proof (grows_flags _ _ _ _ _ G) as Hfl. unfold flagsOf in Hfl.
      injection Hfl as Hfl _ _. exact Hfl.
    - exists rs. split; [|exact Hrs].
      rewrite (grows_timers _ _ _ _ _ G). reflexivity. }
  destruct (run_start w fuel Hq Hpl Hco Hm Hfuel) as (Hlog & Ht & _ & Hrev).
  set (T := timeline _ _ _ _ _ _) in *.
  assert (HT : T = showing (config w) (eventHandlers w)
                     (Some (clock (env w))) PlaySequence
                     (Z.to_nat (count (config w) - 1)) 0 (clock (env w))).
  { subst T. unfold timeline.
    destruct (Z.leb_spec (count (config w)) 0) as [|_]; [lia|].
    do 2 f_equal. lia. }
  assert (He : errored T = true).
  { rewrite HT, errored_showing by done. apply existsb_exists.
    exists j. split; [|done]. apply list_elem_of_In, elem_of_seqZ. lia. }
  destruct (completions_showing (config w) (eventHandlers w)
              (Some (clock (env w))) (Z.to_nat (count (config w) - 1)) 0
              (clock (env w)) Hcalm) as (t' & Hb & Hc).
  exists T, (t' - clock (env w)).
  split; [exact Hlog|]. split; [exact He|]. split.
  { rewrite HT, Hb, broadcasts_completion, Hcalm. reflexivity. }
  split.
  { rewrite HT, Hc, sequenceCompletions_completion.
    by destruct (onSequenceComplete (eventHandlers w)). }
  split; [exact Ht|].
  apply Hrev. rewrite Hlog, errored_app, He. apply orb_true_r.
Qed.

Lemma fallback_reveals_then_completes_witness :
  (∀ w0,
     caughtByStart (Rejected w0)
     = handleError (emit (ConsoleError "Error during slide sequence:") w0)
     ∧ isPlaying (state (handleError w0)) = false
     ∧ ∃ rs,
         timers (env (handleError w0))
         = timers (env w0) ++ rs
           ++ [mkTimer (nextTimerId (env w0) + length rs)
                 (clock (env w0) + Z.max 0 (messageCount w0 * 200 + 1000))
                 ErrorComplete]
         ∧ map (λ t, (due t, action t)) rs
           = map (λ k, (clock (env w0) + Z.of_nat k * 200, ErrorReveal k))
               (seq 0 (length (slides (elements w0)))))
  ∧ ∃ new d,
      log (env (run 80 (start (construct failingOptions demoPage))))
      = log (env (construct failingOptions demoPage)) ++ new
      ∧ errored new = true
      ∧ broadcasts new
        = [("introSlidesComplete",
            [("component", VComponent); ("duration", VNumber d)])]
      ∧ length (sequenceCompletions new)
        = match onSequenceComplete
                  (eventHandlers (construct failingOptions demoPage)) with
          | Some _ => 1%nat
          | None => 0%nat
          end
      ∧ timers (env (run 80 (start (construct failingOptions demoPage)))) = []
      ∧ Forall revealedSlide
          (slides (elements
                     (run 80 (start (construct failingOptions demoPage))))).
Proof.
  apply (fallback_reveals_then_completes
           (construct failingOptions demoPage) 1 80).
  - split; [vm_compute; constructor|].
    split; [vm_compute; constructor | vm_compute; reflexivity].
  - vm_compute. reflexivity.
  - vm_compute. reflexivity.
  - vm_compute. discriminate.
  - vm_compute. split; [discriminate | reflexivity].
  - vm_compute. reflexivity.
  - vm_compute. reflexivity.
  - vm_compute. lia.
Defined.

(** ** The two loops *)

Lemma completion_inj cfg hs st t t' :
  completionThrows hs = false →
  completion cfg hs st t = completion cfg hs st t' → t = t'.
Proof.
  unfold completion. intros ->.
  destruct (onSequenceComplete hs); simpl; intros H; by injection H.
Qed.

Lemma start_config w : config (start w) = config w.
Proof.
  rewrite start_unfold.
  destruct (isPlaying (state w) || isCompleted (state w)); [done|].
  set (w1 := onSection _ _).
  assert (H1 : config w1 = config w) by reflexivity.
  pose proof (loopFrom_cases PlaySequence 0 w1) as Hc.
  destruct (loopFrom PlaySequence 0 w1) as [w'|w'|w']; cbn [caughtByStart].
  - destruct Hc as [-> _]. exact H1.
  - destruct Hc as [_ [(_ & _ & _ & _ & hs & G & _)|[(_ & _ & ->)|(_ & ->)]]];
      [by rewrite (grows_config _ _ _ _ _ G) | done | done].
  - destruct Hc as (_ & _ & _ & _ & G & _).
    destruct (handleError_cases
                (emit (ConsoleError "Error during slide sequence:") w'))
      as (rs & G' & _).
    rewrite (grows_config _ _ _ _ _ G'). simpl.
    by rewrite (grows_config _ _ _ _ _ G).
Qed.

Lemma construct_slideDelay o p :
  optSlideDelay o = None → slideDelay (config (construct o p)) = 800.
Proof.
  intros Ho. unfold construct, setupDOM.
  destruct (container p) as [[[|sl sls] inS]|]; simpl; rewrite ?Ho; try done.
  unfold setupAccessibility.
  destruct (prefersReducedMotion p); simpl.
  - match goal with |- context [if ?b then _ else _] => destruct b end;
      rewrite ?start_config; done.
  - match goal with |- context [if ?b then _ else _] => destruct b end;
      rewrite ?start_config; simpl; rewrite ?Ho; done.
Qed.
(** C10.  From the same state and the same index, with handlers that do
    not throw, [playSequence]'s loop and [continueSequence]'s loop reveal
    the same slides at the same times and then complete the sequence:
    the first 400 ms after the last slide is shown, the second
    [slideDelay] ms after it (800 unless configured), so that their logs
    differ whenever [slideDelay] is not 400.  [playSequence()] is the
    first loop from index 0, [continueSequence()] the second from
    [currentSlide + 1]. *)
Theorem loops_differ_in_trailing_delay w i fuel :
  quiet w → playing w = true → 0 ≤ i →
  count (config w) ≤ Z.of_nat (length (slides (elements w))) →
  calm (eventHandlers w) →
  (budget w i ≤ fuel)%nat →
  log (env (run fuel (caughtByStart (playSequence_from i w))))
  = log (env w)
    ++ revealsFrom (config w) (eventHandlers w) i (clock (env w))
    ++ completion (config w) (eventHandlers w) (startTime (state w))
         (revealsEndFrom (config w) i (clock (env w)) + 400)
  ∧ log (env (run fuel (uncaught (continueSequence_from i w))))
    = log (env w)
      ++ revealsFrom (config w) (eventHandlers w) i (clock (env w))
      ++ completion (config w) (eventHandlers w) (startTime (state w))
           (revealsEndFrom (config w) i (clock (env w))
            + Z.max 0 (slideDelay (config w)))
  ∧ (Z.max 0 (slideDelay (config w)) ≠ 400 →
     log (env (run fuel (caughtByStart (playSequence_from i w))))
     ≠ log (env (run fuel (uncaught (continueSequence_from i w)))))
  ∧ playSequence w = playSequence_from 0 w
  ∧ continueSequence w = continueSequence_from (currentSlide (state w) + 1) w
  ∧ ∀ o p, optSlideDelay o = None →
           slideDelay (config (construct o p)) = 800.
Proof.
  intros Hq Hp Hi Hm Hcalm Hfuel.
  destruct (run_loopFrom PlaySequence i w fuel Hq Hp Hi Hm Hfuel)
    as (Hplay & _).
  destruct (run_loopFrom ContinueSequence i w fuel Hq Hp Hi Hm Hfuel)
    as (Hcont & _).
  rewrite <- playSequence_from_loopFrom in Hplay.
  rewrite <- continueSequence_from_loopFrom in Hcont.
  cbn [settle] in Hplay, Hcont.
  rewrite timeline_calm in Hplay, Hcont by done.
  change (trail (config w) PlaySequence) with 400 in Hplay.
  change (trail (config w) ContinueSequence)
    with (Z.max 0 (slideDelay (config w))) in Hcont.
  split; [exact Hplay|]. split; [exact Hcont|]. split.
  { intros Hne. rewrite Hplay, Hcont. intros Heq.
    apply app_inv_head, app_inv_head, completion_inj in Heq;
      [lia | apply Hcalm]. }
  split; [reflexivity|]. split; [reflexivity|].
  apply construct_slideDelay.
Qed.

Lemma loops_differ_in_trailing_delay_witness :
  log (env (run 80 (caughtByStart (playSequence_from 1 resumingWorld))))
  = log (env resumingWorld)
    ++ revealsFrom (config resumingWorld) (eventHandlers resumingWorld) 1
         (clock (env resumingWorld))
    ++ completion (config resumingWorld) (eventHandlers resumingWorld)
         (startTime (state resumingWorld))
         (revealsEndFrom (config resumingWorld) 1 (clock (env resumingWorld))
          + 400)
  ∧ log (env (run 80 (uncaught (continueSequence_from 1 resumingWorld))))
    = log (env resumingWorld)
      ++ revealsFrom (config resumingWorld) (eventHandlers resumingWorld) 1
           (clock (env resumingWorld))
      ++ completion (config resumingWorld) (eventHandlers resumingWorld)
           (startTime (state resumingWorld))
           (revealsEndFrom (config resumingWorld) 1
              (clock (env resumingWorld))
            + Z.max 0 (slideDelay (config resumingWorld)))
  ∧ (Z.max 0 (slideDelay (config resumingWorld)) ≠ 400 →
     log (env (run 80 (caughtByStart (playSequence_from 1 resumingWorld))))
     ≠ log (env (run 80 (uncaught (continueSequence_from 1 resumingWorld)))))
  ∧ playSequence resumingWorld = playSequence_from 0 resumingWorld
  ∧ continueSequence resumingWorld
    = continueSequence_from (currentSlide (state resumingWorld) + 1)
        resumingWorld
  ∧ ∀ o p, optSlideDelay o = None →
           slideDelay (config (construct o p)) = 800.
Proof.
  apply (loops_differ_in_trailing_delay resumingWorld 1 80).
  - split; [vm_compute; constructor|].
    split; [vm_compute; constructor | vm_compute; reflexivity].
  - vm_compute. reflexivity.
  - lia.
  - vm_compute. discriminate.
  - split; [intros j|]; vm_compute; reflexivity.
  - vm_compute. lia.
Defined.
(* ===================================================================== *)
(** * IntroSlides: resuming *)
(* ===================================================================== *)

Lemma extends_grows w w' new ids evs :
  grows w w' new ids evs → extends w w' new (stamped (clock (env w)) evs).
Proof.
  intros G. split; [apply (grows_timers _ _ _ _ _ G)
                   | apply (grows_log _ _ _ _ _ G)].
Qed.

Lemma extends_trans w1 w2 w3 n1 n2 e1 e2 :
  extends w1 w2 n1 e1 → extends w2 w3 n2 e2 →
  extends w1 w3 (n1 ++ n2) (e1 ++ e2).
Proof.
  intros [H1 H2] [H3 H4].
  split; [rewrite H3, H1|rewrite H4, H2]; by rewrite app_assoc.
Qed.

Lemma extends_refl w : extends w w [] [].
Proof. split; by rewrite app_nil_r. Qed.

Lemma loopOnly_app a b : loopOnly (a ++ b) = loopOnly a ++ loopOnly b.
Proof. apply List.filter_app. Qed.

Lemma loopFree_loopOnly ts : loopFree ts → loopOnly ts = [].
Proof.
  induction 1 as [|t ts Ht _ IH]; [done|]. unfold loopOnly in *. simpl.
  by rewrite Ht.
Qed.

Lemma reachedBy_resumesLoop c b :
  reachedBy c = Some b → resumesLoop c = true.
Proof. by destruct c as [? ? []| | | | | | | |]. Qed.

Lemma loopFree_carriesOn i ts : loopFree ts → carriesOn i ts.
Proof.
  intros H. split; [rewrite loopFree_loopOnly by done; simpl; lia|].
  eapply Forall_impl; [exact H|]. simpl. intros t Ht b Hb.
  apply reachedBy_resumesLoop in Hb. congruence.
Qed.

Lemma carriesOn_le i j ts : carriesOn j ts → i ≤ j → carriesOn i ts.
Proof.
  intros [H1 H2] Hij. split; [exact H1|].
  eapply Forall_impl; [exact H2|]. simpl. intros t Ht b Hb.
  specialize (Ht b Hb). lia.
Qed.

Lemma loopFree_app a b : loopFree a → loopFree b → loopFree (a ++ b).
Proof. intros. by apply Forall_app. Qed.

Lemma startedIndices_observed {A} (h : option A) t e :
  (∀ d, e ≠ OnSlideStart d) → startedIndices (stamped t (observed h e)) = [].
Proof.
  intros H. destruct h; [|done].
  destruct e; try done; exfalso; eapply H; reflexivity.
Qed.

Lemma startedIndices_start {A} (h : option A) t i w :
  startedIndices (stamped t (observed h (OnSlideStart (slideData i w)))) = []
  ∨ startedIndices (stamped t (observed h (OnSlideStart (slideData i w))))
    = [i].
Proof. destruct h; [by right | by left]. Qed.

(** *** What the callbacks add *)

Lemma handleError_extends w :
  ∃ new evs, extends w (handleError w) new evs
             ∧ loopFree new ∧ startedIndices evs = [].
Proof.
  destruct (handleError_cases w) as (rs & G & Hrs & _).
  eexists _, _. split; [apply (extends_grows _ _ _ _ _ G)|].
  split; [|reflexivity].
  apply loopFree_app; [|by repeat constructor].
  apply Forall_forall. intros t Ht.
  apply list_elem_of_In, (in_map (λ t, (due t, action t))) in Ht.
  rewrite Hrs in Ht. apply in_map_iff in Ht as (k & Hk & _).
  injection Hk as _ <-. reflexivity.
Qed.

(** A loop that rejects: [start()] falls back, nobody else cares. *)
Lemma settle_rejected l w :
  ∃ new evs, extends w (settle l (Rejected w)) new evs
             ∧ loopFree new ∧ startedIndices evs = [].
Proof.
  destruct l; cbn [settle caughtByStart uncaught worldOf].
  - destruct (handleError_extends
                (emit (ConsoleError "Error during slide sequence:") w))
      as (new & evs & He & Hn & Hs).
    pose proof (extends_grows _ _ _ _ _
                  (grows_emit (ConsoleError "Error during slide sequence:") w))
      as He0.
    eexists _, _. split; [exact (extends_trans _ _ _ _ _ _ _ He0 He)|].
    split; [exact Hn|]. by rewrite startedIndices_app, Hs.
  - exists [], []. split; [apply extends_refl|]. split; [constructor|done].
Qed.

Lemma complete_extends l w :
  ∃ new evs, extends w (settle l (complete w)) new evs
             ∧ loopFree new ∧ startedIndices evs = [].
Proof.
  destruct (complete_cases w) as (G & _ & Er).
  apply extends_grows in G. simpl in G.
  assert (Hn : loopFree
                 (if match onSequenceComplete (eventHandlers w) with
                     | Some true => true
                     | _ => false
                     end
                  then []
                  else [mkTimer (nextTimerId (env w)) (clock (env w) + 1000)
                          HideCallback])).
  { destruct (onSequenceComplete (eventHandlers w)) as [[]|];
      repeat constructor. }
  assert (Hs : startedIndices
                 (stamped (clock (env w))
                    (observed (onSequenceComplete (eventHandlers w))
                       (OnSequenceComplete
                          [("duration", VNumber (elapsed w));
                           ("slideCount", VNumber (messageCount w))])
                     ++ (if match onSequenceComplete (eventHandlers w) with
                            | Some true => true
                            | _ => false
                            end
                         then []
                         else [Dispatched "introSlidesComplete"
                                 [("component", VComponent);
                                  ("duration", VNumber (elapsed w))]])))
               = []).
  { destruct (onSequenceComplete (eventHandlers w)) as [[]|]; reflexivity. }
  assert (G' : extends w (worldOf (complete w)) _ _) by exact G.
  rewrite Er.
  destruct (match onSequenceComplete (eventHandlers w) with
            | Some true => true
            | _ => false
            end).
  - destruct (settle_rejected l (worldOf (complete w)))
      as (new & evs & He & Hn' & Hs').
    eexists _, _. split; [exact (extends_trans _ _ _ _ _ _ _ G' He)|].
    split; [by apply loopFree_app|]. by rewrite startedIndices_app, Hs, Hs'.
  - eexists _, _. split; [|split; [exact Hn | exact Hs]].
    by destruct l.
Qed.

(** A loop entered at index [i]. *)
Lemma loopFrom_extends l i w :
  ∃ new evs,
    extends w (settle l (loopFrom l i w)) new evs
    ∧ (startedIndices evs = [] ∨ startedIndices evs = [i])
    ∧ carriesOn i new.
Proof.
  pose proof (loopFrom_cases l i w) as Hc.
  destruct (loopFrom l i w) as [w'|w'|w'].
  - destruct Hc as [-> _]. exists [], [].
    split; [destruct l; apply extends_refl|].
    split; [by left|]. by apply loopFree_carriesOn, Forall_nil.
  - destruct Hc as [_ [(_ & _ & _ & _ & hs & G & _ & Hh)|[(_ & _ & ->)|(_ & ->)]]].
    + eexists _, _. split.
      { destruct l; exact (extends_grows _ _ _ _ _ G). }
      split; [apply startedIndices_start|].
      split.
      * rewrite loopOnly_app, loopFree_loopOnly; [simpl; lia|].
        eapply Forall_impl; [exact Hh|]. simpl. by intros t ->.
      * apply Forall_app. split.
        -- eapply Forall_impl; [exact Hh|]. simpl. by intros t -> b.
        -- repeat constructor. simpl. intros b [= <-]. lia.
    + eexists _, _. split.
      { destruct l; exact (extends_grows _ _ _ _ _ (grows_wait _ _ _)). }
      split; [by left|]. split; [simpl; lia|].
      repeat constructor. simpl. intros b [= <-]. lia.
    + eexists _, _. split.
      { destruct l; exact (extends_grows _ _ _ _ _ (grows_wait _ _ _)). }
      split; [by left|]. split; [simpl; lia|].
      repeat constructor. simpl. by intros b.
  - destruct Hc as (_ & _ & _ & _ & G & _).
    destruct (settle_rejected l w') as (new & evs & He & Hn & Hs).
    apply extends_grows in G.
    eexists _, _. split; [exact (extends_trans _ _ _ _ _ _ _ G He)|].
    split.
    + right. by rewrite startedIndices_app, Hs.
    + simpl. by apply loopFree_carriesOn.
Qed.

Lemma runCallback_extends c w :
  ∃ new evs,
    extends w (runCallback c w) new evs
    ∧ match reachedBy c with
      | Some b => (startedIndices evs = [] ∧ carriesOn b new)
                  ∨ (startedIndices evs = [b + 1] ∧ carriesOn (b + 1) new)
      | None => startedIndices evs = [] ∧ loopFree new
      end.
Proof.
  destruct c as [j prev [l i|]|l j|l| | |k| |j|j];
    cbn [runCallback reachedBy].
  - destruct (showSlideRest_cases j prev w) as (G & _ & Er).
    apply extends_grows in G.
    assert (Hs : startedIndices
                   (stamped (clock (env w))
                      (observed (onSlideComplete (eventHandlers w))
                         (OnSlideComplete (slideData j w))
                       ++ (if throwsAt (onSlideComplete (eventHandlers w)) j
                           then []
                           else observed (onProgress (eventHandlers w))
                                  (OnProgress
                                     [("current", VNumber (j + 1));
                                      ("total", VNumber (messageCount w));
                                      ("percentage",
                                       VPercent (j + 1) (messageCount w))]))))
                 = []).
    { rewrite stamped_app, startedIndices_app, startedIndices_observed by done.
      destruct (throwsAt (onSlideComplete (eventHandlers w)) j); [done|].
      by rewrite startedIndices_observed. }
    rewrite Er.
    destruct (throwsAt (onSlideComplete (eventHandlers w)) j
              || throwsAt (onProgress (eventHandlers w)) j);
      cbn [andThen].
    + destruct (settle_rejected l (worldOf (showSlideRest j prev w)))
        as (new & evs & He & Hn & Hs').
      eexists _, _. split; [exact (extends_trans _ _ _ _ _ _ _ G He)|].
      left. split; [by rewrite startedIndices_app, Hs, Hs'|].
      simpl. by apply loopFree_carriesOn.
    + rewrite afterShow_loopFrom.
      destruct (i <? messageCount (worldOf (showSlideRest j prev w)) - 1).
      * eexists _, _. split.
        { eapply extends_trans; [exact G|].
          destruct l; exact (extends_grows _ _ _ _ _ (grows_wait _ _ _)). }
        left. split; [by rewrite startedIndices_app, Hs|].
        split; [simpl; lia|]. repeat constructor. simpl. intros b [= <-]. lia.
      * destruct (loopFrom_extends l (i + 1) (worldOf (showSlideRest j prev w)))
          as (new & evs & He & Hst & Hn).
        eexists _, _. split; [exact (extends_trans _ _ _ _ _ _ _ G He)|].
        rewrite startedIndices_app, Hs. simpl.
        destruct Hst as [Hst|Hst]; [left|right]; (split; [exact Hst|]);
          [eapply carriesOn_le; [exact Hn | lia] | exact Hn].
  - destruct (showSlideRest_cases j prev w) as (G & _ & _).
    apply extends_grows in G.
    eexists _, _. split; [exact G|]. split; [|constructor].
    rewrite stamped_app, startedIndices_app, startedIndices_observed by done.
    destruct (throwsAt (onSlideComplete (eventHandlers w)) j); [done|].
    by rewrite startedIndices_observed.
  - rewrite afterDelay_loopFrom.
    destruct (loopFrom_extends l (j + 1) w) as (new & evs & He & Hst & Hn).
    eexists _, _. split; [exact He|].
    destruct Hst as [Hst|Hst]; [left|right]; (split; [exact Hst|]);
      [eapply carriesOn_le; [exact Hn | lia] | exact Hn].
  - destruct (complete_extends l w) as (new & evs & He & Hn & Hs).
    by eexists _, _.
  - eexists _, _. split; [exact (extends_grows _ _ _ _ _ (grows_hide w))|].
    split; [done|]. destruct (section (elements w)); repeat constructor.
  - eexists _, _.
    split; [exact (extends_grows _ _ _ _ _ (grows_hideFinish w))|].
    split; [done|constructor].
  - eexists _, _.
    split; [exact (extends_grows _ _ _ _ _ (grows_errorReveal k w))|].
    split; [done|constructor].
  - destruct (complete_extends ContinueSequence w)
      as (new & evs & He & Hn & Hs).
    by eexists _, _.
  - eexists _, _.
    split; [exact (extends_grows _ _ _ _ _ (grows_createFloatingHeart j w))|].
    split; [done|repeat constructor].
  - eexists _, _.
    split; [exact (extends_grows _ _ _ _ _ (grows_removeHeart j w))|].
    split; [done|constructor].
Qed.
(** *** Timers firing after [resume()] *)



Lemma Forall_dropTimer (P : timer → Prop) id ts :
  Forall P ts → Forall P (dropTimer id ts).
Proof.
  induction 1 as [|u ts Hu _ IH]; [constructor|]. unfold dropTimer in *.
  simpl. destruct (negb (tid u =? id)%nat); [by constructor | exact IH].
Qed.









(* ===================================================================== *)
(** * IntroSlides: what else the code keeps *)
(* ===================================================================== *)

Import SequencerLaws.

(** ** The ids of the timers *)

Lemma registered_grows w w' new ids evs :
  registered w → grows w w' new ids evs →
  Forall (λ i, i ∈ map tid new) ids →
  Forall (λ t, tid t ∈ ids → isWaitResolver (action t) = true) new →
  registered w'.
Proof.
  intros (Hn & Hf & Ho & Hr) G Hids Hnew.
  pose proof (grows_ids _ _ _ _ _ G) as Hseq.
  assert (Hlo : ∀ i, i ∈ map tid new →
                     (nextTimerId (env w) ≤ i
                      < nextTimerId (env w) + length new)%nat).
  { intros i Hi. rewrite Hseq in Hi. apply elem_of_seq in Hi. lia. }
  unfold registered.
  rewrite (grows_timers _ _ _ _ _ G), (grows_timeouts _ _ _ _ _ G),
    (grows_next _ _ _ _ _ G), map_app.
  split; [|split; [|split]].
  - apply NoDup_app. split; [exact Hn|]. split.
    + intros i Hi Hi'. apply Hlo in Hi'.
      apply list_elem_of_In, in_map_iff in Hi as (t & <- & Ht).
      rewrite Forall_forall in Hf. apply list_elem_of_In, Hf in Ht. lia.
    + rewrite Hseq. apply NoDup_seq.
  - apply Forall_app. split.
    + eapply Forall_impl; [exact Hf|]. simpl. lia.
    + apply Forall_forall. intros t Ht.
      assert (tid t ∈ map tid new) as Hi
        by (apply list_elem_of_In, in_map, list_elem_of_In, Ht).
      apply Hlo in Hi. lia.
  - apply Forall_app. split.
    + eapply Forall_impl; [exact Ho|]. simpl. lia.
    + eapply Forall_impl; [exact Hids|]. simpl. intros i Hi.
      apply Hlo in Hi. lia.
  - apply Forall_app. split.
    + apply Forall_forall. intros t Ht Hin.
      apply elem_of_app in Hin as [Hin|Hin].
      { rewrite Forall_forall in Hr. by apply Hr. }
      rewrite Forall_forall in Hids. apply Hids, Hlo in Hin.
      rewrite Forall_forall in Hf. specialize (Hf t Ht). simpl in Hf. lia.
    + apply Forall_forall. intros t Ht Hin.
      rewrite Forall_forall in Ho.
      apply elem_of_app in Hin as [Hin|Hin].
      2: { rewrite Forall_forall in Hnew. by apply Hnew. }
      assert (tid t ∈ map tid new) as Hi
        by (apply list_elem_of_In, in_map, list_elem_of_In, Ht).
      apply Hlo in Hi. specialize (Ho _ Hin). simpl in Ho. lia.
Qed.

(** Growth that records no id. *)
Lemma registered_grows_plain w w' new evs :
  registered w → grows w w' new [] evs → registered w'.
Proof.
  intros H G. eapply registered_grows; [exact H | exact G | constructor|].
  apply Forall_forall. intros t _ Hin. by apply elem_of_nil in Hin.
Qed.

Lemma registered_same w w' :
  registered w → timeouts (state w') = timeouts (state w) →
  timers (env w') = timers (env w) →
  nextTimerId (env w') = nextTimerId (env w) →
  registered w'.
Proof. unfold registered. by intros H -> -> ->. Qed.

Lemma NoDup_map_filter {A B} (f : A → B) (g : A → bool) (l : list A) :
  NoDup (map f l) → NoDup (map f (List.filter g l)).
Proof.
  induction l as [|x l IH]; simpl; [done|].
  intros H. apply NoDup_cons in H as [Hx Hl].
  destruct (g x); simpl; [|by apply IH].
  apply NoDup_cons. split; [|by apply IH].
  intros Hin. apply Hx.
  apply list_elem_of_In, in_map_iff in Hin as (y & Hy & Hin).
  apply filter_In in Hin as [Hin _].
  rewrite <- Hy. by apply list_elem_of_In, in_map.
Qed.

(** Timers taken off the queue. *)
Lemma registered_filter g f w :
  registered w →
  (∀ i, i ∈ timeouts (f (state w)) → i ∈ timeouts (state w)) →
  registered (withState f
                (withEnv (λ b, setTimers (List.filter g (timers b)) b) w)).
Proof.
  intros (Hn & Hf & Ho & Hr) Hsub. unfold registered. simpl.
  split; [by apply NoDup_map_filter|].
  split; [by apply Forall_List_filter|]. split.
  - rewrite Forall_forall in Ho |- *. intros i Hi. by apply Ho, Hsub.
  - apply Forall_List_filter. eapply Forall_impl; [exact Hr|]. simpl.
    intros t Ht Hin. by apply Ht, Hsub.
Qed.

Lemma registered_clearTimeouts w : registered w → registered (clearTimeouts w).
Proof.
  intros H. unfold clearTimeouts. cbv zeta.
  apply (registered_filter _ (setTimeouts []) w H).
  simpl. intros i Hi. by apply elem_of_nil in Hi.
Qed.

Lemma registered_withState f w :
  registered w → timeouts (f (state w)) = timeouts (state w) →
  registered (withState f w).
Proof. intros H Ht. eapply registered_same; [exact H|exact Ht|done..]. Qed.

Lemma registered_wait d c w :
  registered w → isWaitResolver c = true → registered (wait d c w).
Proof.
  intros H Hc. eapply registered_grows; [exact H | apply grows_wait | |].
  - repeat constructor.
  - repeat constructor. by simpl.
Qed.

(** The hearts of a slide and the resolver set after them. *)
Lemma recorded_after_hearts j hs (n : nat) (t : timer) :
  map tid (hs ++ [t]) = seq n (length (hs ++ [t])) →
  tid t = (n + length hs)%nat →
  Forall (λ t, action t = HeartSpawn j) hs →
  isWaitResolver (action t) = true →
  Forall (λ i, i ∈ map tid (hs ++ [t])) [(n + length hs)%nat]
  ∧ Forall (λ u, tid u ∈ [(n + length hs)%nat] →
                 isWaitResolver (action u) = true) (hs ++ [t]).
Proof.
  intros Hseq Ht Hh Hw. split.
  - repeat constructor. rewrite map_app. apply elem_of_app. right.
    simpl. rewrite Ht. apply list_elem_of_here.
  - apply Forall_app. split; [|by repeat constructor].
    rewrite map_app, length_app, seq_app in Hseq.
    apply app_inj_1 in Hseq as [Hseq _]; [|by rewrite length_map, length_seq].
    apply Forall_forall. intros u Hu Hin.
    apply list_elem_of_singleton in Hin.
    assert (tid u ∈ seq n (length hs)) as Hi.
    { rewrite <- Hseq. by apply list_elem_of_In, in_map, list_elem_of_In. }
    apply elem_of_seq in Hi. lia.
Qed.

Lemma registered_handleError w : registered w → registered (handleError w).
Proof.
  intros H. destruct (handleError_cases w) as (rs & G & _).
  eapply registered_grows_plain; [|exact G].
  by apply registered_withState.
Qed.

Lemma registered_complete w : registered w → registered (worldOf (complete w)).
Proof.
  intros H. destruct (complete_cases w) as (G & _).
  eapply registered_grows_plain; [|exact G].
  by apply registered_withState.
Qed.

Lemma registered_settle l r :
  registered (worldOf r) → registered (settle l r).
Proof.
  destruct l, r as [w|w|w]; simpl; try done.
  intros H. apply registered_handleError.
  eapply registered_grows_plain; [exact H | apply grows_emit].
Qed.

Lemma registered_showSlide j a w :
  registered w → registered (worldOf (showSlide j a w)).
Proof.
  intros H. pose proof (showSlide_cases j a w) as Hc.
  destruct (showSlide j a w) as [w'|w'|w']; simpl.
  - by destruct Hc as [-> _].
  - destruct Hc as (_ & _ & _ & hs & G & _ & Hhs).
    destruct (recorded_after_hearts j hs (nextTimerId (env w)) _
                (grows_ids _ _ _ _ _ G) eq_refl Hhs eq_refl) as [H1 H2].
    eapply registered_grows; [exact H | exact G | exact H1 | exact H2].
  - destruct Hc as (_ & _ & G & _).
    eapply registered_grows_plain; [exact H | exact G].
Qed.

Lemma registered_loopFrom l i w :
  registered w → registered (worldOf (loopFrom l i w)).
Proof.
  intros H. pose proof (loopFrom_cases l i w) as Hc.
  destruct (loopFrom l i w) as [w'|w'|w']; simpl.
  - by destruct Hc as [-> _].
  - destruct Hc as (_ & [(_ & _ & _ & _ & hs & G & _ & Hhs)
                        |[(_ & _ & ->)|(_ & ->)]]).
    + destruct (recorded_after_hearts i hs (nextTimerId (env w)) _
                  (grows_ids _ _ _ _ _ G) eq_refl Hhs eq_refl) as [H1 H2].
      eapply registered_grows; [exact H | exact G | exact H1 | exact H2].
    + by apply registered_wait.
    + by apply registered_wait.
  - destruct Hc as (_ & _ & _ & _ & G & _).
    eapply registered_grows_plain; [exact H | exact G].
Qed.

Lemma registered_start w : registered w → registered (start w).
Proof.
  intros H. rewrite start_unfold.
  destruct (isPlaying (state w) || isCompleted (state w)); [done|].
  apply (registered_settle PlaySequence), registered_loopFrom.
  eapply registered_grows_plain; [|apply grows_onSection].
  by apply registered_withState.
Qed.

Lemma registered_pause w : registered w → registered (pause w).
Proof.
  intros H. unfold pause.
  destruct (negb (isPlaying (state w)) || isPaused (state w)); [done|].
  by apply registered_clearTimeouts, registered_withState.
Qed.

Lemma registered_resume w : registered w → registered (resume w).
Proof.
  intros H. unfold resume.
  destruct (negb (isPlaying (state w)) || negb (isPaused (state w)));
    [done|].
  unfold continueSequence. rewrite continueSequence_from_loopFrom.
  by apply registered_loopFrom, registered_withState.
Qed.

Lemma registered_nextSlide w : registered w → registered (nextSlide w).
Proof.
  intros H. unfold nextSlide.
  destruct (negb (isPlaying (state w))
            || (messageCount w - 1 <=? currentSlide (state w))); [done|].
  cbv zeta. by apply registered_showSlide, registered_clearTimeouts.
Qed.

Lemma registered_skip w : registered w → registered (worldOf (skip w)).
Proof. intros H. by apply registered_complete, registered_clearTimeouts. Qed.

Lemma registered_stop w : registered w → registered (stop w).
Proof.
  intros H. by apply registered_clearTimeouts, registered_withState.
Qed.

Lemma registered_resetSlides w : registered w → registered (resetSlides w).
Proof. intros H. eapply registered_same; [exact H|done..]. Qed.

Lemma registered_hide w : registered w → registered (hide w).
Proof. intros H. eapply registered_grows_plain; [exact H|apply grows_hide]. Qed.

Lemma registered_onKeyDown key w :
  registered w → registered (onKeyDown key w).
Proof.
  intros H. unfold onKeyDown. destruct (isPlaying (state w)); [|done].
  destruct (String.eqb key "Escape"); [by apply registered_skip|].
  destruct (String.eqb key " " || String.eqb key "Enter").
  - destruct (isPaused (state w));
      [by apply registered_resume | by apply registered_pause].
  - destruct (String.eqb key "ArrowRight");
      [by apply registered_nextSlide|done].
Qed.

Lemma registered_runCallback c w :
  registered w → registered (runCallback c w).
Proof.
  intros H. destruct c as [j prev [l i|]|l i|l| | |k| |j|j]; simpl.
  - destruct (showSlideRest_cases j prev w) as (G & _ & E).
    assert (H1 : registered (worldOf (showSlideRest j prev w)))
      by (eapply registered_grows_plain; [exact H | exact G]).
    rewrite E.
    destruct (throwsAt (onSlideComplete (eventHandlers w)) j
              || throwsAt (onProgress (eventHandlers w)) j); simpl.
    + by apply registered_settle.
    + apply registered_settle. rewrite afterShow_loopFrom.
      destruct (i <? messageCount (worldOf (showSlideRest j prev w)) - 1).
      * by apply registered_wait.
      * by apply registered_loopFrom.
  - destruct (showSlideRest_cases j prev w) as (G & _ & _).
    eapply registered_grows_plain; [exact H | exact G].
  - rewrite afterDelay_loopFrom.
    by apply registered_settle, registered_loopFrom.
  - by apply registered_settle, registered_complete.
  - by apply registered_hide.
  - eapply registered_grows_plain; [exact H | apply grows_hideFinish].
  - eapply registered_grows_plain; [exact H | apply grows_errorReveal].
  - by apply registered_complete.
  - eapply registered_grows_plain;
      [exact H | apply grows_createFloatingHeart].
  - eapply registered_grows_plain; [exact H | apply grows_removeHeart].
Qed.

Lemma registered_fire id w : registered w → registered (fire id w).
Proof.
  intros H. unfold fire.
  destruct (findTimer id (timers (env w))) as [t|]; [|done].
  apply registered_runCallback.
  destruct H as (Hn & Hf & Ho & Hr). unfold registered. simpl.
  split; [by apply NoDup_map_filter|].
  split; [by apply Forall_List_filter|].
  split; [done | by apply Forall_List_filter].
Qed.

Lemma registered_step i w : registered w → registered (step i w).
Proof.
  intros H. destruct i; simpl.
  - by apply registered_start.
  - by apply registered_pause.
  - by apply registered_resume.
  - by apply registered_nextSlide.
  - by apply registered_skip.
  - by apply registered_complete.
  - by apply registered_stop.
  - by apply registered_start, registered_resetSlides, registered_stop.
  - by apply registered_resetSlides.
  - by apply registered_hide.
  - eapply registered_same; [exact H | reflexivity..].
  - destruct (listening w); [by apply registered_onKeyDown | done].
  - destruct (listening w); [|done]. unfold onClick.
    destruct (isPlaying (state w) && negb (isPaused (state w)));
      [by apply registered_nextSlide | done].
  - destruct (listening w); [|done]. unfold onVisibilityChange.
    destruct (documentHidden && isPlaying (state w));
      [by apply registered_pause|].
    destruct (negb documentHidden && isPaused (state w));
      [by apply registered_resume | done].
  - destruct (listening w); [|done]. unfold onReducedMotionChange.
    cbv zeta. match goal with |- context [if ?b then _ else _] => destruct b end;
      (eapply registered_same; [exact H | reflexivity..]).
  - by apply registered_fire.
  - eapply registered_same; [exact H | reflexivity..].
Qed.

Lemma registered_construct o p : registered (construct o p).
Proof.
  assert (H0 : registered (fresh o p)).
  { split; [constructor|]. split; [constructor|]. split; constructor. }
  unfold construct.
  destruct (setupDOM p (fresh o p)) as [w1|w1|w1] eqn:E.
  - assert (H1 : registered w1).
    { unfold setupDOM in E. destruct (container p) as [[sls inS]|]; [|done].
      destruct sls; [done|]. injection E as <-.
      eapply registered_same; [exact H0 | reflexivity..]. }
    cbv zeta.
    match goal with |- registered (if _ then start ?w3 else _) =>
      assert (H3 : registered w3) end.
    { eapply registered_same; [exact H1|..];
        unfold setupAccessibility; by destruct (prefersReducedMotion p). }
    match goal with |- context [if ?b then _ else _] => destruct b end;
      [by apply registered_start | done].
  - unfold setupDOM in E. destruct (container p) as [[sls inS]|]; [|done].
    by destruct sls.
  - assert (H1 : registered w1).
    { unfold setupDOM in E. destruct (container p) as [[sls inS]|].
      - destruct sls; [|done]. injection E as <-.
        eapply registered_same; [exact H0 | reflexivity..].
      - by injection E as <-. }
    eapply registered_grows_plain; [exact H1 | apply grows_emit].
Qed.

Lemma reachable_registered w : reachable w → registered w.
Proof.
  induction 1; [apply registered_construct | by apply registered_step].
Qed.


(** ** What [clearTimeouts()] cancels *)

Lemma filter_ext_Forall {A} (f g : A → bool) (l : list A) :
  Forall (λ x, f x = g x) l → List.filter f l = List.filter g l.
Proof.
  induction 1 as [|x l Hx _ IH]; simpl; [done|]. by rewrite Hx, IH.
Qed.

Lemma clearTimeouts_bareTimers w :
  reachable w → timers (env (clearTimeouts w)) = bareTimers (timers (env w)).
Proof.
  intros Hr. destruct (reachable_disciplined w Hr) as (Htr & _).
  destruct (reachable_registered w Hr) as (_ & _ & _ & Hreg).
  unfold clearTimeouts, bareTimers. simpl. apply filter_ext_Forall.
  unfold tracked in Htr. rewrite Forall_forall in Htr, Hreg |- *.
  intros t Ht. f_equal.
  destruct (isWaitResolver (action t)) eqn:E.
  - apply bool_decide_eq_true. by apply Htr.
  - apply bool_decide_eq_false. intros Hin.
    specialize (Hreg t Ht Hin). congruence.
Qed.

(** [stop()] cancels the [wait()]s and nothing else. *)
Lemma cancel_bare w :
  reachable w →
  timers (env (stop w)) = bareTimers (timers (env w))
  ∧ timers (env (clearTimeouts w)) = bareTimers (timers (env w)).
Proof. intros Hr. split; exact (clearTimeouts_bareTimers w Hr). Qed.



(** X2. In every world a component can be in, timer ids are distinct, and
    [clearTimeouts()] cancels exactly the pending timers that [wait()]
    set: [stop()], [pause()] (from Playing) and [skip()] leave every timer
    set with a bare [setTimeout] pending, in its place (the hearts, the
    hide after completion, the reveals and the completion of the
    fallback), and none of a [wait()]; [skip()] adds the timer of the
    hide unless the completion callback throws. *)
Theorem cancel_exactly_the_waits w :
  reachable w →
  NoDup (map tid (timers (env w)))
  ∧ timers (env (clearTimeouts w)) = bareTimers (timers (env w))
  ∧ timers (env (stop w)) = bareTimers (timers (env w))
  ∧ (phaseOf w = Playing →
     timers (env (pause w)) = bareTimers (timers (env w)))
  ∧ timers (env (worldOf (skip w)))
    = bareTimers (timers (env w))
      ++ match onSequenceComplete (eventHandlers w) with
         | Some true => []
         | _ => [mkTimer (nextTimerId (env w)) (clock (env w) + 1000)
                   HideCallback]
         end.
Proof.
  intros Hr. pose proof (clearTimeouts_bareTimers w Hr) as Hc.
  split; [apply (reachable_registered w Hr)|]. split; [exact Hc|].
  split; [exact Hc|]. split.
  - unfold phaseOf, pause. intros Hp.
    destruct (isCompleted (state w)); [done|].
    destruct (isPlaying (state w)); [|done].
    destruct (isPaused (state w)); [done|]. exact Hc.
  - unfold skip. destruct (complete_cases (clearTimeouts w)) as (G & _).
    rewrite (grows_timers _ _ _ _ _ G). cbn [withState env].
    rewrite Hc.
    change (eventHandlers (clearTimeouts w)) with (eventHandlers w).
    change (nextTimerId (env (clearTimeouts w))) with (nextTimerId (env w)).
    change (clock (env (clearTimeouts w))) with (clock (env w)).
    by destruct (onSequenceComplete (eventHandlers w)) as [[]|].
Qed.

Lemma cancel_exactly_the_waits_witness :
  NoDup (map tid (timers (env (step CallStart
                                 (construct defaultOptions demoPage)))))
  ∧ timers (env (clearTimeouts (step CallStart
                                  (construct defaultOptions demoPage))))
    = bareTimers (timers (env (step CallStart
                                 (construct defaultOptions demoPage))))
  ∧ timers (env (stop (step CallStart (construct defaultOptions demoPage))))
    = bareTimers (timers (env (step CallStart
                                 (construct defaultOptions demoPage))))
  ∧ (phaseOf (step CallStart (construct defaultOptions demoPage)) = Playing →
     timers (env (pause (step CallStart (construct defaultOptions demoPage))))
     = bareTimers (timers (env (step CallStart
                                  (construct defaultOptions demoPage)))))
  ∧ timers (env (worldOf (skip (step CallStart
                                  (construct defaultOptions demoPage)))))
    = bareTimers (timers (env (step CallStart
                                 (construct defaultOptions demoPage))))
      ++ match onSequenceComplete
                 (eventHandlers (step CallStart
                                   (construct defaultOptions demoPage))) with
         | Some true => []
         | _ => [mkTimer
                   (nextTimerId (env (step CallStart
                                        (construct defaultOptions demoPage))))
                   (clock (env (step CallStart
                                  (construct defaultOptions demoPage)))
                    + 1000)
                   HideCallback]
         end.
Proof.
  exact (cancel_exactly_the_waits _
           (reachable_step CallStart _ (reachable_construct _ _))).
Defined.
(** ** Silence after the coroutines are cancelled *)

Lemma slideHandlerCalls_app a b :
  slideHandlerCalls (a ++ b) = slideHandlerCalls a ++ slideHandlerCalls b.
Proof. apply List.filter_app. Qed.

Lemma waitFree_loopFree ts : waitFree ts → loopFree ts.
Proof.
  intros H. eapply Forall_impl; [exact H|]. simpl. intros t Ht.
  destruct (resumesLoop (action t)) eqn:E; [|done].
  apply resumesLoop_isWaitResolver in E. congruence.
Qed.

Lemma phaseOf_flagsOf w w' : flagsOf w' = flagsOf w → phaseOf w' = phaseOf w.
Proof. unfold flagsOf, phaseOf. by intros [= -> -> ->]. Qed.

Lemma complete_silent w :
  ∃ new evs,
    extends w (worldOf (complete w)) new evs
    ∧ waitFree new ∧ slideHandlerCalls evs = []
    ∧ currentSlide (state (worldOf (complete w))) = currentSlide (state w)
    ∧ phaseOf (worldOf (complete w)) = Completed.
Proof.
  destruct (complete_cases w) as (G & Hcur & _).
  pose proof (grows_flags _ _ _ _ _ G) as Hf.
  apply extends_grows in G.
  eexists _, _. split; [exact G|]. split; [|split; [|split; [exact Hcur|]]].
  - destruct (onSequenceComplete (eventHandlers w)) as [[]|];
      repeat constructor.
  - destruct (onSequenceComplete (eventHandlers w)) as [[]|]; reflexivity.
  - by rewrite (phaseOf_flagsOf _ _ Hf).
Qed.

(** A timer that is no [wait] resolver fires. *)
Lemma runCallback_silent c w :
  isWaitResolver c = false →
  ∃ new evs,
    extends w (runCallback c w) new evs
    ∧ waitFree new ∧ slideHandlerCalls evs = []
    ∧ currentSlide (state (runCallback c w)) = currentSlide (state w)
    ∧ (phaseOf (runCallback c w) = phaseOf w
       ∨ phaseOf (runCallback c w) = Completed).
Proof.
  intros Hc.
  assert (Hg : ∀ w' new, grows w w' new [] [] → waitFree new →
               currentSlide (state w') = currentSlide (state w) →
               ∃ new evs,
                 extends w w' new evs
                 ∧ waitFree new ∧ slideHandlerCalls evs = []
                 ∧ currentSlide (state w') = currentSlide (state w)
                 ∧ (phaseOf w' = phaseOf w ∨ phaseOf w' = Completed)).
  { intros w' new G Hn Hcur. eexists _, _.
    split; [exact (extends_grows _ _ _ _ _ G)|].
    split; [exact Hn|]. split; [done|]. split; [exact Hcur|].
    left. apply phaseOf_flagsOf, (grows_flags _ _ _ _ _ G). }
  destruct c as [j prev a|l i|l| | |k| |j|j]; try discriminate Hc;
    cbn [runCallback uncaught].
  - apply (Hg _ _ (grows_hide w)); [|unfold hide; by destruct (section _)].
    destruct (section (elements w)); repeat constructor.
  - by apply (Hg _ _ (grows_hideFinish w)); [constructor|].
  - apply (Hg _ _ (grows_errorReveal k w)); [constructor|].
    unfold errorReveal, onSlide. by destruct (_ <? 0).
  - destruct (complete_silent w) as (new & evs & He & Hn & Hs & Hcur & Hp).
    exists new, evs. split; [exact He|]. split; [exact Hn|].
    split; [exact Hs|]. split; [exact Hcur | by right].
  - apply (Hg _ _ (grows_createFloatingHeart j w)); [repeat constructor|].
    unfold createFloatingHeart, onSlide. simpl. by destruct (_ <? 0).
  - apply (Hg _ _ (grows_removeHeart j w)); [constructor|].
    unfold removeHeart, onSlide. by destruct (_ <? 0).
Qed.

Lemma silentSince_fire lg0 k p id w :
  silentSince lg0 k p w → silentSince lg0 k p (fire id w).
Proof.
  intros (Hw & Hk & Hp & new0 & Hlog & Hs). unfold fire.
  destruct (findTimer id (timers (env w))) as [t|] eqn:E;
    [|by split; [|split; [|split; [|exists new0]]]].
  apply findTimer_Some in E as [Hin _].
  set (w1 := withEnv _ w).
  assert (Ht : isWaitResolver (action t) = false).
  { unfold waitFree in Hw. rewrite Forall_forall in Hw. by apply Hw. }
  destruct (runCallback_silent (action t) w1 Ht)
    as (new & evs & [He1 He2] & Hn & Hs' & Hcur & Hph).
  split; [|split; [|split]].
  - rewrite He1. apply Forall_app. split; [|exact Hn].
    by apply Forall_dropTimer.
  - by rewrite Hcur.
  - change (phaseOf w1) with (phaseOf w) in Hph.
    destruct Hph as [->|Hph]; [exact Hp | by right].
  - exists (new0 ++ evs). split.
    + rewrite He2. change (log (env w1)) with (log (env w)).
      by rewrite Hlog, app_assoc.
    + by rewrite slideHandlerCalls_app, Hs, Hs'.
Qed.

Lemma silentSince_steps lg0 k p ins w :
  forallb timerOnly ins = true → silentSince lg0 k p w →
  silentSince lg0 k p (steps ins w).
Proof.
  revert w. induction ins as [|i ins IH]; intros w Hins Hw; [exact Hw|].
  simpl in Hins. apply andb_true_iff in Hins as [Hi Hins].
  unfold steps. simpl. apply IH; [exact Hins|].
  destruct i; try discriminate Hi; simpl.
  - by apply silentSince_fire.
  - exact Hw.
Qed.

Lemma clearTimeouts_waitFree w :
  reachable w → waitFree (timers (env (clearTimeouts w))).
Proof.
  intros Hr. apply clearTimeouts_clears, (reachable_disciplined w Hr).
Qed.


(** X4. [stop()] stops for good.  From any state it leaves the sequencer
    Idle (Completed if it was completed) with an empty record of timers;
    after it, whatever timers fire, no slide handler is called,
    [currentSlide] stays, and no [wait()] is pending again. *)
Theorem stop_silences w ins :
  reachable w → forallb timerOnly ins = true →
  phaseOf (stop w) = (if isCompleted (state w) then Completed else Idle)
  ∧ timeouts (state (stop w)) = []
  ∧ waitFree (timers (env (steps ins (stop w))))
  ∧ currentSlide (state (steps ins (stop w))) = currentSlide (state w)
  ∧ (phaseOf (steps ins (stop w)) = Idle
     ∨ phaseOf (steps ins (stop w)) = Completed)
  ∧ ∃ new, log (env (steps ins (stop w))) = log (env w) ++ new
           ∧ slideHandlerCalls new = [].
Proof.
  intros Hr Hins.
  assert (Hph : phaseOf (stop w)
                = if isCompleted (state w) then Completed else Idle).
  { unfold phaseOf, stop. simpl. by destruct (isCompleted (state w)). }
  split; [exact Hph|]. split; [reflexivity|].
  apply (silentSince_steps (log (env w)) (currentSlide (state w)) Idle);
    [exact Hins|].
  split; [|split; [reflexivity|split]].
  - apply (clearTimeouts_clears
             (withState (λ s, setIsPaused false (setIsPlaying false s)) w)).
    apply (reachable_disciplined w Hr).
  - rewrite Hph. destruct (isCompleted (state w)); [by right | by left].
  - exists []. by rewrite app_nil_r.
Qed.

Lemma stop_silences_witness :
  phaseOf (stop (step CallStart (construct defaultOptions demoPage)))
  = (if isCompleted (state (step CallStart
                              (construct defaultOptions demoPage)))
     then Completed else Idle)
  ∧ timeouts (state (stop (step CallStart
                             (construct defaultOptions demoPage)))) = []
  ∧ waitFree (timers (env (steps [TimerFires 1; TimerFires 2; TimerFires 3]
                             (stop (step CallStart
                                      (construct defaultOptions demoPage))))))
  ∧ currentSlide
      (state (steps [TimerFires 1; TimerFires 2; TimerFires 3]
                (stop (step CallStart (construct defaultOptions demoPage)))))
    = currentSlide (state (step CallStart (construct defaultOptions demoPage)))
  ∧ (phaseOf (steps [TimerFires 1; TimerFires 2; TimerFires 3]
                (stop (step CallStart (construct defaultOptions demoPage))))
     = Idle
     ∨ phaseOf (steps [TimerFires 1; TimerFires 2; TimerFires 3]
                  (stop (step CallStart (construct defaultOptions demoPage))))
       = Completed)
  ∧ ∃ new,
      log (env (steps [TimerFires 1; TimerFires 2; TimerFires 3]
                  (stop (step CallStart (construct defaultOptions demoPage)))))
      = log (env (step CallStart (construct defaultOptions demoPage))) ++ new
      ∧ slideHandlerCalls new = [].
Proof.
  refine (stop_silences (step CallStart (construct defaultOptions demoPage))
            [TimerFires 1; TimerFires 2; TimerFires 3]
            (reachable_step CallStart _ (reachable_construct _ _)) _).
  vm_compute. reflexivity.
Defined.

(** X5. [skip()] completes from any state, for good: the sequencer is
    Completed, the completion callback is called (if set) and, unless it
    throws, the event broadcast; after it, whatever timers fire, the
    sequencer stays Completed, no slide handler is called and
    [currentSlide] stays. *)
Theorem skip_completes_for_good w ins :
  reachable w → forallb timerOnly ins = true →
  log (env (worldOf (skip w)))
  = log (env w)
    ++ stamped (clock (env w))
         (observed (onSequenceComplete (eventHandlers w))
            (OnSequenceComplete [("duration", VNumber (elapsed w));
                                 ("slideCount", VNumber (messageCount w))])
          ++ match onSequenceComplete (eventHandlers w) with
             | Some true => []
             | _ => [Dispatched "introSlidesComplete"
                       [("component", VComponent);
                        ("duration", VNumber (elapsed w))]]
             end)
  ∧ phaseOf (steps ins (worldOf (skip w))) = Completed
  ∧ waitFree (timers (env (steps ins (worldOf (skip w)))))
  ∧ currentSlide (state (steps ins (worldOf (skip w))))
    = currentSlide (state w)
  ∧ ∃ new, log (env (steps ins (worldOf (skip w))))
           = log (env (worldOf (skip w))) ++ new
           ∧ slideHandlerCalls new = [].
Proof.
  intros Hr Hins. unfold skip.
  destruct (complete_cases (clearTimeouts w)) as (G & Hcur & _).
  split.
  { rewrite (grows_log _ _ _ _ _ G). cbn [withState env].
    change (log (env (clearTimeouts w))) with (log (env w)).
    change (clock (env (clearTimeouts w))) with (clock (env w)).
    change (eventHandlers (clearTimeouts w)) with (eventHandlers w).
    change (elapsed (clearTimeouts w)) with (elapsed w).
    change (messageCount (clearTimeouts w)) with (messageCount w).
    by destruct (onSequenceComplete (eventHandlers w)) as [[]|]. }
  destruct (silentSince_steps
              (log (env (worldOf (complete (clearTimeouts w)))))
              (currentSlide (state w)) Completed ins
              (worldOf (complete (clearTimeouts w))) Hins)
    as (Hw & Hk & Hp & Hl).
  { split; [|split; [exact Hcur|split]].
    - rewrite (grows_timers _ _ _ _ _ G). apply Forall_app. split.
      + by apply clearTimeouts_waitFree.
      + destruct (onSequenceComplete (eventHandlers _)) as [[]|];
          repeat constructor.
    - left. rewrite (phaseOf_flagsOf _ _ (grows_flags _ _ _ _ _ G)).
      reflexivity.
    - exists []. by rewrite app_nil_r. }
  split; [by destruct Hp|]. done.
Qed.

Lemma skip_completes_for_good_witness :
  log (env (worldOf (skip (step CallStart
                             (construct defaultOptions demoPage)))))
  = log (env (step CallStart (construct defaultOptions demoPage)))
    ++ stamped (clock (env (step CallStart
                              (construct defaultOptions demoPage))))
         (observed
            (onSequenceComplete
               (eventHandlers (step CallStart
                                 (construct defaultOptions demoPage))))
            (OnSequenceComplete
               [("duration",
                 VNumber (elapsed (step CallStart
                                     (construct defaultOptions demoPage))));
                ("slideCount",
                 VNumber (messageCount
                            (step CallStart
                               (construct defaultOptions demoPage))))])
          ++ match onSequenceComplete
                     (eventHandlers (step CallStart
                                       (construct defaultOptions demoPage)))
             with
             | Some true => []
             | _ => [Dispatched "introSlidesComplete"
                       [("component", VComponent);
                        ("duration",
                         VNumber (elapsed
                                    (step CallStart
                                       (construct defaultOptions
                                          demoPage))))]]
             end)
  ∧ phaseOf (steps [TimerFires 1; TimerFires 3; TimerFires 4]
               (worldOf (skip (step CallStart
                                 (construct defaultOptions demoPage)))))
    = Completed
  ∧ waitFree
      (timers (env (steps [TimerFires 1; TimerFires 3; TimerFires 4]
                      (worldOf (skip (step CallStart
                                        (construct defaultOptions
                                           demoPage)))))))
  ∧ currentSlide
      (state (steps [TimerFires 1; TimerFires 3; TimerFires 4]
                (worldOf (skip (step CallStart
                                  (construct defaultOptions demoPage))))))
    = currentSlide (state (step CallStart (construct defaultOptions demoPage)))
  ∧ ∃ new,
      log (env (steps [TimerFires 1; TimerFires 3; TimerFires 4]
                  (worldOf (skip (step CallStart
                                    (construct defaultOptions demoPage))))))
      = log (env (worldOf (skip (step CallStart
                                   (construct defaultOptions demoPage)))))
        ++ new
      ∧ slideHandlerCalls new = [].
Proof.
  refine (skip_completes_for_good
            (step CallStart (construct defaultOptions demoPage))
            [TimerFires 1; TimerFires 3; TimerFires 4]
            (reachable_step CallStart _ (reachable_construct _ _)) _).
  vm_compute. reflexivity.
Defined.

(** ** [nextSlide()] *)

Lemma loopFree_fire id w :
  loopFree (timers (env w)) →
  loopFree (timers (env (fire id w)))
  ∧ ∃ evs, log (env (fire id w)) = log (env w) ++ evs
           ∧ startedIndices evs = [].
Proof.
  intros Hw. unfold fire.
  destruct (findTimer id (timers (env w))) as [t|] eqn:E.
  2: { split; [exact Hw|]. exists []. by rewrite app_nil_r. }
  apply findTimer_Some in E as [Hin _].
  set (w1 := withEnv _ w).
  destruct (runCallback_extends (action t) w1) as (new & evs & [He1 He2] & Hm).
  assert (Ht : reachedBy (action t) = None).
  { unfold loopFree in Hw. rewrite Forall_forall in Hw.
    specialize (Hw t Hin). destruct (reachedBy (action t)) eqn:Eb; [|done].
    apply reachedBy_resumesLoop in Eb. congruence. }
  rewrite Ht in Hm. destruct Hm as [Hs Hn].
  split.
  - rewrite He1. apply loopFree_app; [|exact Hn]. by apply Forall_dropTimer.
  - exists evs. split; [exact He2 | exact Hs].
Qed.

Lemma loopFree_steps ins w :
  forallb timerOnly ins = true → loopFree (timers (env w)) →
  loopFree (timers (env (steps ins w)))
  ∧ ∃ evs, log (env (steps ins w)) = log (env w) ++ evs
           ∧ startedIndices evs = [].
Proof.
  revert w. induction ins as [|i ins IH]; intros w Hins Hw.
  { split; [exact Hw|]. exists []. by rewrite app_nil_r. }
  simpl in Hins. apply andb_true_iff in Hins as [Hi Hins].
  assert (H1 : loopFree (timers (env (step i w)))
               ∧ ∃ evs, log (env (step i w)) = log (env w) ++ evs
                        ∧ startedIndices evs = []).
  { destruct i; try discriminate Hi; simpl.
    - by apply loopFree_fire.
    - split; [exact Hw|]. exists []. by rewrite app_nil_r. }
  destruct H1 as (Hw1 & e1 & Hl1 & Hs1).
  destruct (IH (step i w) Hins Hw1) as (Hw2 & e2 & Hl2 & Hs2).
  unfold steps in *. simpl. split; [exact Hw2|].
  exists (e1 ++ e2). split.
  - by rewrite Hl2, Hl1, app_assoc.
  - by rewrite startedIndices_app, Hs1, Hs2.
Qed.

(** X6. [nextSlide()] does nothing unless the sequencer is playing
    (paused or not) and a message follows the current slide.  Otherwise
    it cancels every [wait()] and shows the next slide without awaiting
    it: [currentSlide] advances (if that slide element exists),
    [isPaused] stays as it is, and the play loop is gone: no pending
    timer resumes a loop, and whatever timers fire afterwards,
    [onSlideStart] is not called again. *)
Theorem nextSlide_drops_the_loop w ins :
  reachable w → forallb timerOnly ins = true →
  (isPlaying (state w) = false
   ∨ messageCount w - 1 ≤ currentSlide (state w) → nextSlide w = w)
  ∧ (isPlaying (state w) = true →
     currentSlide (state w) < messageCount w - 1 →
     nextSlide w
     = uncaught (showSlide (currentSlide (state w) + 1) Dropped
                   (clearTimeouts w))
     ∧ isPaused (state (nextSlide w)) = isPaused (state w)
     ∧ (0 ≤ currentSlide (state w) + 1 < slideCount w →
        currentSlide (state (nextSlide w)) = currentSlide (state w) + 1)
     ∧ loopFree (timers (env (steps ins (nextSlide w))))
     ∧ ∃ new, log (env (steps ins (nextSlide w)))
              = log (env (nextSlide w)) ++ new
              ∧ startedIndices new = []).
Proof.
  intros Hr Hins. unfold nextSlide. split.
  { intros [->|Hk]; [done|].
    destruct (negb (isPlaying (state w))); [done|]. simpl.
    by destruct (Z.leb_spec (messageCount w - 1) (currentSlide (state w)));
      [|lia]. }
  intros -> Hk. simpl negb. cbn [orb].
  destruct (Z.leb_spec (messageCount w - 1) (currentSlide (state w)));
    [lia|].
  cbv zeta. change (currentSlide (state (clearTimeouts w)))
    with (currentSlide (state w)).
  set (k := currentSlide (state w) + 1).
  split; [reflexivity|].
  pose proof (showSlide_cases k Dropped (clearTimeouts w)) as Hc.
  pose proof (waitFree_loopFree _ (clearTimeouts_waitFree w Hr)) as Hfree.
  assert (H3 : isPaused (state (uncaught (showSlide k Dropped
                                             (clearTimeouts w))))
               = isPaused (state w)
               ∧ (0 ≤ k < slideCount w →
                  currentSlide (state (uncaught (showSlide k Dropped
                                                   (clearTimeouts w)))) = k)
               ∧ loopFree (timers (env (uncaught (showSlide k Dropped
                                                    (clearTimeouts w)))))).
  { destruct (showSlide k Dropped (clearTimeouts w)) as [w'|w'|w'];
      cbn [uncaught worldOf].
    - destruct Hc as [-> Hout]. split; [done|]. split; [|exact Hfree].
      change (slideCount (clearTimeouts w)) with (slideCount w) in Hout.
      intros Hin. apply orb_true_iff in Hout as [Hout|Hout];
        [apply Z.ltb_lt in Hout | apply Z.leb_le in Hout]; lia.
    - destruct Hc as (_ & _ & Hcur & hs & G & _ & Hhs).
      split; [apply (isPaused_grows _ _ _ _ _ G)|]. split; [done|].
      rewrite (grows_timers _ _ _ _ _ G). apply loopFree_app; [exact Hfree|].
      apply loopFree_app; [|by repeat constructor].
      eapply Forall_impl; [exact Hhs|]. simpl. by intros t ->.
    - destruct Hc as (_ & _ & G & Hcur).
      split; [apply (isPaused_grows _ _ _ _ _ G)|]. split; [done|].
      rewrite (grows_timers _ _ _ _ _ G). by rewrite app_nil_r. }
  destruct H3 as (Hpa & Hcur & Hfree').
  split; [exact Hpa|]. split; [exact Hcur|].
  apply loopFree_steps; [exact Hins | exact Hfree'].
Qed.

Lemma nextSlide_drops_the_loop_witness :
  nextSlide (step CallStart (construct defaultOptions demoPage))
  = uncaught (showSlide
                (currentSlide (state (step CallStart
                                        (construct defaultOptions demoPage)))
                 + 1) Dropped
                (clearTimeouts (step CallStart
                                  (construct defaultOptions demoPage))))
  ∧ isPaused (state (nextSlide (step CallStart
                                  (construct defaultOptions demoPage))))
    = isPaused (state (step CallStart (construct defaultOptions demoPage)))
  ∧ (0 ≤ currentSlide (state (step CallStart
                                (construct defaultOptions demoPage))) + 1
     < slideCount (step CallStart (construct defaultOptions demoPage)) →
     currentSlide (state (nextSlide (step CallStart
                                       (construct defaultOptions demoPage))))
     = currentSlide (state (step CallStart
                              (construct defaultOptions demoPage))) + 1)
  ∧ loopFree
      (timers (env (steps [TimerFires 0; TimerFires 5; TimerFires 1]
                      (nextSlide (step CallStart
                                    (construct defaultOptions demoPage))))))
  ∧ ∃ new,
      log (env (steps [TimerFires 0; TimerFires 5; TimerFires 1]
                  (nextSlide (step CallStart
                                (construct defaultOptions demoPage)))))
      = log (env (nextSlide (step CallStart
                               (construct defaultOptions demoPage))))
        ++ new
      ∧ startedIndices new = [].
Proof.
  refine (proj2 (nextSlide_drops_the_loop
                   (step CallStart (construct defaultOptions demoPage))
                   [TimerFires 0; TimerFires 5; TimerFires 1]
                   (reachable_step CallStart _ (reachable_construct _ _)) _)
            _ _).
  - vm_compute. reflexivity.
  - vm_compute. reflexivity.
  - vm_compute. reflexivity.
Defined.
(** ** A started sequence completes *)

Lemma elem_of_dropTimer (t : timer) id ts :
  t ∈ ts → tid t ≠ id → t ∈ dropTimer id ts.
Proof.
  intros Hin Hne. apply list_elem_of_In, filter_In.
  split; [by apply list_elem_of_In|].
  apply negb_true_iff, Nat.eqb_neq. exact Hne.
Qed.

(** Another timer of a queue with distinct ids. *)
Lemma other_timer (t u : timer) ts :
  NoDup (map tid ts) → t ∈ ts → u ∈ ts → t ≠ u → tid u ≠ tid t.
Proof.
  intros Hn Ht Hu Hne Heq. apply Hne. clear Hne.
  induction ts as [|x ts IH]; [by apply elem_of_nil in Ht|].
  simpl in Hn. apply NoDup_cons in Hn as [Hx Hn].
  assert (Hin : ∀ v : timer, v ∈ ts → tid v ∈ map tid ts).
  { intros v Hv. by apply list_elem_of_In, in_map, list_elem_of_In. }
  apply elem_of_cons in Ht as [->|Ht], Hu as [->|Hu].
  - reflexivity.
  - destruct Hx. rewrite <- Heq. by apply Hin.
  - destruct Hx. rewrite Heq. by apply Hin.
  - by apply IH.
Qed.

Lemma pending_new (ts : list timer) t : t ∈ ts ++ [t].
Proof. apply elem_of_app. right. apply list_elem_of_here. Qed.

Lemma pending_last (ts rs : list timer) t : t ∈ ts ++ rs ++ [t].
Proof. apply elem_of_app. right. apply pending_new. Qed.

Lemma completing_extends w w' new evs :
  extends w w' new evs → flagsOf w' = flagsOf w → completing w →
  completing w'.
Proof.
  intros [Ht _] Hf. unfold flagsOf in Hf. injection Hf as Hpl Hpa Hco.
  unfold completing, playing. rewrite Ht, Hpl, Hpa, Hco.
  intros [H|[(t & Hin & Ha)|(Hp & t & Hin & Ha)]].
  - by left.
  - right. left. exists t. split; [|done]. apply elem_of_app. by left.
  - right. right. split; [done|]. exists t. split; [|done].
    apply elem_of_app. by left.
Qed.

Lemma completing_complete l w : completing (settle l (complete w)).
Proof.
  destruct (complete_cases w) as (G & _ & Er).
  assert (Hc : isCompleted (state (worldOf (complete w))) = true)
    by apply complete_flags.
  rewrite Er.
  destruct (match onSequenceComplete (eventHandlers w) with
            | Some true => true
            | _ => false
            end).
  - destruct l; cbn [settle caughtByStart uncaught worldOf]; [|by left].
    left. rewrite handleError_state. exact Hc.
  - destruct l; by left.
Qed.

(** What [start()] catches ends in a pending completion. *)
Lemma completing_caught w : completing (caughtByStart (Rejected w)).
Proof.
  cbn [caughtByStart].
  destruct (handleError_cases
              (emit (ConsoleError "Error during slide sequence:") w))
    as (rs & G & _).
  right. left. rewrite (grows_timers _ _ _ _ _ G).
  eexists. split; [apply pending_last | reflexivity].
Qed.

Lemma completing_loopFrom i w :
  playing w = true →
  completing (caughtByStart (loopFrom PlaySequence i w)).
Proof.
  intros Hp. pose proof (loopFrom_cases PlaySequence i w) as Hc.
  destruct (loopFrom PlaySequence i w) as [w'|w'|w'].
  - destruct Hc as [_ Hc]. congruence.
  - cbn [caughtByStart]. right. right.
    destruct Hc as [_ [(_ & _ & _ & _ & hs & G & _)|[(_ & _ & ->)|(_ & ->)]]].
    + split; [by rewrite (playing_grows _ _ _ _ _ G)|].
      rewrite (grows_timers _ _ _ _ _ G).
      eexists. split; [apply pending_last | reflexivity].
    + split; [exact Hp|].
      eexists. split; [apply pending_new | reflexivity].
    + split; [exact Hp|].
      eexists. split; [apply pending_new | reflexivity].
  - apply completing_caught.
Qed.

(** The timer that the completion hangs on fires. *)
Lemma completing_resumed c w :
  resumesPlay c = true → playing w = true → completing (runCallback c w).
Proof.
  intros Hc Hp.
  destruct c as [j prev [[] i|]|[] i|[]| | |k| |j|j]; try discriminate Hc;
    cbn [runCallback].
  - destruct (showSlideRest_cases j prev w) as (G & _ & Er). rewrite Er.
    destruct (throwsAt (onSlideComplete (eventHandlers w)) j
              || throwsAt (onProgress (eventHandlers w)) j);
      cbn [andThen settle]; [apply completing_caught|].
    rewrite afterShow_loopFrom.
    assert (Hp' : playing (worldOf (showSlideRest j prev w)) = true)
      by (by rewrite (playing_grows _ _ _ _ _ G)).
    destruct (i <? messageCount (worldOf (showSlideRest j prev w)) - 1).
    + right. right. split; [exact Hp'|].
      eexists. split; [apply pending_new | reflexivity].
    + by apply completing_loopFrom.
  - rewrite afterDelay_loopFrom. by apply completing_loopFrom.
  - apply completing_complete.
Qed.

(** A timer the completion does not hang on. *)
Lemma completing_aside c w :
  completing w → resumesPlay c && playing w = false →
  completing (runCallback c w).
Proof.
  intros H1 Er.
  assert (Hg : ∀ w' new evs, grows w w' new [] evs → completing w').
  { intros w' new evs G.
    exact (completing_extends _ _ _ _ (extends_grows _ _ _ _ _ G)
             (grows_flags _ _ _ _ _ G) H1). }
  assert (Hwait : ∀ d c', completing (wait d c' w)).
  { intros d c'.
    exact (completing_extends _ _ _ _
             (extends_grows _ _ _ _ _ (grows_wait d c' w))
             (grows_flags _ _ _ _ _ (grows_wait d c' w)) H1). }
  assert (Hloop : ∀ l i w2, completing w2 →
            (l = PlaySequence → playing w2 = false) →
            completing (settle l (loopFrom l i w2))).
  { intros l i w2 H2 Hl. pose proof (loopFrom_cases l i w2) as Hc.
    destruct (loopFrom l i w2) as [w'|w'|w'].
    - destruct Hc as [-> _]. by destruct l.
    - destruct Hc as [Hp Hc]. destruct l; [by rewrite Hl in Hp|].
      cbn [settle uncaught worldOf].
      destruct Hc as [(_ & _ & _ & _ & hs & G & _)|[(_ & _ & ->)|(_ & ->)]].
      + exact (completing_extends _ _ _ _ (extends_grows _ _ _ _ _ G)
                 (grows_flags _ _ _ _ _ G) H2).
      + exact (completing_extends _ _ _ _
                 (extends_grows _ _ _ _ _ (grows_wait _ _ _))
                 (grows_flags _ _ _ _ _ (grows_wait _ _ _)) H2).
      + exact (completing_extends _ _ _ _
                 (extends_grows _ _ _ _ _ (grows_wait _ _ _))
                 (grows_flags _ _ _ _ _ (grows_wait _ _ _)) H2).
    - destruct Hc as (_ & _ & _ & _ & G & _).
      destruct l; [apply completing_caught|]. cbn [settle uncaught worldOf].
      exact (completing_extends _ _ _ _ (extends_grows _ _ _ _ _ G)
               (grows_flags _ _ _ _ _ G) H2). }
  destruct c as [j prev [l i|]|l i|l| | |k| |j|j];
    cbn [runCallback uncaught].
  - destruct (showSlideRest_cases j prev w) as (G & _ & E1).
    pose proof (Hg _ _ _ G) as H2.
    pose proof (playing_grows _ _ _ _ _ G) as Hp2.
    rewrite E1.
    destruct (throwsAt (onSlideComplete (eventHandlers w)) j
              || throwsAt (onProgress (eventHandlers w)) j);
      cbn [andThen].
    { destruct l; [apply completing_caught | exact H2]. }
    rewrite afterShow_loopFrom.
    destruct (i <? messageCount (worldOf (showSlideRest j prev w)) - 1).
    { destruct l; cbn [settle caughtByStart uncaught worldOf];
        (eapply completing_extends;
         [exact (extends_grows _ _ _ _ _ (grows_wait _ _ _))
         | apply (grows_flags _ _ _ _ _ (grows_wait _ _ _)) | exact H2]). }
    apply Hloop; [exact H2|]. intros ->. rewrite Hp2.
    by destruct (playing w).
  - destruct (showSlideRest_cases j prev w) as (G & _ & _).
    exact (Hg _ _ _ G).
  - rewrite afterDelay_loopFrom. apply Hloop; [exact H1|].
    intros ->. by destruct (playing w).
  - apply completing_complete.
  - exact (Hg _ _ _ (grows_hide w)).
  - exact (Hg _ _ _ (grows_hideFinish w)).
  - exact (Hg _ _ _ (grows_errorReveal k w)).
  - apply (completing_complete ContinueSequence).
  - exact (Hg _ _ _ (grows_createFloatingHeart j w)).
  - exact (Hg _ _ _ (grows_removeHeart j w)).
Qed.

Lemma completing_fire id w :
  NoDup (map tid (timers (env w))) → completing w → completing (fire id w).
Proof.
  intros Hn Hc. unfold fire.
  destruct (findTimer id (timers (env w))) as [u|] eqn:E; [|exact Hc].
  apply findTimer_Some in E as [Hu <-].
  set (w1 := withEnv _ w).
  assert (Hp1 : playing w1 = playing w) by reflexivity.
  destruct (resumesPlay (action u) && playing w) eqn:Er.
  { apply andb_true_iff in Er as [Er Hp]. by apply completing_resumed. }
  destruct Hc as [H|[(t & Hin & Ha)|(Hp & t & Hin & Ha)]].
  - apply completing_aside; [by left | by rewrite Hp1].
  - destruct (action u) eqn:Eu;
      try (apply completing_aside; [|by rewrite Hp1];
           right; left; exists t; split; [|exact Ha];
           apply elem_of_dropTimer; [exact Hin|];
           apply (other_timer u t _ Hn Hu Hin); congruence).
    apply (completing_complete ContinueSequence).
  - apply completing_aside; [|by rewrite Hp1].
    right. right. split; [exact Hp|]. exists t. split; [|exact Ha].
    apply elem_of_dropTimer; [exact Hin|].
    apply (other_timer u t _ Hn Hu Hin). intros <-.
    rewrite Ha, Hp in Er. discriminate.
Qed.

Lemma completing_steps ins w :
  forallb timerOnly ins = true → registered w → completing w →
  completing (steps ins w).
Proof.
  revert w. induction ins as [|i ins IH]; intros w Hins Hr Hw; [exact Hw|].
  simpl in Hins. apply andb_true_iff in Hins as [Hi Hins].
  unfold steps. simpl. apply IH; [exact Hins|by apply registered_step|].
  destruct i; try discriminate Hi; simpl.
  - apply completing_fire; [apply Hr | exact Hw].
  - exact Hw.
Qed.

Lemma completing_start w :
  isPlaying (state w) = false → isCompleted (state w) = false →
  completing (start w).
Proof.
  intros Hpl Hco. rewrite start_unfold, Hpl, Hco. simpl.
  by apply completing_loopFrom.
Qed.

Lemma completing_at_rest w :
  completing w → timers (env w) = [] → phaseOf w = Completed.
Proof.
  intros [H|[(t & Hin & _)|(_ & t & Hin & _)]] Ht.
  - unfold phaseOf. by rewrite H.
  - rewrite Ht in Hin. by apply elem_of_nil in Hin.
  - rewrite Ht in Hin. by apply elem_of_nil in Hin.
Qed.

(** The timers of [run] are inputs of the event loop. *)
Lemma run_steps fuel w :
  ∃ ins, forallb timerOnly ins = true ∧ run fuel w = steps ins w.
Proof.
  revert w. induction fuel as [|fuel IH]; intros w; [by exists []|].
  simpl. destruct (earliest (timers (env w))) as [t|]; [|by exists []].
  destruct (IH (fire (tid t) w)) as (ins & Hins & ->).
  by exists (TimerFires (tid t) :: ins).
Qed.

(** X7. A sequence that [start()] begins can only come to rest
    Completed: left to its timers, in whatever order they fire, an empty
    timer queue means the sequencer is Completed, whether the handlers
    throw or not.  And it does come to rest: on a component with at
    least as many slide elements as messages and only page timers pending,
    when the timers fire as they are due the queue is empty after
    [budget w 0] of them. *)
Theorem start_ends_completed w ins fuel :
  reachable w → isPlaying (state w) = false → isCompleted (state w) = false →
  forallb timerOnly ins = true →
  (timers (env (steps ins (start w))) = [] →
   phaseOf (steps ins (start w)) = Completed)
  ∧ (quiet w →
     count (config w) ≤ Z.of_nat (length (slides (elements w))) →
     (budget w 0 ≤ fuel)%nat →
     timers (env (run fuel (start w))) = []
     ∧ phaseOf (run fuel (start w)) = Completed).
Proof.
  intros Hr Hpl Hco Hins.
  pose proof (registered_start w (reachable_registered w Hr)) as Hreg.
  pose proof (completing_start w Hpl Hco) as Hc.
  split.
  - intros Ht. apply completing_at_rest; [|exact Ht].
    by apply completing_steps.
  - intros Hq Hm Hfuel.
    destruct (run_start w fuel Hq Hpl Hco Hm Hfuel) as (_ & Ht & _).
    split; [exact Ht|]. apply completing_at_rest; [|exact Ht].
    destruct (run_steps fuel (start w)) as (ins' & Hins' & ->).
    by apply completing_steps.
Qed.
Lemma start_ends_completed_witness :
  phaseOf (steps [TimerFires 0; TimerFires 1; TimerFires 2; TimerFires 3;
                  TimerFires 4; TimerFires 5; TimerFires 6; TimerFires 7]
             (start (construct failingOptions demoPage)))
  = Completed
  ∧ timers (env (run 80 (start (construct failingOptions demoPage)))) = []
  ∧ phaseOf (run 80 (start (construct failingOptions demoPage))) = Completed.
Proof.
  pose proof (start_ends_completed (construct failingOptions demoPage)
                [TimerFires 0; TimerFires 1; TimerFires 2; TimerFires 3;
                 TimerFires 4; TimerFires 5; TimerFires 6; TimerFires 7]
                80 (reachable_construct _ _)) as H.
  destruct H as [H1 H2].
  - vm_compute. reflexivity.
  - vm_compute. reflexivity.
  - vm_compute. reflexivity.
  - split.
    + apply H1. vm_compute. reflexivity.
    + apply H2.
      * split; [vm_compute; constructor|].
        split; [vm_compute; constructor | vm_compute; reflexivity].
      * vm_compute. discriminate.
      * vm_compute. lia.
Defined.

(** ** The page events outside a play-through *)

(** X8. While the sequencer is not playing (Idle or Completed), the
    listeners of the component ignore the keyboard, clicks and changes
    of the page's visibility: none of them starts, skips or resumes
    anything. *)
Theorem page_events_ignored_unless_playing w key documentHidden :
  reachable w → isPlaying (state w) = false →
  step (KeyDown key) w = w
  ∧ step Click w = w
  ∧ step (VisibilityChange documentHidden) w = w.
Proof.
  intros Hr Hpl. destruct (reachable_disciplined w Hr) as (_ & Hq & _).
  assert (Hpa : isPaused (state w) = false).
  { destruct (isPaused (state w)) eqn:E; [|done].
    destruct (Hq E) as [Hp _]. congruence. }
  cbn [step]. unfold onKeyDown, onClick, onVisibilityChange.
  rewrite Hpl, Hpa. simpl. rewrite !andb_false_r.
  by destruct (listening w).
Qed.

Lemma page_events_ignored_unless_playing_witness :
  step (KeyDown "Escape")
    (step CallSkip (step CallStart (construct defaultOptions demoPage)))
  = step CallSkip (step CallStart (construct defaultOptions demoPage))
  ∧ step Click
      (step CallSkip (step CallStart (construct defaultOptions demoPage)))
    = step CallSkip (step CallStart (construct defaultOptions demoPage))
  ∧ step (VisibilityChange false)
      (step CallSkip (step CallStart (construct defaultOptions demoPage)))
    = step CallSkip (step CallStart (construct defaultOptions demoPage)).
Proof.
  refine (page_events_ignored_unless_playing
            (step CallSkip (step CallStart (construct defaultOptions demoPage)))
            "Escape" false
            (reachable_step CallSkip _
               (reachable_step CallStart _ (reachable_construct _ _))) _).
  vm_compute. reflexivity.
Defined.
(** ** [restart()] *)

Lemma elements_scheduleHearts n j w :
  elements (scheduleHearts n j w) = elements w.
Proof.
  revert w. induction n as [|n IH]; intros w; simpl; [done|].
  by rewrite IH.
Qed.

Lemma map_look_alter f i (l : list slideEl) :
  (∀ sl, look (f sl) = look sl) → map look (alter f i l) = map look l.
Proof.
  intros Hf. revert i. induction l as [|x l IH]; intros [|i]; simpl;
    rewrite ?Hf; try reflexivity.
  f_equal. apply IH.
Qed.

Lemma look_addHeartEffect j w :
  map look (slides (elements (addHeartEffect j w)))
  = map look (slides (elements w)).
Proof.
  unfold addHeartEffect. destruct (accessibilityMode (config w)); [done|].
  cbv zeta.
  match goal with |- context [onSlide j ?f w] => set (w1 := onSlide j f w) end.
  rewrite (surjective_pairing (random w1)). cbv iota beta.
  rewrite elements_scheduleHearts. simpl. subst w1. unfold onSlide.
  destruct (j <? 0); [done|]. simpl. by apply map_look_alter.
Qed.

(** What [showSlide(j)] does to the slides before its [await]: the slide
    that was current exits, slide [j] is shown. *)
Lemma showSlide_look j a w w' :
  showSlide j a w = Suspended w' →
  map look (slides (elements w'))
  = map look
      (slides (elements
         (onSlide j (λ sl, mkSlide true (exiting sl) "visible" (opacity sl)
                             (transition sl) (heartsContainer sl) (hearts sl))
            (onSlide (currentSlide (state w))
               (λ sl, mkSlide false true (visibility sl) (opacity sl)
                        (transition sl) (heartsContainer sl) (hearts sl))
               w)))).
Proof.
  unfold showSlide. destruct ((j <? 0) || (slideCount w <=? j)); [done|].
  cbv zeta. unfold invoke.
  destruct (onSlideStart (eventHandlers _)) as [f|];
    [destruct (f j); [done|]|]; cbn [andThen]; intros [= <-];
    (match goal with
     | |- context [if ?b then addHeartEffect j ?w5 else _] =>
         destruct b; cbn [wait setTimeout withState withEnv elements
                          announceSlide];
         rewrite ?look_addHeartEffect
     end);
    unfold onSlide; destruct (currentSlide (state w) <? 0), (j <? 0);
    reflexivity.
Qed.
Lemma stop_waitFree w : reachable w → waitFree (timers (env (stop w))).
Proof.
  intros Hr.
  apply (clearTimeouts_clears
           (withState (λ s, setIsPaused false (setIsPlaying false s)) w)).
  apply (reachable_disciplined w Hr).
Qed.

(** [restart()] where it shows the first slide. *)
Lemma restart_first_slide w :
  reachable w → 0 < messageCount w → 0 < slideCount w →
  throwsAt (onSlideStart (eventHandlers w)) 0 = false →
  phaseOf (restart w) = Playing
  ∧ currentSlide (state (restart w)) = 0
  ∧ startTime (state (restart w)) = Some (clock (env w))
  ∧ map look (slides (elements (restart w)))
    = shownLook :: map (λ _, hiddenLook) (tail (slides (elements w)))
  ∧ map action (loopTimers (restart w))
    = [ShowSlideRest 0 (-1) (AwaitedBy PlaySequence 0)]
  ∧ (∃ new, timers (env (restart w)) = timers (env (stop w)) ++ new)
  ∧ (is_Some (section (elements w)) →
     is_Some (section (elements (restart w)))).
Proof.
  intros Hr HN HM Hthrow. unfold restart. rewrite start_unfold.
  set (w0 := resetSlides (stop w)).
  change (isPlaying (state w0) || isCompleted (state w0)) with false.
  cbv iota.
  set (w2 := onSection _ _).
  assert (Hm2 : messageCount w2 = messageCount w) by reflexivity.
  assert (Hs2 : slideCount w2 = slideCount w).
  { unfold slideCount. simpl. by rewrite length_map. }
  assert (Hh2 : eventHandlers w2 = eventHandlers w) by reflexivity.
  assert (Hc2 : currentSlide (state w2) = -1) by reflexivity.
  assert (Ht2 : timers (env w2) = timers (env (stop w))) by reflexivity.
  assert (Hsl2 : slides (elements w2)
                 = map (λ sl, mkSlide false false "hidden" "0" (transition sl)
                                (heartsContainer sl) (hearts sl))
                     (slides (elements w))) by reflexivity.
  rewrite loopFrom_unfold, Hm2.
  destruct (Z.leb_spec (messageCount w) 0) as [|_]; [lia|].
  change (isPlaying (state w2)) with true.
  change (isPaused (state w2)) with false. cbn [negb orb].
  pose proof (showSlide_cases 0 (AwaitedBy PlaySequence 0) w2) as Hc.
  pose proof (showSlide_look 0 (AwaitedBy PlaySequence 0) w2) as Hl.
  rewrite Hs2, Hh2 in Hc.
  destruct (showSlide 0 (AwaitedBy PlaySequence 0) w2) as [w'|w'|w'].
  - destruct Hc as [_ Hc]. apply orb_true_iff in Hc as [Hc|Hc];
      [discriminate | apply Z.leb_le in Hc; lia].
  - destruct Hc as (_ & _ & Hcur & hs & G & _ & Hhs).
    cbn [caughtByStart].
    split; [|split; [exact Hcur|split; [|split; [|split; [|split]]]]].
    + rewrite (phaseOf_flagsOf _ _ (grows_flags _ _ _ _ _ G)). reflexivity.
    + rewrite (grows_startTime _ _ _ _ _ G). reflexivity.
    + rewrite (Hl w' eq_refl), Hc2. unfold onSlide. simpl.
      unfold slideCount in HM.
      destruct (slides (elements w)) as [|sl rest]; [simpl in HM; lia|].
      simpl. f_equal. rewrite map_map. reflexivity.
    + unfold loopTimers. rewrite (grows_timers _ _ _ _ _ G), Ht2, Hc2.
      rewrite !loopOnly_app.
      rewrite (loopFree_loopOnly _ (waitFree_loopFree _ (stop_waitFree w Hr))).
      rewrite (loopFree_loopOnly hs).
      2: { eapply Forall_impl; [exact Hhs|]. simpl. by intros t ->. }
      reflexivity.
    + eexists. rewrite (grows_timers _ _ _ _ _ G), Ht2. reflexivity.
    + intros Hsec. apply (grows_section _ _ _ _ _ G).
      subst w2 w0. simpl. by apply fmap_is_Some.
  - destruct Hc as (_ & Hc & _). congruence.
Qed.


(** X9. [restart()] begins again from any state, the completed one
    included: if there is a message and a slide element and
    [onSlideStart] does not throw for the first slide, the sequencer is
    Playing at slide 0 with a new start time, the first slide is shown
    and every other slide is as [resetSlides()] leaves it (hidden,
    transparent, neither active nor exiting), and exactly one timer
    resumes a loop: the one of the first slide, in the loop of
    [playSequence()]. *)
Theorem restart_shows_first_slide w :
  reachable w → 0 < messageCount w → 0 < slideCount w →
  throwsAt (onSlideStart (eventHandlers w)) 0 = false →
  phaseOf (restart w) = Playing
  ∧ currentSlide (state (restart w)) = 0
  ∧ startTime (state (restart w)) = Some (clock (env w))
  ∧ map look (slides (elements (restart w)))
    = shownLook :: map (λ _, hiddenLook) (tail (slides (elements w)))
  ∧ map action (loopTimers (restart w))
    = [ShowSlideRest 0 (-1) (AwaitedBy PlaySequence 0)].
Proof.
  intros Hr HN HM Hthrow.
  destruct (restart_first_slide w Hr HN HM Hthrow)
    as (H1 & H2 & H3 & H4 & H5 & _).
  done.
Qed.

Lemma restart_shows_first_slide_witness :
  phaseOf (restart (step CallSkip
                      (step CallStart (construct defaultOptions demoPage))))
  = Playing
  ∧ currentSlide
      (state (restart (step CallSkip
                         (step CallStart
                            (construct defaultOptions demoPage))))) = 0
  ∧ startTime
      (state (restart (step CallSkip
                         (step CallStart
                            (construct defaultOptions demoPage)))))
    = Some (clock (env (step CallSkip
                          (step CallStart
                             (construct defaultOptions demoPage)))))
  ∧ map look
      (slides (elements (restart (step CallSkip
                                    (step CallStart
                                       (construct defaultOptions
                                          demoPage))))))
    = shownLook
      :: map (λ _, hiddenLook)
           (tail (slides (elements (step CallSkip
                                      (step CallStart
                                         (construct defaultOptions
                                            demoPage))))))
  ∧ map action
      (loopTimers (restart (step CallSkip
                              (step CallStart
                                 (construct defaultOptions demoPage)))))
    = [ShowSlideRest 0 (-1) (AwaitedBy PlaySequence 0)].
Proof.
  refine (restart_shows_first_slide
            (step CallSkip (step CallStart (construct defaultOptions demoPage)))
            (reachable_step CallSkip _
               (reachable_step CallStart _ (reachable_construct _ _)))
            _ _ _).
  - vm_compute. reflexivity.
  - vm_compute. reflexivity.
  - vm_compute. reflexivity.
Defined.
(** ** Construction *)

(** X10. A failed set-up leaves a dead component.  Without a container,
    or with a container without slide elements, the constructor logs
    one error and leaves a component that is Idle, has no slides and no
    timers and listens to nothing, whatever [autoStart] says.  With
    slide elements it installs the listeners, and if [autoStart] is off
    it leaves the component Idle before the first slide, all slides
    hidden, nothing logged and no timer set. *)
Theorem construct_outcomes o p :
  match container p with
  | Some (sl :: sls, _) =>
      listening (construct o p) = true
      ∧ (optAutoStart o = Some false →
         phaseOf (construct o p) = Idle
         ∧ currentSlide (state (construct o p)) = -1
         ∧ map look (slides (elements (construct o p)))
           = map (λ _, hiddenLook) (sl :: sls)
         ∧ log (env (construct o p)) = []
         ∧ timers (env (construct o p)) = [])
  | _ =>
      log (env (construct o p))
      = [(pageClock p, ConsoleError "IntroSlides initialization failed:")]
      ∧ listening (construct o p) = false
      ∧ phaseOf (construct o p) = Idle
      ∧ slides (elements (construct o p)) = []
      ∧ timers (env (construct o p)) = []
  end.
Proof.
  unfold construct, setupDOM.
  destruct (container p) as [[[|sl sls] inS]|]; cbn [emit withEnv].
  - done.
  - cbv zeta.
    set (w3 := mkWorld _ _ _ _ true _). split.
    + destruct (autoStart (config w3)); [|done].
      rewrite start_unfold.
      destruct (isPlaying (state w3) || isCompleted (state w3)); [done|].
      set (w2 := onSection _ _).
      assert (Hl : listening w2 = true).
      { subst w2 w3. unfold setupAccessibility.
        by destruct (prefersReducedMotion p). }
      pose proof (loopFrom_cases PlaySequence 0 w2) as Hc.
      destruct (loopFrom PlaySequence 0 w2) as [w'|w'|w'];
        cbn [caughtByStart].
      * by destruct Hc as [-> _].
      * destruct Hc as [_ [(_ & _ & _ & _ & hs & G & _)|[(_ & _ & ->)|(_ & ->)]]];
          [by rewrite (grows_listening _ _ _ _ _ G) | done | done].
      * destruct Hc as (_ & _ & _ & _ & G & _).
        destruct (handleError_cases
                    (emit (ConsoleError "Error during slide sequence:") w'))
          as (rs & G' & _).
        rewrite (grows_listening _ _ _ _ _ G'). simpl.
        by rewrite (grows_listening _ _ _ _ _ G).
    + intros Ha.
      assert (Hauto : autoStart (config w3) = false).
      { subst w3. unfold setupAccessibility.
        destruct (prefersReducedMotion p); simpl; by rewrite Ha. }
      rewrite Hauto. subst w3. unfold setupAccessibility.
      destruct (prefersReducedMotion p); simpl;
        rewrite map_map; repeat split; reflexivity.
  - done.
Qed.

Lemma construct_outcomes_witness :
  listening (construct demoOptions demoPage) = true
  ∧ (optAutoStart demoOptions = Some false →
     phaseOf (construct demoOptions demoPage) = Idle
     ∧ currentSlide (state (construct demoOptions demoPage)) = -1
     ∧ map look (slides (elements (construct demoOptions demoPage)))
       = map (λ _, hiddenLook) [plainSlide; plainSlide; plainSlide]
     ∧ log (env (construct demoOptions demoPage)) = []
     ∧ timers (env (construct demoOptions demoPage)) = []).
Proof. exact (construct_outcomes demoOptions demoPage). Defined.

(** ** The hide after completion *)

Lemma findTimer_pending (t : timer) ts :
  NoDup (map tid ts) → t ∈ ts →
  findTimer (tid t) ts = Some t
  ∧ ∀ u : timer, u ∈ ts → u ≠ t → u ∈ dropTimer (tid t) ts.
Proof.
  intros Hn Hin. apply list_elem_of_split in Hin as (a & b & ->).
  destruct (findTimer_unique a t b Hn) as [Hf Hd]. split; [exact Hf|].
  intros u Hu Hne. apply elem_of_dropTimer; [exact Hu|].
  apply (other_timer t u _ Hn); [|exact Hu|congruence].
  apply elem_of_app. right. apply list_elem_of_here.
Qed.

Lemma fire_pending (t : timer) w :
  NoDup (map tid (timers (env w))) → t ∈ timers (env w) →
  fire (tid t) w
  = runCallback (action t)
      (taken t (dropTimer (tid t) (timers (env w))) w).
Proof.
  intros Hn Hin. destruct (findTimer_pending t _ Hn Hin) as [Hf _].
  unfold fire. rewrite Hf. reflexivity.
Qed.

(** The hide fires, and then the timer it sets. *)
Lemma hide_then_finish w t :
  reachable w → t ∈ timers (env w) → action t = HideCallback →
  is_Some (section (elements w)) →
  ∃ u, action u = HideFinish
       ∧ u ∈ timers (env (fire (tid t) w))
       ∧ phaseOf (fire (tid u) (fire (tid t) w)) = phaseOf w
       ∧ hidden <$> section (elements (fire (tid u) (fire (tid t) w)))
         = Some true.
Proof.
  intros Hr Hin Ha [s Hs].
  pose proof (reachable_registered _ Hr) as (Hn & _).
  pose proof (reachable_registered _ (reachable_step (TimerFires (tid t)) _ Hr))
    as (Hn1 & _).
  cbn [step] in Hn1. revert Hn1.
  rewrite (fire_pending t w Hn Hin), Ha. cbn [runCallback].
  generalize (dropTimer (tid t) (timers (env w))). intros rest.
  pose proof (grows_hide (taken t rest w)) as G.
  change (section (elements (taken t rest w)))
    with (section (elements w)) in G.
  rewrite Hs in G.
  assert (Hph : phaseOf (hide (taken t rest w)) = phaseOf w)
    by apply (phaseOf_flagsOf _ _ (grows_flags _ _ _ _ _ G)).
  assert (Hsec : is_Some (section (elements (hide (taken t rest w))))).
  { apply (grows_section _ _ _ _ _ G). by exists s. }
  revert G Hph Hsec. generalize (hide (taken t rest w)). intros w1 G Hph Hsec Hn1.
  eexists. split; [|split; [rewrite (grows_timers _ _ _ _ _ G);
                            apply pending_new|]]; [reflexivity|].
  rewrite fire_pending;
    [|exact Hn1 | rewrite (grows_timers _ _ _ _ _ G); apply pending_new].
  cbn [action runCallback]. destruct Hsec as [s1 Hs1]. split.
  - rewrite <- Hph. apply phaseOf_flagsOf. reflexivity.
  - unfold hideFinish, onSection, taken.
    cbn [withElements withEnv elements section setSection].
    rewrite Hs1. reflexivity.
Qed.

(** X11. The hide that [complete()] schedules outlives [restart()]: it
    was set with a bare [setTimeout], which [stop()] does not cancel.  If
    it is pending when [restart()] begins the sequence again, it fires
    during the new play-through, and once its own timer has fired the
    section of the slides is hidden while the sequencer is Playing. *)
Theorem hide_outlives_restart w t :
  reachable w → t ∈ timers (env w) → action t = HideCallback →
  is_Some (section (elements w)) →
  0 < messageCount w → 0 < slideCount w →
  throwsAt (onSlideStart (eventHandlers w)) 0 = false →
  t ∈ timers (env (restart w))
  ∧ phaseOf (restart w) = Playing
  ∧ ∃ u, action u = HideFinish
         ∧ u ∈ timers (env (fire (tid t) (restart w)))
         ∧ phaseOf (fire (tid u) (fire (tid t) (restart w))) = Playing
         ∧ hidden <$> section (elements (fire (tid u)
                                           (fire (tid t) (restart w))))
           = Some true.
Proof.
  intros Hr Hin Ha Hsec HN HM Hthrow.
  destruct (restart_first_slide w Hr HN HM Hthrow)
    as (Hph & _ & _ & _ & _ & (new & Hts) & Hsec').
  specialize (Hsec' Hsec).
  assert (Hin' : t ∈ timers (env (restart w))).
  { rewrite Hts. apply elem_of_app. left.
    destruct (cancel_bare w Hr) as [-> _].
    apply list_elem_of_In, filter_In. split; [by apply list_elem_of_In|].
    by rewrite Ha. }
  split; [exact Hin'|]. split; [exact Hph|].
  pose proof (reachable_step CallRestart w Hr) as Hr'. cbn [step] in Hr'.
  destruct (hide_then_finish (restart w) t Hr' Hin' Ha Hsec')
    as (u & Hu & Hin1 & Hph1 & Hh).
  exists u. rewrite Hph1. done.
Qed.

Lemma hide_outlives_restart_witness :
  mkTimer 1 1000 HideCallback
  ∈ timers (env (restart (step CallSkip
                            (step CallStart
                               (construct demoOptions demoPage)))))
  ∧ phaseOf (restart (step CallSkip
                        (step CallStart (construct demoOptions demoPage))))
    = Playing
  ∧ ∃ u, action u = HideFinish
         ∧ u ∈ timers (env (fire (tid (mkTimer 1 1000 HideCallback))
                              (restart (step CallSkip
                                          (step CallStart
                                             (construct demoOptions
                                                demoPage))))))
         ∧ phaseOf (fire (tid u)
                      (fire (tid (mkTimer 1 1000 HideCallback))
                         (restart (step CallSkip
                                     (step CallStart
                                        (construct demoOptions demoPage))))))
           = Playing
         ∧ hidden
           <$> section (elements
                 (fire (tid u)
                    (fire (tid (mkTimer 1 1000 HideCallback))
                       (restart (step CallSkip
                                   (step CallStart
                                      (construct demoOptions demoPage)))))))
           = Some true.
Proof.
  refine (hide_outlives_restart
            (step CallSkip (step CallStart (construct demoOptions demoPage)))
            (mkTimer 1 1000 HideCallback)
            (reachable_step CallSkip _
               (reachable_step CallStart _ (reachable_construct _ _)))
            _ _ _ _ _ _).
  - vm_compute. constructor.
  - reflexivity.
  - vm_compute. eexists. reflexivity.
  - vm_compute. reflexivity.
  - vm_compute. reflexivity.
  - vm_compute. reflexivity.
Defined.

End IntroSlidesProofs.

(* ===================================================================== *)
(** * Properties of the typing speed *)
(* ===================================================================== *)

Module LetterSpeedProofs.
Import Stdlib.QArith.QArith_base Stdlib.QArith.Qcanon.
Import LetterSpeed.
Local Open Scope Qc_scope.

Lemma half_pos : Q2Qc 0 < half.
Proof. reflexivity. Qed.

Lemma half_power_pos n : Q2Qc 0 < half ^ n.
Proof.
  induction n as [|n IH]; [reflexivity|]. simpl.
  rewrite <- (Qcmult_0_l (half ^ n)).
  apply Qcmult_lt_compat_r; [exact IH | exact half_pos].
Qed.

Lemma half_power_le_1 n : half ^ n ≤ Q2Qc 1.
Proof.
  induction n as [|n IH]; [apply Qcle_refl|]. simpl.
  apply Qcle_trans with (Q2Qc 1 * half ^ n).
  - apply Qcmult_le_compat_r; [done | apply Qclt_le_weak, half_power_pos].
  - by rewrite Qcmult_1_l.
Qed.

Lemma max_floor y : y ≤ Qc_of_Z 20 → max (Qc_of_Z 20) y = Qc_of_Z 20.
Proof.
  intros Hy. unfold max. destruct (decide _) as [H|H]; [|done].
  by apply Qcle_antisym.
Qed.

Lemma max_above y : Qc_of_Z 20 ≤ y → max (Qc_of_Z 20) y = y.
Proof. intros Hy. unfold max. by destruct (decide _). Qed.

Lemma max_floor_ge y : Qc_of_Z 20 ≤ max (Qc_of_Z 20) y.
Proof.
  unfold max. destruct (decide _) as [H|H]; [exact H | apply Qcle_refl].
Qed.

(** Once the floor has been applied it can be forgotten under further
    halvings. *)
Lemma max_halved x n :
  max (Qc_of_Z 20) (max (Qc_of_Z 20) x * half ^ n)
  = max (Qc_of_Z 20) (x * half ^ n).
Proof.
  destruct (Qclt_le_dec x (Qc_of_Z 20)) as [Hlt|Hge];
    [|by rewrite (max_above x Hge)].
  rewrite (max_floor x) by by apply Qclt_le_weak.
  assert (H20 : Qc_of_Z 20 * half ^ n ≤ Qc_of_Z 20).
  { apply Qcle_trans with (Qc_of_Z 20 * Q2Qc 1); [|by rewrite Qcmult_1_r].
    rewrite !(Qcmult_comm (Qc_of_Z 20)).
    apply Qcmult_le_compat_r; [apply half_power_le_1 | done]. }
  rewrite !max_floor; [done| |exact H20].
  apply Qcle_trans with (Qc_of_Z 20 * half ^ n); [|exact H20].
  apply Qcmult_le_compat_r; [by apply Qclt_le_weak|].
  apply Qclt_le_weak, half_power_pos.
Qed.

(** X14. Every resize of a narrow window halves the typing delay again.
    With the typewriter on, after any sequence of [resize] events (each
    one calls [adjustForScreenSize()]) of which [n > 0] found the window
    narrower than 768 pixels, the speed is [typewriterSpeed / 2^n], or
    20 if that is less: it depends on the number of those events only,
    and is not restored when the window is wide again.  With the
    typewriter off, or when no event found the window narrow, the speed
    is unchanged. *)
Theorem resizes_keep_halving (widths : list Z) (enableTypewriter : bool)
    (typewriterSpeed : Qc) :
  resized widths enableTypewriter typewriterSpeed
  = if enableTypewriter && bool_decide (0 < narrowCalls widths)%nat
    then max (Qc_of_Z 20) (typewriterSpeed * half ^ narrowCalls widths)
    else typewriterSpeed.
Proof.
  unfold resized, narrowCalls. revert typewriterSpeed.
  induction widths as [|w ws IH]; intros s; simpl.
  - by rewrite andb_false_r.
  - rewrite IH. unfold adjustForScreenSize.
    set (n := length (List.filter _ ws)).
    destruct enableTypewriter; simpl.
    2: { by destruct (bool_decide (w < 768)%Z). }
    destruct (bool_decide (w < 768)%Z); simpl; fold n; [|reflexivity].
    clearbody n. destruct n as [|n'].
    + rewrite bool_decide_false by lia. simpl.
      replace (half * 1) with half by ring. reflexivity.
    + rewrite bool_decide_true by lia.
      rewrite max_halved. f_equal. ring.
Qed.

Lemma resizes_keep_halving_witness :
  resized [500; 1024; 600]%Z true (Qc_of_Z 50)
  = if true && bool_decide (0 < narrowCalls [500; 1024; 600]%Z)%nat
    then max (Qc_of_Z 20)
           (Qc_of_Z 50 * half ^ narrowCalls [500; 1024; 600]%Z)
    else Qc_of_Z 50.
Proof.
  exact (resizes_keep_halving [500; 1024; 600]%Z true (Qc_of_Z 50)).
Defined.

(** The default delay of 50 ms is at the floor after two resizes of a
    narrow window. *)
Lemma default_speed_resized_twice :
  resized [500; 600]%Z true (Qc_of_Z 50) = Qc_of_Z 20
  ∧ resized [500; 600; 1024]%Z true (Qc_of_Z 50) = Qc_of_Z 20.
Proof. split; apply Qc_is_canon; reflexivity. Qed.

End LetterSpeedProofs.

(* ===================================================================== *)
(** * Properties of the customization panel *)
(* ===================================================================== *)

Module CustomizationProofs.
Import Customization.
Local Open Scope list_scope.

(** ** [trim] *)

Lemma trimEnd_nil s : trimEnd s = [] ↔ forallb isWhiteSpace s = true.
Proof.
  induction s as [|c rest IH]; simpl; [done|].
  destruct (trimEnd rest) as [|d r] eqn:E.
  - destruct (isWhiteSpace c); simpl; [|done].
    split; [intros _; by apply IH | done].
  - split; [done|]. intros H. apply andb_prop in H as [_ H].
    by apply IH in H.
Qed.

Lemma trimStart_nil s : trimStart s = [] ↔ forallb isWhiteSpace s = true.
Proof.
  induction s as [|c rest IH]; simpl; [done|].
  destruct (isWhiteSpace c); simpl; [exact IH | done].
Qed.

Lemma trimStart_head s :
  match head (trimStart s) with
  | Some c => isWhiteSpace c = false
  | None => True
  end.
Proof.
  induction s as [|c rest IH]; simpl; [done|].
  destruct (isWhiteSpace c) eqn:E; [exact IH | simpl; exact E].
Qed.

Lemma trimEnd_last s :
  match last (trimEnd s) with
  | Some c => isWhiteSpace c = false
  | None => True
  end.
Proof.
  induction s as [|c rest IH]; simpl; [done|].
  destruct (trimEnd rest) as [|d r] eqn:E.
  - destruct (isWhiteSpace c) eqn:Ec; simpl; [done | exact Ec].
  - exact IH.
Qed.

Lemma trimEnd_head c rest :
  isWhiteSpace c = false → head (trimEnd (c :: rest)) = Some c.
Proof. intros Hc. simpl. destruct (trimEnd rest); [by rewrite Hc | done]. Qed.

Lemma trimStart_fixed s :
  match head s with Some c => isWhiteSpace c = false | None => True end →
  trimStart s = s.
Proof. destruct s as [|c rest]; simpl; [done|]. by intros ->. Qed.

Lemma trimEnd_fixed s :
  match last s with Some c => isWhiteSpace c = false | None => True end →
  trimEnd s = s.
Proof.
  induction s as [|c rest IH]; simpl; [done|].
  destruct rest as [|d rest'].
  - simpl. by intros ->.
  - intros H. rewrite IH by exact H. reflexivity.
Qed.

Lemma trim_trimmed s : trimmed (trim s).
Proof.
  unfold trimmed, trim. split; [|apply trimEnd_last].
  pose proof (trimStart_head s) as Hh.
  destruct (trimStart s) as [|c rest]; [done|].
  simpl in Hh. by rewrite (trimEnd_head c rest Hh).
Qed.

Lemma trimmed_trim s : trimmed s → trim s = s.
Proof.
  intros [Hh Hl]. unfold trim. rewrite (trimStart_fixed s Hh).
  by apply trimEnd_fixed.
Qed.

Lemma trim_idem s : trim (trim s) = trim s.
Proof. apply trimmed_trim, trim_trimmed. Qed.

Lemma trim_nil s : trim s = [] ↔ forallb isWhiteSpace s = true.
Proof.
  unfold trim. rewrite trimEnd_nil. split.
  - intros H. apply trimStart_nil.
    pose proof (trimStart_head s) as Hh.
    destruct (trimStart s) as [|c rest]; [done|].
    simpl in *. by rewrite Hh in H.
  - intros H. apply trimStart_nil in H. by rewrite H.
Qed.

(** ** Blank lines *)

Lemma blankFree_cons2 c d s :
  blankFree (c :: d :: s)
  = negb ((c =? 10)%N && (d =? 10)%N) && blankFree (d :: s).
Proof. reflexivity. Qed.

Lemma blankFree_cons c s : blankFree (c :: s) = true → blankFree s = true.
Proof.
  destruct s as [|d s']; [done|]. rewrite blankFree_cons2.
  intros H. by apply andb_prop in H as [_ H].
Qed.

Lemma blankFree_trimStart s :
  blankFree s = true → blankFree (trimStart s) = true.
Proof.
  induction s as [|c rest IH]; [done|]. intros H. simpl.
  destruct (isWhiteSpace c); [|exact H].
  apply IH. by apply blankFree_cons in H.
Qed.

Lemma blankFree_trimEnd s :
  blankFree s = true → blankFree (trimEnd s) = true.
Proof.
  induction s as [|c rest IH]; [done|]. intros H.
  pose proof (IH (blankFree_cons _ _ H)) as IH'. simpl.
  destruct rest as [|d rest'].
  - simpl. by destruct (isWhiteSpace c).
  - destruct (trimEnd (d :: rest')) as [|e r] eqn:E.
    + by destruct (isWhiteSpace c).
    + assert (e = d) as ->.
      { simpl in E. destruct (trimEnd rest'); [|by injection E].
        destruct (isWhiteSpace d); [done | by injection E]. }
      rewrite blankFree_cons2 in H |- *. apply andb_prop in H as [H _].
      by rewrite H, IH'.
Qed.

Lemma blankFree_trim s : blankFree s = true → blankFree (trim s) = true.
Proof. intros H. by apply blankFree_trimEnd, blankFree_trimStart. Qed.

(** ** [split] and [join] on blank lines *)

Lemma str_ind2 (P : str → Prop) :
  P [] → (∀ c, P [c]) →
  (∀ c d r, P r → P (d :: r) → P (c :: d :: r)) →
  ∀ s, P s.
Proof.
  intros H0 H1 H2 s.
  enough (P s ∧ ∀ c, P (c :: s)) as [H _] by exact H.
  induction s as [|d r [IH1 IH2]]; [by split|].
  split; [apply IH2|]. intros c. apply H2; [exact IH1 | apply IH2].
Qed.

Lemma splitBlank_cons2 c d r :
  splitBlank (c :: d :: r)
  = if (c =? 10)%N && (d =? 10)%N then [] :: splitBlank r
    else match splitBlank (d :: r) with
         | p :: ps => (c :: p) :: ps
         | [] => [[c]]
         end.
Proof. reflexivity. Qed.

Lemma splitBlank_nonempty s : splitBlank s ≠ [].
Proof.
  induction s as [|c|c d r _ IH] using str_ind2; [done..|].
  rewrite splitBlank_cons2. destruct (_ && _); [done|].
  by destruct (splitBlank (d :: r)).
Qed.

(** The first piece is empty or begins as the string does. *)
Lemma splitBlank_head d r p ps :
  splitBlank (d :: r) = p :: ps → p = [] ∨ head p = Some d.
Proof.
  destruct r as [|e r'].
  - intros [= <- _]. by right.
  - rewrite splitBlank_cons2. destruct (_ && _).
    + intros [= <- _]. by left.
    + destruct (splitBlank (e :: r')); intros [= <- _]; by right.
Qed.

Lemma splitBlank_blankFree s :
  Forall (λ p, blankFree p = true) (splitBlank s).
Proof.
  induction s as [|c|c d r IHr IH] using str_ind2.
  - by repeat constructor.
  - by repeat constructor.
  - rewrite splitBlank_cons2. destruct (_ && _) eqn:E.
    + by constructor.
    + destruct (splitBlank (d :: r)) as [|p ps] eqn:Es;
        [by repeat constructor|].
      apply Forall_cons in IH as [Hp Hps]. constructor; [|exact Hps].
      destruct (splitBlank_head _ _ _ _ Es) as [->|Hh]; [done|].
      destruct p as [|e p']; [done|]. injection Hh as ->.
      rewrite blankFree_cons2, E, Hp. reflexivity.
Qed.

Lemma splitBlank_forallb s :
  forallb (forallb isWhiteSpace) (splitBlank s) = forallb isWhiteSpace s.
Proof.
  induction s as [|c|c d r IHr IH] using str_ind2.
  - reflexivity.
  - simpl. by rewrite !andb_true_r.
  - rewrite splitBlank_cons2. destruct (_ && _) eqn:E.
    + apply andb_prop in E as [Ec Ed].
      apply N.eqb_eq in Ec, Ed. subst c d.
      cbn [forallb]. rewrite IHr. reflexivity.
    + pose proof (splitBlank_nonempty (d :: r)) as Hn.
      destruct (splitBlank (d :: r)) as [|p ps] eqn:Es; [done|].
      change (forallb isWhiteSpace (c :: d :: r))
        with (isWhiteSpace c && forallb isWhiteSpace (d :: r)).
      rewrite <- IH. cbn [forallb]. by rewrite andb_assoc.
Qed.

Lemma splitBlank_one p : blankFree p = true → splitBlank p = [p].
Proof.
  induction p as [|c|c d r _ IH] using str_ind2; [done..|].
  intros H. rewrite blankFree_cons2 in H. apply andb_prop in H as [H1 H2].
  rewrite splitBlank_cons2. apply negb_true_iff in H1. rewrite H1.
  by rewrite (IH H2).
Qed.

Lemma splitBlank_app p r :
  blankFree p = true → last p ≠ Some 10%N →
  splitBlank (p ++ 10%N :: 10%N :: r) = p :: splitBlank r.
Proof.
  induction p as [|c p IH]; intros Hb Hl; [reflexivity|].
  destruct p as [|d p'].
  - simpl in Hl. cbn [app]. rewrite splitBlank_cons2.
    destruct (c =? 10)%N eqn:Ec; [apply N.eqb_eq in Ec; by subst c|].
    cbn [andb]. by rewrite splitBlank_cons2.
  - pose proof Hb as Hb'. rewrite blankFree_cons2 in Hb'.
    apply andb_prop in Hb' as [H1 H2]. apply negb_true_iff in H1.
    change ((c :: d :: p') ++ 10%N :: 10%N :: r)
      with (c :: d :: (p' ++ 10%N :: 10%N :: r)).
    rewrite splitBlank_cons2, H1.
    change (d :: p' ++ 10%N :: 10%N :: r)
      with ((d :: p') ++ 10%N :: 10%N :: r).
    by rewrite (IH H2 Hl).
Qed.

Lemma splitBlank_joinBlank ps :
  ps ≠ [] →
  Forall (λ p, blankFree p = true ∧ last p ≠ Some 10%N) ps →
  splitBlank (joinBlank ps) = ps.
Proof.
  induction ps as [|p rest IH]; [done|]. intros _ Hall.
  apply Forall_cons in Hall as [[Hb Hl] Hrest].
  destruct rest as [|q rest'].
  - simpl. by apply splitBlank_one.
  - change (joinBlank (p :: q :: rest'))
      with (p ++ 10%N :: 10%N :: joinBlank (q :: rest')).
    rewrite (splitBlank_app _ _ Hb Hl). by rewrite IH.
Qed.

(** ** The letter of the panel *)

Lemma truthy_nil s : truthy s = false ↔ s = [].
Proof. by destruct s. Qed.

Lemma filter_blank_nil l :
  List.filter (λ p, truthy (trim p)) l = []
  ↔ forallb (forallb isWhiteSpace) l = true.
Proof.
  induction l as [|p l IH]; simpl; [done|].
  destruct (truthy (trim p)) eqn:E.
  - split; [done|]. intros H. apply andb_prop in H as [H _].
    apply trim_nil in H. by rewrite H in E.
  - apply truthy_nil, trim_nil in E. rewrite E. simpl. exact IH.
Qed.

Lemma trimmed_last p : trimmed p → last p ≠ Some 10%N.
Proof. intros [_ Hl] E. by rewrite E in Hl. Qed.

Lemma gatherLetter_clean value : Forall clean (gatherLetter value).
Proof.
  unfold gatherLetter.
  pose proof (splitBlank_blankFree value) as Hb.
  induction (splitBlank value) as [|q l IH]; simpl; [constructor|].
  apply Forall_cons in Hb as [Hq Hl].
  destruct (truthy (trim q)) eqn:E; [|by apply IH].
  simpl. constructor; [|by apply IH].
  split; [|split].
  - intros H. by rewrite H in E.
  - apply trim_trimmed.
  - by apply blankFree_trim.
Qed.

Lemma gatherLetter_nil value :
  gatherLetter value = [] ↔ forallb isWhiteSpace value = true.
Proof.
  unfold gatherLetter. rewrite <- splitBlank_forallb, <- filter_blank_nil.
  by destruct (List.filter _ _).
Qed.

Lemma clean_kept l :
  Forall clean l → map trim (List.filter (λ p, truthy (trim p)) l) = l.
Proof.
  induction l as [|q l IH]; intros Hc; [reflexivity|].
  apply Forall_cons in Hc as [(Hne & Ht & _) Hl].
  simpl. rewrite (trimmed_trim q Ht).
  destruct q; [done|]. simpl. rewrite (trimmed_trim _ Ht). by rewrite IH.
Qed.

(** Clean paragraphs written into the textarea are read back as they
    are. *)
Lemma gatherLetter_joinBlank ps :
  Forall clean ps → gatherLetter (joinBlank ps) = ps.
Proof.
  intros Hc. destruct ps as [|p rest]; [reflexivity|].
  unfold gatherLetter. rewrite splitBlank_joinBlank; [|done|].
  - by apply clean_kept.
  - eapply Forall_impl; [exact Hc|]. intros q (_ & Ht & Hb).
    split; [exact Hb | by apply trimmed_last].
Qed.

(** X15. The letter the panel hands on.  Whatever is typed into the
    textarea, every paragraph that [gatherCustomizations()] makes of it
    is not empty, has no white space at either end and no blank line
    inside; there is no paragraph at all exactly when the text is white
    space only (the empty text included); and writing the paragraphs
    back into the textarea, joined by blank lines, gives the same
    paragraphs when they are gathered again. *)
Theorem gathered_letter_is_clean (value : str) :
  Forall clean (gatherLetter value)
  ∧ (gatherLetter value = [] ↔ forallb isWhiteSpace value = true)
  ∧ gatherLetter (joinBlank (gatherLetter value)) = gatherLetter value.
Proof.
  split; [apply gatherLetter_clean|]. split; [apply gatherLetter_nil|].
  apply gatherLetter_joinBlank, gatherLetter_clean.
Qed.

Lemma gathered_letter_is_clean_witness :
  Forall clean (gatherLetter (units "  Dear you  "))
  ∧ (gatherLetter (units "  Dear you  ") = []
     ↔ forallb isWhiteSpace (units "  Dear you  ") = true)
  ∧ gatherLetter (joinBlank (gatherLetter (units "  Dear you  ")))
    = gatherLetter (units "  Dear you  ").
Proof. exact (gathered_letter_is_clean (units "  Dear you  ")). Defined.

(** ** Saving and opening the panel again *)

Lemma orElse_fixed value d :
  d ≠ [] → trim d = d →
  orElse (trim value) d ≠ []
  ∧ trim (orElse (trim value) d) = orElse (trim value) d.
Proof.
  intros Hd Ht. unfold orElse. destruct (truthy (trim value)) eqn:E.
  - split; [|apply trim_idem]. intros H. by rewrite H in E.
  - by split.
Qed.

Lemma orElse_again value d :
  d ≠ [] → trim d = d →
  orElse (trim (orElse (trim value) d)) d = orElse (trim value) d.
Proof.
  intros Hd Ht. destruct (orElse_fixed value d Hd Ht) as [Hne Hfix].
  rewrite Hfix. unfold orElse at 1.
  destruct (orElse (trim value) d); done.
Qed.

Lemma messageFor_saved (ms : list str) sl sg lm defaultContent index
    (m : str) :
  ms !! index = Some m → m ≠ [] →
  messageFor (mkSettings (Some ms) sl sg lm) defaultContent index = m.
Proof.
  intros Hm Hne. unfold messageFor. cbn [messages mbind option_bind].
  unfold str in *. rewrite Hm. by destruct m.
Qed.

Lemma populate_messages (ms : list str) sl sg lm defaultContent
    (inputs : list str) :
  length ms = length inputs → Forall (λ m, m ≠ []) ms →
  imap (λ index _, messageFor (mkSettings (Some ms) sl sg lm)
                     defaultContent index) inputs = ms.
Proof.
  intros Hlen Hne. apply list_eq. intros i. rewrite list_lookup_imap.
  destruct (inputs !! i) as [v|] eqn:Ev; cbn [fmap option_fmap option_map].
  - destruct (lookup_lt_is_Some_2 ms i) as [m Hm].
    { rewrite Hlen. by eapply lookup_lt_Some. }
    etrans; [|symmetry; exact Hm].
    f_equal. apply (messageFor_saved _ _ _ _ _ _ _ Hm).
    by eapply (Forall_lookup_1 _ _ _ _ Hne).
  - symmetry. apply lookup_ge_None. rewrite Hlen. by apply lookup_ge_None.
Qed.

Lemma gathered_messages inputs :
  Forall (λ m : str, m ≠ [])
    (map (λ value, orElse (trim value) (units "Hi")) inputs)
  ∧ map (λ value, orElse (trim value) (units "Hi"))
      (map (λ value, orElse (trim value) (units "Hi")) inputs)
    = map (λ value, orElse (trim value) (units "Hi")) inputs.
Proof.
  induction inputs as [|v l [IH1 IH2]]; [by split|]. cbn [map].
  split.
  - constructor; [|exact IH1]. by apply orElse_fixed.
  - rewrite IH2. f_equal. by apply orElse_again.
Qed.

(** What [saveCustomizations()] stores under the keys of the panel. *)
Lemma saved_keys now userSettings pn :
  messages (saveCustomizations now userSettings pn)
  = messages (gatherCustomizations pn)
  ∧ (∀ value, letterContentInput pn = Some value →
     letterText (saveCustomizations now userSettings pn)
     = Some (Paragraphs (gatherLetter value)))
  ∧ (∀ value, signatureInput pn = Some value →
     signature (saveCustomizations now userSettings pn)
     = Some (orElse (trim value) (units "Your Valentine")))
  ∧ lastModified (saveCustomizations now userSettings pn) = Some now.
Proof.
  unfold saveCustomizations, spread, gatherCustomizations. cbn.
  split; [done|]. split; [by intros value ->|]. split; [by intros value ->|].
  done.
Qed.

(** A second save with the same values changes the time stamp only. *)
Lemma spread_again base c now now' :
  messages c ≠ None → lastModified c = None →
  spread
    (spread
       (spread (spread base c) (mkSettings None None None (Some now))) c)
    (mkSettings None None None (Some now'))
  = mkSettings
      (messages (spread (spread base c)
                   (mkSettings None None None (Some now))))
      (letterText (spread (spread base c)
                     (mkSettings None None None (Some now))))
      (signature (spread (spread base c)
                    (mkSettings None None None (Some now))))
      (Some now').
Proof.
  destruct c as [[m|] [l|] [sg|] [lm|]], base as [bm bl bs bt];
    intros Hm Hl; done.
Qed.

(** X16. Saving and opening the panel again changes nothing but the time
    of the save.  After [saveCustomizations()], whatever was typed and
    whatever the settings and the default content were,
    [populateCustomizationPanel()] fills the message inputs with the
    saved messages, and what [gatherCustomizations()] then reads from
    the panel is what was gathered before: a second save stores the same
    messages, letter and signature, and the new [lastModified]. *)
Theorem saved_panel_reopens_unchanged (now now' : str)
    (userSettings : option settings) (defaultContent : content)
    (pn : panel) :
  let saved := saveCustomizations now userSettings pn in
  let reopened := populateCustomizationPanel (Some saved) defaultContent pn in
  messages saved = Some (messageInputs reopened)
  ∧ gatherCustomizations reopened = gatherCustomizations pn
  ∧ saveCustomizations now' (Some saved) reopened
    = mkSettings (messages saved) (letterText saved) (signature saved)
        (Some now').
Proof.
  cbn zeta.
  destruct (saved_keys now userSettings pn) as (Hm & Hl & Hs & _).
  set (saved := saveCustomizations now userSettings pn) in *.
  set (gm := map (λ value, orElse (trim value) (units "Hi"))
               (messageInputs pn)).
  destruct (gathered_messages (messageInputs pn)) as [Hne Hfix].
  fold gm in Hne, Hfix.
  change (messages (gatherCustomizations pn)) with (Some gm) in Hm.
  assert (Hin : messageInputs
                  (populateCustomizationPanel (Some saved) defaultContent pn)
                = gm).
  { unfold populateCustomizationPanel. cbn [default from_option messageInputs].
    unfold id. destruct saved as [mm ml ms mt]. simpl in Hm. subst mm.
    apply populate_messages; [|exact Hne]. subst gm. by rewrite length_map. }
  assert (Hg : gatherCustomizations
                 (populateCustomizationPanel (Some saved) defaultContent pn)
               = gatherCustomizations pn).
  { unfold gatherCustomizations at 1. rewrite Hin, Hfix.
    unfold populateCustomizationPanel.
    cbn [default from_option letterContentInput signatureInput]. unfold id.
    unfold gatherCustomizations. fold gm. f_equal.
    - destruct (letterContentInput pn) as [value|] eqn:El; [|done].
      unfold letterFor. rewrite (Hl value eq_refl).
      by rewrite gatherLetter_joinBlank by apply gatherLetter_clean.
    - destruct (signatureInput pn) as [value|] eqn:Es; [|done].
      rewrite (Hs value eq_refl).
      destruct (orElse_fixed value (units "Your Valentine")) as [Hn _];
        [done..|].
      pose proof (orElse_again value (units "Your Valentine")) as Ha.
      destruct (orElse (trim value) (units "Your Valentine")) as [|ch r]
        eqn:E; [done|].
      f_equal. by apply Ha. }
  split; [by rewrite Hin|]. split; [exact Hg|].
  unfold saveCustomizations at 1. rewrite Hg. cbn [default from_option].
  unfold id. subst saved. unfold saveCustomizations.
  by apply spread_again.
Qed.

Lemma saved_panel_reopens_unchanged_witness :
  let saved := saveCustomizations (units "2024-02-14T09:00:00.000Z") None
                 demoPanel in
  let reopened :=
    populateCustomizationPanel (Some saved)
      (mkContent [units "Hi"] [units "From the moment"]
         (units "Your Valentine")) demoPanel in
  messages saved = Some (messageInputs reopened)
  ∧ gatherCustomizations reopened = gatherCustomizations demoPanel
  ∧ saveCustomizations (units "2024-02-14T09:05:00.000Z") (Some saved)
      reopened
    = mkSettings (messages saved) (letterText saved) (signature saved)
        (Some (units "2024-02-14T09:05:00.000Z")).
Proof.
  exact (saved_panel_reopens_unchanged (units "2024-02-14T09:00:00.000Z")
           (units "2024-02-14T09:05:00.000Z") None
           (mkContent [units "Hi"] [units "From the moment"]
              (units "Your Valentine")) demoPanel).
Defined.

(** The demo panel: its values are cleaned up, the blank message becomes
    "Hi", the blank signature "Your Valentine", and the letter has three
    paragraphs. *)
Lemma demoPanel_gathered :
  gatherCustomizations demoPanel
  = mkSettings (Some [units "Hello"; units "Hi"; units "you"])
      (Some (Paragraphs [units "Dear,"; units "I am here."; units "Bye"]))
      (Some (units "Your Valentine")) None.
Proof. vm_compute. reflexivity. Qed.

End CustomizationProofs.
